(** * koa-api-builder: the route tree, its cursor and its flattening

    A shallow embedding of [lib/api-builder.cjs].  Path elements are
    JavaScript objects that point at each other ([parentElement],
    [children]); they live here in a store indexed by address, so that the
    in-place updates of the source ([push], [pop], the assignments to
    [visited] and [middlewares]) are updates of the store.  Callbacks are
    programs over the builder's public methods.  Every [while] loop of the
    source takes fuel, and running out of it is an outcome of its own. *)

From stdpp Require Import base option list strings gmap.

Open Scope string_scope.
Open Scope list_scope.

(** ** JavaScript values that reach the builder *)

(** What the caller means a function argument to be.  No operation of the
    builder reads it: the source tells a callback from a middleware by
    position only. *)
Inductive role := Middleware | Callback.

(** The leading argument of [path] and of the verb methods. *)
Inductive jsarg (F : Type) : Type :=
| Absent
| Str (s : string)
| Fun (f : F).
Arguments Absent {F}.
Arguments Str {F} s.
Arguments Fun {F} f.

(** A function value: its identity, and what it does to the builder when it
    is called with the builder as its only argument.  A Koa middleware such
    as [function foo() {}] has an empty body. *)
Inductive fn : Type :=
| Function (ident : nat) (r : role) (body : list stmt)
with stmt : Type :=
| CallVerb (name : string) (uri : jsarg fn) (middlewares : list fn)
| CallPath (uri : jsarg fn) (middlewares : list fn)
| CallEnd
| ThrowError.

Definition fn_ident (f : fn) : nat := match f with Function i _ _ => i end.
Definition fn_role (f : fn) : role := match f with Function _ r _ => r end.
Definition fn_body (f : fn) : list stmt := match f with Function _ _ b => b end.

(** ** The store *)

(** [{uri, middlewares}] as pushed by a verb method; [uri] is [None] when
    the method was called without arguments ([undefined]). *)
Record op := Op { op_uri : option string; op_middlewares : list fn }.

Record pathElement := PathElement {
  visited : bool;
  parentElement : option nat;
  children : list nat;
  middlewares : list fn;
  uri : string;
  verbs : gmap string (list op)
}.

(** One call [router[verb](path, ...stack)] as the router records it. *)
Record layer := Layer { l_verb : string; l_path : string; l_stack : list fn }.

(** The receiver of a method call: the builder, or whatever [this] is when
    a method was taken off the builder. *)
Record object := Object {
  instanceofApiBuilder : bool;
  currentElement : option nat;
  router : option nat
}.

(** Ghost events: a function called by [path], a child taken by [build]. *)
Inductive event :=
| Invoked (ident : nat) (cursor : option nat)
| Descended (parent child : nat).

Record state := State {
  this : object;
  elements : list pathElement;
  routers : list (list layer);
  events : list event
}.

Definition set_this (o : object) (st : state) : state :=
  State o (elements st) (routers st) (events st).
Definition set_elements (h : list pathElement) (st : state) : state :=
  State (this st) h (routers st) (events st).
Definition set_routers (r : list (list layer)) (st : state) : state :=
  State (this st) (elements st) r (events st).
Definition emit (e : event) (st : state) : state :=
  State (this st) (elements st) (routers st) (events st ++ [e]).

Definition set_currentElement (c : option nat) (o : object) : object :=
  Object (instanceofApiBuilder o) c (router o).

Definition set_visited (b : bool) (e : pathElement) : pathElement :=
  PathElement b (parentElement e) (children e) (middlewares e) (uri e) (verbs e).
Definition set_children (cs : list nat) (e : pathElement) : pathElement :=
  PathElement (visited e) (parentElement e) cs (middlewares e) (uri e) (verbs e).
Definition set_middlewares (ms : list fn) (e : pathElement) : pathElement :=
  PathElement (visited e) (parentElement e) (children e) ms (uri e) (verbs e).
Definition set_verb (m : string) (arr : list op) (e : pathElement) : pathElement :=
  PathElement (visited e) (parentElement e) (children e) (middlewares e) (uri e)
    (<[m := arr]> (verbs e)).

(** ** Outcomes *)

Inductive exn :=
| Error (msg : string)
| TypeError (msg : string).

(** [Dangling] is an address outside the store: no run of the source gets
    there, and the invariants below exclude it. *)
Inductive outcome (A : Type) : Type :=
| Returns (a : A) (st : state)
| Throws (e : exn)
| OutOfFuel
| Dangling.
Arguments Returns {A} a st.
Arguments Throws {A} e.
Arguments OutOfFuel {A}.
Arguments Dangling {A}.

Definition M (A : Type) : Type := state -> outcome A.

Definition ret {A} (a : A) : M A := fun st => Returns a st.
Definition bind {A B} (m : M A) (k : A -> M B) : M B := fun st =>
  match m st with
  | Returns a st' => k a st'
  | Throws e => Throws e
  | OutOfFuel => OutOfFuel
  | Dangling => Dangling
  end.

Notation "'let*' x ':=' m 'in' k" := (bind m (fun x => k))
  (at level 10, x pattern, m at level 200, k at level 200).
Notation "m ';;' k" := (bind m (fun _ => k))
  (at level 100, k at level 200, right associativity).

Definition throw {A} (e : exn) : M A := fun _ => Throws e.
Definition modify (f : state -> state) : M unit := fun st => Returns tt (f st).

(** [element] read through its address. *)
Definition deref (i : nat) : M pathElement := fun st =>
  match elements st !! i with
  | Some e => Returns e st
  | None => Dangling
  end.
Definition assign (i : nat) (e : pathElement) : M unit :=
  modify (fun st => set_elements (<[i := e]> (elements st)) st).

(** [Array.prototype.pop]: the last entry and the entries before it. *)
Definition pop {A} (l : list A) : option (A * list A) :=
  match reverse l with
  | [] => None
  | x :: r => Some (x, reverse r)
  end.

(** [Array.prototype.join("")]; [undefined] joins as the empty string. *)
Definition join (l : list (option string)) : string :=
  foldr (fun s acc => default "" s +:+ acc) "" l.

Section Builder.

(** The verbs exported by the npm package [methods]. None of them is a
    property name of a path element. *)
Variable methods : list string.

(** ** Construction *)

(** [createPathElement(currentElement, uri, middlewares = [])] *)
Definition createPathElement (currentElement : option nat) (uri : string)
    (middlewares : list fn) : pathElement :=
  {| visited := false;
     parentElement := currentElement;
     children := [];
     middlewares := middlewares;
     uri := uri;
     verbs := foldr (fun method v => <[method := []]> v) ∅ methods |}.

(** [new ApiBuilder(options)]: the root element at address 0. [routers] is
    the store of routers that exist already, the one of [options] among
    them. *)
Definition ApiBuilder (router : option nat) (routers : list (list layer)) : state :=
  {| this := Object true (Some 0) router;
     elements := [createPathElement None "" []];
     routers := routers;
     events := [] |}.

(** [if (uri instanceof Function) { middlewares = [uri, ...middlewares]; uri = '' }]
    in a verb method, whose [uri] has no default. *)
Definition verb_arguments (uri : jsarg fn) (middlewares : list fn)
    : option string * list fn :=
  match uri with
  | Fun f => (Some "", f :: middlewares)
  | Str s => (Some s, middlewares)
  | Absent => (None, middlewares)
  end.

(** The same in [path], whose [uri] defaults to ['']. *)
Definition path_arguments (uri : jsarg fn) (middlewares : list fn)
    : string * list fn :=
  match uri with
  | Fun f => ("", f :: middlewares)
  | Str s => (s, middlewares)
  | Absent => ("", middlewares)
  end.

(** [ApiBuilder.prototype[method] = function (uri, ...middlewares)] *)
Definition verb (method : string) (uri : jsarg fn) (middlewares : list fn) : M unit :=
  fun st =>
  if negb (instanceofApiBuilder (this st)) then
    Throws (Error "don't destructure the builder")
  else
    let '(uri, middlewares) := verb_arguments uri middlewares in
    match currentElement (this st) with
    | None => Throws (TypeError "cannot read properties of undefined")
    | Some c =>
        (let* e := deref c in
         match verbs e !! method with
         | None => throw (TypeError "cannot read properties of undefined")
         | Some arr => assign c (set_verb method (arr ++ [Op uri middlewares]) e)
         end) st
    end.

(** [ApiBuilder.prototype.end] *)
Definition end_ : M unit := fun st =>
  match currentElement (this st) with
  | None => Returns tt st
  | Some c =>
      (let* e := deref c in
       match parentElement e with
       | Some p => modify (fun st => set_this (set_currentElement (Some p) (this st)) st)
       | None => ret tt
       end) st
  end.

(** The call [this.end()] that closes [path]: a receiver that is no builder
    has no method [end]. *)
Definition this_end : M unit := fun st =>
  if instanceofApiBuilder (this st) then end_ st
  else Throws (TypeError "is not a function").

(** [ApiBuilder.prototype.path = function path(uri = '', ...middlewares)];
    [invoke] is the call [handler(this)]. *)
Definition path (invoke : fn -> M unit) (uri : jsarg fn) (middlewares : list fn)
    : M unit := fun st =>
  let '(uri, middlewares) := path_arguments uri middlewares in
  let '(handler, middlewares) :=
    match pop middlewares with
    | Some (h, rest) => (Some h, rest)
    | None => (None, middlewares)
    end in
  let pathElement := length (elements st) in
  (modify (fun st => set_elements
     (elements st ++ [createPathElement (currentElement (this st)) uri middlewares]) st);;
   match currentElement (this st) with
   | Some c =>
       let* e := deref c in assign c (set_children (children e ++ [pathElement]) e)
   | None => ret tt
   end;;
   modify (fun st => set_this (set_currentElement (Some pathElement) (this st)) st);;
   match handler with
   | Some h =>
       modify (emit (Invoked (fn_ident h) (Some pathElement)));;
       invoke h;;
       this_end
   | None => ret tt
   end) st.

(** The name [name] of a statement [g.name(...)] looked up on
    [ApiBuilder.prototype]: the verb it pushes to, [del] being [delete].
    [path] and [end] have statements of their own; a [CallVerb] is the call
    of a verb method, or of a name that the builder has no method for. *)
Definition prototype (name : string) : option string :=
  if decide (name = "del") then
    if decide ("delete" ∈ methods) then Some "delete" else None
  else if decide (name ∈ methods) then Some name else None.

(** One statement [g.m(...)] of a callback whose parameter [g] is [this]. *)
Definition call (invoke : fn -> M unit) (s : stmt) : M unit := fun st =>
  match s with
  | ThrowError => Throws (Error "thrown by the callback")
  | CallVerb name uri mws =>
      if instanceofApiBuilder (this st) then
        match prototype name with
        | Some method => verb method uri mws st
        | None => Throws (TypeError "is not a function")
        end
      else Throws (TypeError "is not a function")
  | CallPath uri mws =>
      if instanceofApiBuilder (this st) then path invoke uri mws st
      else Throws (TypeError "is not a function")
  | CallEnd =>
      if instanceofApiBuilder (this st) then end_ st
      else Throws (TypeError "is not a function")
  end.

Fixpoint block (exec : stmt -> M unit) (body : list stmt) : M unit :=
  match body with
  | [] => ret tt
  | s :: rest => exec s;; block exec rest
  end.

(** Statements run in order; [fuel] bounds how deep callbacks nest. *)
Fixpoint run (fuel : nat) (body : list stmt) : M unit :=
  match fuel with
  | 0 => fun _ => OutOfFuel
  | S n => block (call (fun h => run n (fn_body h))) body
  end.

Definition invoke (fuel : nat) (h : fn) : M unit := run fuel (fn_body h).

(** ** Flattening *)

(** The loop of [mountUri]: [path.unshift(current.uri)] up to the root. *)
Fixpoint mountUri_loop (fuel : nat) (heap : list pathElement) (current : option nat)
    (path : list string) : option (option (list string)) :=
  match current with
  | None => Some (Some path)
  | Some i =>
      match fuel with
      | 0 => None
      | S n =>
          match heap !! i with
          | None => Some None
          | Some e => mountUri_loop n heap (parentElement e) (uri e :: path)
          end
      end
  end.

(** [mountUri(element, op)] *)
Definition mountUri (fuel : nat) (element : nat) (o : op) : M string := fun st =>
  match mountUri_loop fuel (elements st) (Some element) [] with
  | None => OutOfFuel
  | Some None => Dangling
  | Some (Some path) => Returns (join ((Some <$> path) ++ [op_uri o])) st
  end.

(** [router[verb](path, ...stack)] *)
Definition register (router : nat) (l : layer) : M unit := fun st =>
  match routers st !! router with
  | None => Dangling
  | Some stack => Returns tt (set_routers (<[router := stack ++ [l]]> (routers st)) st)
  end.

(** [drain(verb, router, element)]: each turn pops one operation and hands
    it to the router. *)
Fixpoint drain (fuel : nat) (verb : string) (router element : nat) : M unit :=
  match fuel with
  | 0 => fun _ => OutOfFuel
  | S n =>
      let* e := deref element in
      match verbs e !! verb with
      | None => throw (TypeError "cannot read properties of undefined")
      | Some arr =>
          match pop arr with
          | None => ret tt
          | Some (o, rest) =>
              assign element (set_verb verb rest e);;
              let* uri := mountUri n element o in
              let* e := deref element in
              register router (Layer verb uri (middlewares e ++ op_middlewares o));;
              drain n verb router element
          end
      end
  end.

(** [for (const method of methods) drain(method, router, element)] *)
Fixpoint drain_methods (fuel : nat) (ms : list string) (router element : nat) : M unit :=
  match ms with
  | [] => ret tt
  | method :: rest => drain fuel method router element;; drain_methods fuel rest router element
  end.

(** The body of the [while (element)] loop of [build], from a non-null
    [element] to the next one. *)
Definition build_step (fuel : nat) (router element : nat) : M (option nat) :=
  let* e := deref element in
  match (if visited e then parentElement e else Some element) with
  | None => ret None
  | Some element =>
      drain_methods fuel methods router element;;
      let* e := deref element in
      match pop (children e) with
      | Some (child, rest) =>
          assign element (set_children rest e);;
          let* e := deref element in
          let* c := deref child in
          assign child (set_middlewares (middlewares e ++ middlewares c) c);;
          modify (emit (Descended element child));;
          ret (Some child)
      | None =>
          assign element (set_visited true e);;
          ret (Some element)
      end
  end.

Fixpoint build_loop (fuel : nat) (router : nat) (element : option nat) : M unit :=
  match element with
  | None => ret tt
  | Some i =>
      match fuel with
      | 0 => fun _ => OutOfFuel
      | S n => let* next := build_step n router i in build_loop n router next
      end
  end.

(** [ApiBuilder.prototype.build]: the router it returns is an address. *)
Definition build (fuel : nat) : M nat := fun st =>
  (let* router :=
     match router (this st) with
     | Some r => ret r
     | None => fun st => Returns (length (routers st)) (set_routers (routers st ++ [[]]) st)
     end in
   build_loop fuel router (currentElement (this st));;
   ret router) st.

End Builder.

(** * Specification *)

Section Specification.

Variable methods : list string.

(** ** What the construction phase keeps *)

(** [extends st st']: [st'] has every element of [st], with the fields that
    no method of the construction phase writes. *)
Record extends (st st' : state) : Prop := {
  ext_node : forall i e, elements st !! i = Some e ->
    exists e', elements st' !! i = Some e' /\ uri e' = uri e /\
      parentElement e' = parentElement e /\ middlewares e' = middlewares e /\
      visited e' = visited e;
  ext_routers : routers st' = routers st;
  ext_instance : instanceofApiBuilder (this st') = instanceofApiBuilder (this st);
  ext_router : router (this st') = router (this st);
  ext_events : exists evs, events st' = events st ++ evs
}.

(** The shape of the store that the construction phase keeps. *)
Record wf (st : state) : Prop := {
  wf_builder : instanceofApiBuilder (this st) = true;
  wf_cursor : exists c, currentElement (this st) = Some c /\ c < length (elements st);
  wf_router : forall r, router (this st) = Some r -> r < length (routers st);
  wf_parent : forall i e, elements st !! i = Some e ->
    match parentElement e with None => i = 0 | Some p => p < i end;
  wf_children : forall p ep c, elements st !! p = Some ep -> c ∈ children ep ->
    exists ec, elements st !! c = Some ec /\ parentElement ec = Some p;
  wf_linked : forall j ej p, elements st !! j = Some ej -> parentElement ej = Some p ->
    exists ep, elements st !! p = Some ep /\ j ∈ children ep;
  wf_nodup : forall p ep, elements st !! p = Some ep -> NoDup (children ep);
  wf_verbs : forall i e m, elements st !! i = Some e -> m ∈ methods ->
    is_Some (verbs e !! m);
  wf_visited : forall i e, elements st !! i = Some e -> visited e = false
}.

(** The state in which [path] looks at its handler: the new element is in
    the store, pushed on the children of the element that was current, and
    current itself. *)
Definition entered (u : string) (mws : list fn) (st : state) : state :=
  let n := length (elements st) in
  let h := elements st ++ [createPathElement methods (currentElement (this st)) u mws] in
  State (set_currentElement (Some n) (this st))
    match currentElement (this st) with
    | Some c =>
        match elements st !! c with
        | Some e => <[c := set_children (children e ++ [n]) e]> h
        | None => h
        end
    | None => h
    end
    (routers st) (events st).

(** The states a caller gets a builder into: [new ApiBuilder(options)]
    followed by calls of [path], [end] and the verb methods, each with the
    calls its callbacks make. The states a callback finds the builder in
    while it runs are not among them: they are among [live] below. *)
Definition reachable (st : state) : Prop :=
  exists r rs fuel script,
    (forall r', r = Some r' -> r' < length rs) /\
    run methods fuel script (ApiBuilder methods r rs) = Returns tt st.

(** What every state of a builder has, before and after [build]: the
    receiver is the builder, its cursor is on an element of the store,
    parents were created before their children, and every element has an
    array for every verb. *)
Record bound (st : state) : Prop := {
  bd_builder : instanceofApiBuilder (this st) = true;
  bd_cursor : exists c, currentElement (this st) = Some c /\ c < length (elements st);
  bd_parent : forall i e p, elements st !! i = Some e -> parentElement e = Some p -> p < i;
  bd_verbs : forall i e m, elements st !! i = Some e -> m ∈ methods ->
    is_Some (verbs e !! m)
}.

(** The states of a builder in which a method can be called:
    [new ApiBuilder(options)], the state any call of a method leaves,
    [build] among them, and the state in which [path] calls its trailing
    function. The statements of a callback run from that state on, so that
    the calls a callback makes, at any depth, are calls in such states. *)
Inductive live : state -> Prop :=
| live_new r rs : live (ApiBuilder methods r rs)
| live_call st fuel s st' :
    live st -> call methods (invoke methods fuel) s st = Returns tt st' -> live st'
| live_enter st a mws h rest :
    live st -> (path_arguments a mws).2 = rest ++ [h] ->
    live (emit (Invoked (fn_ident h) (Some (length (elements st))))
            (entered (path_arguments a mws).1 rest st))
| live_build st fuel r st' :
    live st -> build methods fuel st = Returns r st' -> live st'.

(** [resumes st st']: [st'] is what the statements that follow make of
    [st]: the rest of a callback, the [end] that [path] calls when the
    callback returns, the statements after that call of [path], and so on
    at any depth. *)
Inductive resumes : state -> state -> Prop :=
| resumes_here st : resumes st st
| resumes_run st fuel body st1 st' :
    run methods fuel body st = Returns tt st1 -> resumes st1 st' -> resumes st st'
| resumes_end st st1 st' :
    end_ st = Returns tt st1 -> resumes st1 st' -> resumes st st'.

(** ** Composed paths and stacks *)

(** [lineage h i l]: [l] lists the addresses from the root down to [i],
    each the [parentElement] of the next. *)
Inductive lineage (h : list pathElement) : nat -> list nat -> Prop :=
| lineage_root i e :
    h !! i = Some e -> parentElement e = None -> lineage h i [i]
| lineage_child i e p l :
    h !! i = Some e -> parentElement e = Some p -> lineage h p l ->
    lineage h i (l ++ [i]).

Definition uri_at (h : list pathElement) (i : nat) : string :=
  default "" (uri <$> h !! i).

Definition middlewares_at (h : list pathElement) (i : nat) : list fn :=
  default [] (middlewares <$> h !! i).

(** The path of a group: the fragments of its lineage, nothing between. *)
Definition group_path (h : list pathElement) (l : list nat) : list (option string) :=
  Some <$> (uri_at h <$> l).

(** The middlewares declared along a lineage, from the root down. *)
Definition full_stack (h0 : list pathElement) (l : list nat) : list fn :=
  concat (middlewares_at h0 <$> l).

(** Two stores with the same fragments and the same parents. *)
Definition same_links (h h' : list pathElement) : Prop :=
  forall i, (fun e => (uri e, parentElement e)) <$> h !! i =
            (fun e => (uri e, parentElement e)) <$> h' !! i.

(** [on_path h a i]: [i] is [a] or one of its ancestors. *)
Inductive on_path (h : list pathElement) : nat -> nat -> Prop :=
| on_path_here a : on_path h a a
| on_path_up a e p i :
    h !! a = Some e -> parentElement e = Some p -> on_path h p i -> on_path h a i.

(** ** What [build] hands to the router *)

(** The registration of operation [o] of verb [m], at a group whose path is
    [frags] and whose middlewares are [mws]. *)
Definition render (m : string) (frags : list (option string)) (mws : list fn)
    (o : op) : layer :=
  Layer m (join (frags ++ [op_uri o])) (mws ++ op_middlewares o).

Definition ops_of (e : pathElement) (m : string) : list op :=
  default [] (verbs e !! m).

(** What the loop over [methods] hands to the router for one element, and
    the element it leaves. *)
Fixpoint node_layers (frags : list (option string)) (e : pathElement)
    (ms : list string) : list layer :=
  match ms with
  | [] => []
  | m :: rest =>
      (render m frags (middlewares e) <$> reverse (ops_of e m)) ++
      node_layers frags (set_verb m [] e) rest
  end.

Definition drained (ms : list string) (e : pathElement) : pathElement :=
  foldl (fun e m => set_verb m [] e) e ms.

(** The state after the verbs of [j] went to router [r]. *)
Definition with_layers (r : nat) (stack : list layer) (st : state) : state :=
  set_routers (<[r := stack]> (routers st)) st.

(** The router [build] registers into, and the state in which its loop
    starts: a router of its own is new in the store, and empty. *)
Definition build_router (st : state) : nat :=
  match router (this st) with
  | Some r => r
  | None => length (routers st)
  end.

Definition build_start (st : state) : state :=
  match router (this st) with
  | Some _ => st
  | None => set_routers (routers st ++ [[]]) st
  end.

(** The children of [p] that [build] descended into, in that order. *)
Definition taken (p : nat) (evs : list event) : list nat :=
  omap (fun ev =>
          match ev with
          | Descended p' c => if decide (p' = p) then Some c else None
          | Invoked _ _ => None
          end) evs.

(** ** The loop of [build]: measure, fuel and invariant *)

Definition weight (w : nat) (e : pathElement) : nat :=
  w * length (children e) + (if visited e then 0 else 1).

Definition measure (w : nat) (h : list pathElement) : nat :=
  sum_list (weight w <$> h).

(** No array of operations in [h] is longer than [B]. *)
Definition ops_bound (h : list pathElement) (B : nat) : Prop :=
  forall i e m arr, h !! i = Some e -> verbs e !! m = Some arr -> length arr <= B.

(** [stable m m']: whatever [m] does without running out of fuel, [m'] does. *)
Definition stable {A} (m m' : M A) : Prop :=
  forall st o, m st = o -> o <> OutOfFuel -> m' st = o.

(** What [build] has done to the element at [i] since it started. *)
Record evolved (i : nat) (evs : list event) (e0 e : pathElement) : Prop := {
  ev_uri : uri e = uri e0;
  ev_parent : parentElement e = parentElement e0;
  ev_middlewares : exists inh, middlewares e = inh ++ middlewares e0;
  ev_children : children e0 = children e ++ reverse (taken i evs);
  ev_verbs : forall m, verbs e !! m = verbs e0 !! m \/ verbs e !! m = Some []
}.

(** A layer that comes from an operation declared in [h0], at the path of
    its group followed by its own fragment. *)
Definition sound_layer (h0 : list pathElement) (x : layer) : Prop :=
  exists i e0 l m arr o inh,
    h0 !! i = Some e0 /\ lineage h0 i l /\ m ∈ methods /\
    verbs e0 !! m = Some arr /\ o ∈ arr /\
    x = render m (group_path h0 l) (inh ++ middlewares e0) o.

(** The operations [arr] of verb [m] at element [i] stand in [new] side by
    side, the last one declared first. *)
Definition registered_block (h0 : list pathElement) (new : list layer)
    (i : nat) (e0 : pathElement) (m : string) (arr : list op) : Prop :=
  exists l inh pre post,
    lineage h0 i l /\
    new = pre ++ (render m (group_path h0 l) (inh ++ middlewares e0) <$> reverse arr) ++ post.

(** A layer whose stack is everything declared along the lineage of its
    element, followed by the middlewares of its operation. *)
Definition full_layer (h0 : list pathElement) (x : layer) : Prop :=
  exists i e0 l m arr o,
    h0 !! i = Some e0 /\ lineage h0 i l /\ m ∈ methods /\
    verbs e0 !! m = Some arr /\ o ∈ arr /\
    x = render m (group_path h0 l) (full_stack h0 l) o.

(** The invariant of the loop of [build], started in [st0] on router [r]
    whose stack was [stack0]: [new] is what the router got since, [evs] the
    events since, [el] the current element. [chained] stands for what is
    known of the element [build] starts at: that it, and each element above
    it, holds all that its lineage declares. *)
Record binv (st0 : state) (r : nat) (stack0 : list layer) (chained : Prop)
    (new : list layer) (evs : list event) (st : state) (el : nat) : Prop := {
  bi_this : this st = this st0;
  bi_routers : routers st = <[r := stack0 ++ new]> (routers st0);
  bi_events : events st = events st0 ++ evs;
  bi_el : el < length (elements st0);
  bi_len : length (elements st) = length (elements st0);
  bi_node : forall i e0, elements st0 !! i = Some e0 ->
    exists e, elements st !! i = Some e /\ evolved i evs e0 e;
  bi_sound : forall x, x ∈ new -> sound_layer (elements st0) x;
  bi_block : forall i e0 e m arr,
    elements st0 !! i = Some e0 -> elements st !! i = Some e -> m ∈ methods ->
    verbs e0 !! m = Some arr ->
    verbs e !! m = Some arr \/ registered_block (elements st0) new i e0 m arr;
  bi_visited : forall i e, elements st !! i = Some e -> visited e = true ->
    children e = [] /\ forall m, m ∈ methods -> verbs e !! m = Some [];
  bi_progress : forall i e p, elements st !! i = Some e -> parentElement e = Some p ->
    on_path (elements st0) el i \/ visited e = true \/
    exists ep, elements st !! p = Some ep /\ i ∈ children ep;
  bi_untouched : forall p ep c ec e0c,
    elements st !! p = Some ep -> c ∈ children ep ->
    elements st !! c = Some ec -> elements st0 !! c = Some e0c ->
    middlewares ec = middlewares e0c;
  bi_chain : chained -> forall i e l,
    on_path (elements st0) el i -> elements st !! i = Some e ->
    lineage (elements st0) i l -> middlewares e = full_stack (elements st0) l;
  bi_full : chained -> forall x, x ∈ new -> full_layer (elements st0) x
}.

(** ** What the construction phase adds *)

(** [grows st st']: every element of [st] is in [st'] with the children and
    the operations it had, in the order it had them, before any new one. *)
Definition grows (st st' : state) : Prop :=
  forall i e, elements st !! i = Some e ->
    exists e', elements st' !! i = Some e' /\
      children e `prefix_of` children e' /\
      forall m arr, verbs e !! m = Some arr ->
        exists arr', verbs e' !! m = Some arr' /\ arr `prefix_of` arr'.

(** How many elements stand above the cursor after a statement, when [d]
    stood above it before: [path] goes one down, [end] one up unless the
    cursor is on the root, and [path] with a handler calls [end] once after
    the handler, wherever the handler left the cursor. *)
Definition stmt_depth (inner : nat -> list stmt -> nat) (d : nat) (s : stmt) : nat :=
  match s with
  | CallVerb _ _ _ => d
  | CallPath a mws =>
      match pop (path_arguments a mws).2 with
      | Some (h, _) => pred (inner (S d) (fn_body h))
      | None => S d
      end
  | CallEnd => pred d
  | ThrowError => d
  end.

(** The same after a whole body, with the fuel of [run]. *)
Fixpoint depth_after (fuel d : nat) (body : list stmt) : nat :=
  match fuel with
  | 0 => d
  | S n => foldl (stmt_depth (depth_after n)) d body
  end.

(** A statement that names a method of the builder and throws nothing of
    its own, the handlers of its [path] calls included. *)
Definition stmt_quiet (inner : list stmt -> bool) (s : stmt) : bool :=
  match s with
  | CallVerb name _ _ => bool_decide (is_Some (prototype methods name))
  | CallPath a mws =>
      match pop (path_arguments a mws).2 with
      | Some (h, _) => inner (fn_body h)
      | None => true
      end
  | CallEnd => true
  | ThrowError => false
  end.

(** A body of such statements whose handlers nest less deep than [fuel]. *)
Fixpoint quiet (fuel : nat) (body : list stmt) : bool :=
  match fuel with
  | 0 => false
  | S n => forallb (stmt_quiet (quiet n)) body
  end.


(** ** Counting operations *)

(** The operations an element holds, over all verbs, and those of a store. *)
Definition operations (e : pathElement) : nat :=
  sum_list ((fun m => length (ops_of e m)) <$> methods).

Definition declared (h : list pathElement) : nat :=
  sum_list (operations <$> h).

(** The layers router [r] holds. *)
Definition registered (r : nat) (st : state) : nat :=
  length (default [] (routers st !! r)).

(** ** A builder after [build] *)

(** A statement other than a call of [path]. *)
Definition flat (s : stmt) : bool :=
  match s with
  | CallPath _ _ => false
  | _ => true
  end.

(** The store after [build], and after verb methods and [end] were called
    on it since: every element is visited and without children, and no
    element at an address below the cursor's holds an operation. *)
Record spent (st : state) : Prop := {
  sp_builder : instanceofApiBuilder (this st) = true;
  sp_cursor : exists c, currentElement (this st) = Some c /\ c < length (elements st) /\
    forall i x m, i < c -> elements st !! i = Some x -> m ∈ methods ->
      verbs x !! m = Some [];
  sp_router : forall r, router (this st) = Some r -> r < length (routers st);
  sp_done : forall i x, elements st !! i = Some x -> visited x = true /\ children x = [];
  sp_parent : forall i x p, elements st !! i = Some x -> parentElement x = Some p -> p < i;
  sp_keys : forall i x m, elements st !! i = Some x -> m ∈ methods -> is_Some (verbs x !! m)
}.

(** ** Statements that stay in their scope *)

(** The same as [stmt_depth], counted from the element that was current
    when the scope was entered, for statements that never take the cursor
    above that element: [None] once an [end] would. *)
Definition stmt_scope (inner : nat -> list stmt -> option nat) (d : nat) (s : stmt)
    : option nat :=
  match s with
  | CallVerb _ _ _ => Some d
  | CallPath a mws =>
      match pop (path_arguments a mws).2 with
      | Some (h, _) =>
          match inner (S d) (fn_body h) with
          | Some (S d') => Some d'
          | _ => None
          end
      | None => Some (S d)
      end
  | CallEnd =>
      match d with
      | 0 => None
      | S d' => Some d'
      end
  | ThrowError => Some d
  end.

Fixpoint scope_after (fuel d : nat) (body : list stmt) : option nat :=
  match fuel with
  | 0 => None
  | S n =>
      foldl (fun acc s =>
               match acc with
               | Some d => stmt_scope (scope_after n) d s
               | None => None
               end) (Some d) body
  end.

(** ** The stacks [build] hands over, wherever it starts *)

(** How many leading addresses two lineages share. *)
Fixpoint shared (l k : list nat) : nat :=
  match l, k with
  | x :: l', y :: k' => if decide (x = y) then S (shared l' k') else 0
  | _, _ => 0
  end.

(** What an element of lineage [l] has inherited when [build] started at
    the element of lineage [lc]: the lists declared along [l] from the last
    element that is on [lc] too, that element included, down to the element
    itself. Nothing comes from above the element [build] started at, nor
    from above any element that [build] reaches on its way up. *)
Definition inherited (h0 : list pathElement) (lc l : list nat) : list fn :=
  concat (middlewares_at h0 <$> drop (pred (shared lc l)) l).

(** A layer with that stack, followed by the middlewares of its operation. *)
Definition exact_layer (h0 : list pathElement) (lc : list nat) (x : layer) : Prop :=
  exists i e0 l m arr o,
    h0 !! i = Some e0 /\ lineage h0 i l /\ m ∈ methods /\
    verbs e0 !! m = Some arr /\ o ∈ arr /\
    x = render m (group_path h0 l) (inherited h0 lc l) o.

(** What the loop of [build] keeps beside [binv], started at [c0] whose
    lineage is [lc]: the elements from the current one up that are not
    visited hold what they have inherited; an element of [lc] is visited or
    still above the current one; and each operation is with its element, or
    with the router in a layer of that stack. *)
Record jinv (st0 : state) (c0 : nat) (lc : list nat)
    (new : list layer) (st : state) (el : nat) : Prop := {
  ji_chain : forall i e l,
    on_path (elements st0) el i -> elements st !! i = Some e -> visited e = false ->
    lineage (elements st0) i l -> middlewares e = inherited (elements st0) lc l;
  ji_start : forall i e,
    on_path (elements st0) c0 i -> elements st !! i = Some e ->
    visited e = true \/ on_path (elements st0) el i;
  ji_sound : forall x, x ∈ new -> exact_layer (elements st0) lc x;
  ji_full : forall i e0 e l m arr o,
    elements st0 !! i = Some e0 -> elements st !! i = Some e ->
    lineage (elements st0) i l -> m ∈ methods -> verbs e0 !! m = Some arr -> o ∈ arr ->
    verbs e !! m = Some arr \/
    render m (group_path (elements st0) l) (inherited (elements st0) lc l) o ∈ new
}.

(** What the loop of [build] keeps of the lists the elements hold: the
    root holds the list it was created with, and an element that the loop
    has taken off the children of its parent holds what its parent had
    inherited by then, followed by the list it was created with. *)
Record hinv (st0 : state) (lc : list nat) (st : state) : Prop := {
  hi_root : forall i e0 e,
    elements st0 !! i = Some e0 -> elements st !! i = Some e ->
    parentElement e0 = None -> middlewares e = middlewares e0;
  hi_taken : forall i e0 e p ep lp,
    elements st0 !! i = Some e0 -> elements st !! i = Some e ->
    parentElement e0 = Some p -> elements st !! p = Some ep -> i ∉ children ep ->
    lineage (elements st0) p lp ->
    middlewares e = inherited (elements st0) lc lp ++ middlewares e0
}.

(** ** The layers [build] hands over, in order *)

(** The layers of the subtree of the element at [i], a child that [build]
    has not taken yet: [frags] is the path of its parent and [inh] what
    its parent holds. Its own layers come first, verb by verb, then the
    subtrees of its children from the last one declared to the first. *)
Fixpoint subtree (fuel : nat) (h : list pathElement) (frags : list (option string))
    (inh : list fn) (i : nat) : list layer :=
  match fuel with
  | 0 => []
  | S n =>
      match h !! i with
      | None => []
      | Some e =>
          node_layers (frags ++ [Some (uri e)])
            (set_middlewares (inh ++ middlewares e) e) methods ++
          concat (subtree n h (frags ++ [Some (uri e)]) (inh ++ middlewares e)
                    <$> reverse (children e))
      end
  end.

(** The layers of the element at [i], of lineage [l], as it stands, and of
    the subtrees of its children, [skip] left out. *)
Definition own_layers (h : list pathElement) (l : list nat) (i : nat)
    (skip : option nat) : list layer :=
  match h !! i with
  | None => []
  | Some e =>
      node_layers (group_path h l) e methods ++
      concat (subtree (length h) h (group_path h l) (middlewares e)
                <$> reverse (filter (fun c => Some c <> skip) (children e)))
  end.

(** The same for the elements of a lineage given from its last element up
    to the root: each element after the first leaves out the subtree of
    the element [build] came from. *)
Fixpoint upward (h : list pathElement) (rl : list nat) (skip : option nat)
    : list layer :=
  match rl with
  | [] => []
  | i :: above => own_layers h (reverse rl) i skip ++ upward h above (Some i)
  end.

(** What [build] hands to the router when it starts at the element of
    lineage [lc]. *)
Definition flattened (h : list pathElement) (lc : list nat) : list layer :=
  upward h (reverse lc) None.

(** What the loop of [build] keeps beside [binv]: the layers the router
    got, followed by those of the current element, of the subtrees of the
    children it still has, and of the elements above it, are what
    [flattened] tells of the store [build] started in. *)
Definition kinv (st0 : state) (lc : list nat)
    (new : list layer) (st : state) (el : nat) : Prop :=
  forall l, lineage (elements st0) el l ->
    new ++ upward (elements st) (reverse l) None = flattened (elements st0) lc.

End Specification.

(** ** Programs of the test suite *)

(** A value of [methods]: [http.METHODS] of Node 18, in lower case. *)
Definition http_methods : list string :=
  ["acl"; "bind"; "checkout"; "connect"; "copy"; "delete"; "get"; "head"; "link";
   "lock"; "m-search"; "merge"; "mkactivity"; "mkcalendar"; "mkcol"; "move";
   "notify"; "options"; "patch"; "post"; "propfind"; "proppatch"; "purge"; "put";
   "rebind"; "report"; "search"; "source"; "subscribe"; "trace"; "unbind";
   "unlink"; "unlock"; "unsubscribe"].

(** The fixtures of the suite: functions with an empty body. *)
Definition foo : fn := Function 1 Middleware [].
Definition list_ : fn := Function 2 Middleware [].
Definition find : fn := Function 3 Middleware [].
Definition create : fn := Function 4 Middleware [].
Definition update : fn := Function 5 Middleware [].
Definition del : fn := Function 6 Middleware [].
Definition ifAuthenticated : fn := Function 7 Middleware [].
Definition ifAllowed : fn := Function 8 Middleware [].

(** What a program leaves of a new builder without a router, and what
    [build] then makes of it. *)
Definition built_by (script : list stmt) : option (state * nat * state) :=
  match run http_methods 8 script (ApiBuilder http_methods None []) with
  | Returns _ st =>
      match build http_methods 200 st with
      | Returns r st' => Some (st, r, st')
      | _ => None
      end
  | _ => None
  end.

Definition stack_of (script : list stmt) : option (list layer) :=
  match built_by script with
  | Some (_, r, st') => routers st' !! r
  | None => None
  end.

(** [path('/users', g => { g.get(list); g.post(create);
      g.path('/:id', g => { g.get(find); g.put(update); g.delete(del) }) })] *)
Definition users_script : list stmt :=
  [CallPath (Str "/users")
     [Function 20 Callback
        [CallVerb "get" (Fun list_) [];
         CallVerb "post" (Fun create) [];
         CallPath (Str "/:id")
           [Function 21 Callback
              [CallVerb "get" (Fun find) [];
               CallVerb "put" (Fun update) [];
               CallVerb "delete" (Fun del) [] ] ] ] ] ].

(** [path(b => { b.get('/hello', foo);
      b.path('/:userId', ifAuthenticated, b => { b.get('/one', list);
        b.path('/two', ifAllowed, b => { b.get('/three', find);
          b.path('/four', b => { b.path('/five', create, b => {
            b.get('/six', update, del) }) }) }) }) })] *)
Definition deep_script : list stmt :=
  [CallPath (Fun (Function 20 Callback
     [CallVerb "get" (Str "/hello") [foo];
      CallPath (Str "/:userId")
        [ifAuthenticated;
         Function 21 Callback
           [CallVerb "get" (Str "/one") [list_];
            CallPath (Str "/two")
              [ifAllowed;
               Function 22 Callback
                 [CallVerb "get" (Str "/three") [find];
                  CallPath (Str "/four")
                    [Function 23 Callback
                       [CallPath (Str "/five")
                          [create;
                           Function 24 Callback
                             [CallVerb "get" (Str "/six") [update; del] ] ] ] ] ] ] ] ] ])) [] ].

(** [path('/users').get(list).post(create).path('/:id').get(find).put(update).del(del)] *)
Definition chain_script : list stmt :=
  [CallPath (Str "/users") [];
   CallVerb "get" (Fun list_) [];
   CallVerb "post" (Fun create) [];
   CallPath (Str "/:id") [];
   CallVerb "get" (Fun find) [];
   CallVerb "put" (Fun update) [];
   CallVerb "del" (Fun del) [] ].

(** [path('/a', ifAuthenticated, g => g.path('/b').path('/c')).get(list)]:
    the callback leaves the cursor two levels down, so that [end] brings it
    back to ['/b'] only. *)
Definition drift_script : list stmt :=
  [CallPath (Str "/a")
     [ifAuthenticated;
      Function 20 Callback [CallPath (Str "/b") []; CallPath (Str "/c") [] ] ];
   CallVerb "get" (Fun list_) [] ].

(** [path('/a', ifAuthenticated, g => g.path('/b', ifAllowed, g => {}))] *)
Definition nested_script : list stmt :=
  [CallPath (Str "/a")
     [ifAuthenticated;
      Function 20 Callback
        [CallPath (Str "/b") [ifAllowed; Function 21 Callback [] ] ] ] ].

(** [get('/x', foo); get('/x', list)] *)
Definition twice_script : list stmt :=
  [CallVerb "get" (Str "/x") [foo]; CallVerb "get" (Str "/x") [list_] ].

(** [g => g.path('/b')] *)
Definition drift_callback : fn := Function 20 Callback [CallPath (Str "/b") []].

Definition deep_state : state :=
  Eval vm_compute in
    match built_by deep_script with Some (st, _, _) => st | None => State (Object false None None) [] [] [] end.
Definition deep_built : state :=
  Eval vm_compute in
    match built_by deep_script with Some (_, _, st) => st | None => State (Object false None None) [] [] [] end.
Definition users_state : state :=
  Eval vm_compute in
    match built_by users_script with Some (st, _, _) => st | None => State (Object false None None) [] [] [] end.
Definition users_built : state :=
  Eval vm_compute in
    match built_by users_script with Some (_, _, st) => st | None => State (Object false None None) [] [] [] end.

(** What [drift_script] and [chain_script] leave of a new builder, before
    and after [build]. *)
Definition drift_state : state :=
  Eval vm_compute in
    match built_by drift_script with Some (st, _, _) => st | None => State (Object false None None) [] [] [] end.
Definition drift_built : state :=
  Eval vm_compute in
    match built_by drift_script with Some (_, _, st) => st | None => State (Object false None None) [] [] [] end.
Definition chain_state : state :=
  Eval vm_compute in
    match built_by chain_script with Some (st, _, _) => st | None => State (Object false None None) [] [] [] end.
Definition chain_built : state :=
  Eval vm_compute in
    match built_by chain_script with Some (_, _, st) => st | None => State (Object false None None) [] [] [] end.

(** [end().get('/late', foo)], called after [build]. *)
Definition late_script : list stmt :=
  [CallEnd; CallVerb "get" (Str "/late") [foo] ].

(** [path('/a', g => { g.path('/b').get(foo).end() })] *)
Definition scoped_script : list stmt :=
  [CallPath (Str "/a")
     [Function 30 Callback
        [CallPath (Str "/b") []; CallVerb "get" (Fun foo) []; CallEnd ] ] ].


(** The builder of [users_script] after [scoped_script], the builder of
    [chain_script] after it, and the builder of [chain_script] after
    [build] and [late_script]. *)
Definition users_scoped : state :=
  Eval vm_compute in
    match run http_methods 2 scoped_script users_state with
    | Returns _ st => st
    | _ => State (Object false None None) [] [] []
    end.
Definition chain_scoped : state :=
  Eval vm_compute in
    match run http_methods 2 scoped_script chain_state with
    | Returns _ st => st
    | _ => State (Object false None None) [] [] []
    end.
Definition chain_late : state :=
  Eval vm_compute in
    match run http_methods 1 late_script chain_built with
    | Returns _ st => st
    | _ => State (Object false None None) [] [] []
    end.

(** [g => { g.get(foo); g.get('/x', list) }] and [g => { g.post(create) }] *)
Definition pair_callback : fn :=
  Function 20 Callback [CallVerb "get" (Fun foo) []; CallVerb "get" (Str "/x") [list_] ].
Definition post_callback : fn := Function 21 Callback [CallVerb "post" (Fun create) []].

(** [path('/a', g => { g.get(foo); g.get('/x', list) });
     path('/b', g => { g.post(create) })]: two groups side by side, the
    first with two operations of one verb. *)
Definition siblings_script : list stmt :=
  [CallPath (Str "/a") [pair_callback]; CallPath (Str "/b") [post_callback] ].

Definition siblings_state : state :=
  Eval vm_compute in
    match built_by siblings_script with Some (st, _, _) => st | None => State (Object false None None) [] [] [] end.
Definition siblings_built : state :=
  Eval vm_compute in
    match built_by siblings_script with Some (_, _, st) => st | None => State (Object false None None) [] [] [] end.

(** The builder of [siblings_script] when [path] calls [pair_callback],
    when the callback returns, and after the [end] that [path] then calls. *)
Definition pair_inside : state :=
  Eval vm_compute in
    emit (Invoked 20 (Some 1)) (entered http_methods "/a" [] (ApiBuilder http_methods None [])).
Definition pair_declared : state :=
  Eval vm_compute in
    match run http_methods 1 (fn_body pair_callback) pair_inside with
    | Returns _ st => st
    | _ => State (Object false None None) [] [] []
    end.
Definition pair_closed : state :=
  Eval vm_compute in
    match end_ pair_declared with
    | Returns _ st => st
    | _ => State (Object false None None) [] [] []
    end.

(** [g => { g.get(find) }] and
    [path('/users', ifAuthenticated, g => { g.get(list); g.path('/:id', g => { g.get(find) }) })]:
    the builder when [path] calls the callback of ['/users'], a group that
    declares a middleware, and the builder as the callback of ['/:id']
    leaves it when it is called from there. *)
Definition id_callback : fn := Function 21 Callback [CallVerb "get" (Fun find) []].
Definition guarded_callback : fn :=
  Function 20 Callback [CallVerb "get" (Fun list_) []; CallPath (Str "/:id") [id_callback] ].
Definition guarded_inside : state :=
  Eval vm_compute in
    emit (Invoked 20 (Some 1))
      (entered http_methods "/users" [ifAuthenticated] (ApiBuilder http_methods None [])).
Definition id_returned : state :=
  Eval vm_compute in
    match invoke http_methods 1 id_callback
            (emit (Invoked 21 (Some 2)) (entered http_methods "/:id" [] guarded_inside)) with
    | Returns _ st => st
    | _ => State (Object false None None) [] [] []
    end.

Definition nested_state : state :=
  Eval vm_compute in
    match built_by nested_script with Some (st, _, _) => st | None => State (Object false None None) [] [] [] end.
Definition nested_built : state :=
  Eval vm_compute in
    match built_by nested_script with Some (_, _, st) => st | None => State (Object false None None) [] [] [] end.

(** * Properties *)

(** ** Arrays *)

Lemma pop_nil {A} : pop (@nil A) = None.
Proof. reflexivity. Qed.

Lemma pop_snoc {A} (l : list A) (x : A) : pop (l ++ [x]) = Some (x, l).
Proof. unfold pop. rewrite reverse_snoc. by rewrite reverse_involutive. Qed.

Lemma append_assoc (s1 s2 s3 : string) : (s1 +:+ s2) +:+ s3 = s1 +:+ (s2 +:+ s3).
Proof.
  induction s1 as [|a s1 IH]; [done|].
  change (String a ((s1 +:+ s2) +:+ s3) = String a (s1 +:+ (s2 +:+ s3))).
  by rewrite IH.
Qed.

Lemma append_nil_r (s : string) : s +:+ "" = s.
Proof.
  induction s as [|a s IH]; [done|].
  change (String a (s +:+ "") = String a s). by rewrite IH.
Qed.

Lemma join_app (l k : list (option string)) : join (l ++ k) = join l +:+ join k.
Proof.
  induction l as [|s l IH]; [done|].
  change (default "" s +:+ join (l ++ k) = (default "" s +:+ join l) +:+ join k).
  by rewrite IH, append_assoc.
Qed.

(** ** The monad *)

Lemma bind_inv {A B} (m : M A) (k : A -> M B) st b st2 :
  bind m k st = Returns b st2 ->
  exists a st1, m st = Returns a st1 /\ k a st1 = Returns b st2.
Proof. unfold bind. destruct (m st) as [a st1| | |]; naive_solver. Qed.

Lemma deref_Returns i st e : elements st !! i = Some e -> deref i st = Returns e st.
Proof. unfold deref. by intros ->. Qed.

(** ** What construction leaves alone *)

Lemma extends_refl st : extends st st.
Proof. split; try done; [naive_solver | exists []; by rewrite app_nil_r]. Qed.

Lemma extends_trans st1 st2 st3 : extends st1 st2 -> extends st2 st3 -> extends st1 st3.
Proof.
  intros [N1 R1 I1 O1 [ev1 E1]] [N2 R2 I2 O2 [ev2 E2]]. split.
  - intros i e He. destruct (N1 i e He) as (e' & He' & ? & ? & ? & ?).
    destruct (N2 i e' He') as (e'' & He'' & ? & ? & ? & ?).
    exists e''. repeat split; congruence.
  - congruence.
  - congruence.
  - congruence.
  - exists (ev1 ++ ev2). rewrite E2, E1. by rewrite app_assoc.
Qed.

Lemma extends_assign c e e' st :
  elements st !! c = Some e -> uri e' = uri e -> parentElement e' = parentElement e ->
  middlewares e' = middlewares e -> visited e' = visited e ->
  extends st (set_elements (<[c := e']> (elements st)) st).
Proof.
  intros Hc ????. split; simpl; try done; [|exists []; by rewrite app_nil_r].
  intros i x Hi. destruct (decide (i = c)) as [->|Hne].
  - exists e'. rewrite list_lookup_insert_eq by (by eapply lookup_lt_Some).
    naive_solver.
  - exists x. by rewrite list_lookup_insert_ne.
Qed.

Section Properties.

Variable methods : list string.

Lemma createPathElement_verbs parent u mws m :
  m ∈ methods -> verbs (createPathElement methods parent u mws) !! m = Some [].
Proof.
  simpl. induction methods as [|m' ms IH]; [by intros ?%elem_of_nil|].
  intros [->|Hin]%elem_of_cons; simpl.
  - by rewrite lookup_insert_eq.
  - destruct (decide (m' = m)) as [->|Hne];
      [by rewrite lookup_insert_eq | rewrite lookup_insert_ne by done; auto].
Qed.

Lemma wf_ApiBuilder r rs :
  (forall r', r = Some r' -> r' < length rs) -> wf methods (ApiBuilder methods r rs).
Proof.
  intros Hr. split; simpl.
  - done.
  - exists 0. split; [done|lia].
  - done.
  - intros [|i] e; [by intros [= <-]|done].
  - intros [|p] ep c; [intros [= <-]; simpl; by intros ?%elem_of_nil|done].
  - intros [|j] ej p; [by intros [= <-]|done].
  - intros [|p] ep; [intros [= <-]; constructor|done].
  - intros [|i] e m; [intros [= <-] Hm|done].
    rewrite (createPathElement_verbs None "" [] m Hm). by eexists.
  - intros [|i] e; [by intros [= <-]|done].
Qed.

(** *** Verb methods and [end] *)

Lemma wf_assign c e e' st :
  wf methods st -> elements st !! c = Some e ->
  parentElement e' = parentElement e -> children e' = children e ->
  visited e' = false ->
  (forall m, is_Some (verbs e !! m) -> is_Some (verbs e' !! m)) ->
  wf methods (set_elements (<[c := e']> (elements st)) st).
Proof.
  intros W Hc Hp Hch Hv Hk.
  assert (Hlt : c < length (elements st)) by (by eapply lookup_lt_Some).
  assert (L : forall i x, <[c := e']> (elements st) !! i = Some x ->
            exists x0, elements st !! i = Some x0 /\ parentElement x = parentElement x0 /\
              children x = children x0 /\ visited x = false /\
              (forall m, is_Some (verbs x0 !! m) -> is_Some (verbs x !! m))).
  { intros i x [(<- & <- & _)|(Hne & Hi)]%list_lookup_insert_Some.
    - exists e. naive_solver.
    - exists x. split_and!; try done. by eapply wf_visited. }
  assert (R : forall i x0, elements st !! i = Some x0 ->
            exists x, <[c := e']> (elements st) !! i = Some x /\
              parentElement x = parentElement x0 /\ children x = children x0).
  { intros i x0 Hi. destruct (decide (i = c)) as [->|Hne].
    - exists e'. rewrite list_lookup_insert_eq by done. naive_solver.
    - exists x0. by rewrite list_lookup_insert_ne. }
  split; simpl.
  - by apply W.
  - destruct (wf_cursor _ _ W) as (k & ? & ?). exists k. by rewrite length_insert.
  - by apply W.
  - intros i x Hi. destruct (L i x Hi) as (x0 & Hi0 & -> & _).
    by apply (wf_parent _ _ W i x0).
  - intros p ep k Hp' Hin. destruct (L p ep Hp') as (x0 & Hp0 & _ & Hc0 & _).
    rewrite Hc0 in Hin. destruct (wf_children _ _ W p x0 k Hp0 Hin) as (ec & Hk0 & Hpar).
    destruct (R k ec Hk0) as (x & ? & ? & ?). exists x. split; [done|congruence].
  - intros j ej p Hj Hpar. destruct (L j ej Hj) as (x0 & Hj0 & Hp0 & _).
    rewrite Hp0 in Hpar. destruct (wf_linked _ _ W j x0 p Hj0 Hpar) as (ep & Hep & Hin).
    destruct (R p ep Hep) as (x & ? & ? & Hcx). exists x. split; [done|by rewrite Hcx].
  - intros p ep Hp'. destruct (L p ep Hp') as (x0 & Hp0 & _ & -> & _).
    by apply (wf_nodup _ _ W p x0).
  - intros i x m Hi Hm. destruct (L i x Hi) as (x0 & Hi0 & _ & _ & _ & Hkeys).
    apply Hkeys. by apply (wf_verbs _ _ W i x0 m).
  - intros i x Hi. by destruct (L i x Hi) as (x0 & _ & _ & _ & ? & _).
Qed.

(** A verb method on a well-formed builder pushes one operation on the
    array of its verb at the current element. *)
Lemma verb_spec st m a mws :
  wf methods st -> m ∈ methods ->
  exists c e arr,
    currentElement (this st) = Some c /\ elements st !! c = Some e /\
    verbs e !! m = Some arr /\
    verb m a mws st = Returns tt (set_elements
      (<[c := set_verb m (arr ++ [Op (verb_arguments a mws).1 (verb_arguments a mws).2]) e]>
         (elements st)) st).
Proof.
  intros W Hm. destruct (wf_cursor _ _ W) as (c & Hc & Hlt).
  destruct (lookup_lt_is_Some_2 _ _ Hlt) as [e He].
  destruct (wf_verbs _ _ W c e m He Hm) as [arr Harr].
  exists c, e, arr. split_and!; try done.
  unfold verb. rewrite (wf_builder _ _ W). simpl.
  destruct (verb_arguments a mws) as [u ms]. rewrite Hc.
  unfold bind. rewrite (deref_Returns _ _ _ He). by rewrite Harr.
Qed.

Lemma verb_ok st st' m a mws :
  wf methods st -> m ∈ methods -> verb m a mws st = Returns tt st' -> wf methods st' /\ extends st st'.
Proof.
  intros W Hm Hrun. destruct (verb_spec st m a mws W Hm) as (c & e & arr & Hc & He & Harr & Heq).
  rewrite Heq in Hrun. injection Hrun as <-. split.
  - apply (wf_assign c e _ st W He); [done|done|by apply (wf_visited _ _ W c e)|].
    intros m' Hs. simpl.
    destruct (decide (m = m')) as [->|Hne];
      [rewrite lookup_insert_eq; by eexists | by rewrite lookup_insert_ne].
  - by eapply extends_assign.
Qed.

Lemma end_spec st :
  wf methods st ->
  exists c e, currentElement (this st) = Some c /\ elements st !! c = Some e /\
    end_ st = Returns tt
      match parentElement e with
      | Some p => set_this (set_currentElement (Some p) (this st)) st
      | None => st
      end.
Proof.
  intros W. destruct (wf_cursor _ _ W) as (c & Hc & Hlt).
  destruct (lookup_lt_is_Some_2 _ _ Hlt) as [e He].
  exists c, e. split_and!; try done.
  unfold end_. rewrite Hc. unfold bind. rewrite (deref_Returns _ _ _ He).
  by destruct (parentElement e).
Qed.

Lemma end_ok st st' : wf methods st -> end_ st = Returns tt st' -> wf methods st' /\ extends st st'.
Proof.
  intros W Hrun. destruct (end_spec st W) as (c & e & Hc & He & Heq).
  rewrite Heq in Hrun. injection Hrun as <-.
  pose proof (wf_parent _ _ W c e He) as Hp.
  destruct (parentElement e) as [p|]; [|split; [done|apply extends_refl]].
  split.
  - destruct W. split; simpl; try done.
    exists p. split; [done|]. apply lookup_lt_Some in He. lia.
  - split; simpl; try done; [naive_solver|exists []; by rewrite app_nil_r].
Qed.

(** *** [path] *)

(** On a builder [this.end()] is [end]. *)
Lemma this_end_builder st : instanceofApiBuilder (this st) = true -> this_end st = end_ st.
Proof. intros H. unfold this_end. by rewrite H. Qed.

(** [path] in closed form, for a receiver whose current element, if it has
    one, is in the store. *)
Lemma path_unfold inv a mws st :
  (forall c, currentElement (this st) = Some c -> c < length (elements st)) ->
  path methods inv a mws st =
    match pop (path_arguments a mws).2 with
    | Some (h, rest) =>
        (inv h;; this_end)
          (emit (Invoked (fn_ident h) (Some (length (elements st))))
             (entered methods (path_arguments a mws).1 rest st))
    | None => Returns tt (entered methods (path_arguments a mws).1 (path_arguments a mws).2 st)
    end.
Proof.
  intros Hc. unfold path. destruct (path_arguments a mws) as [u args]. simpl.
  destruct (pop args) as [[h rest]|]; unfold bind, modify, entered; simpl;
    (destruct (currentElement (this st)) as [c|] eqn:Hcur; simpl; [|done]);
    specialize (Hc c eq_refl); destruct (lookup_lt_is_Some_2 _ _ Hc) as [e He];
    unfold deref; simpl; rewrite lookup_app_l by done; rewrite He; simpl;
    by rewrite ?Hcur.
Qed.

Lemma wf_entered u mws st : wf methods st -> wf methods (entered methods u mws st) /\ extends st (entered methods u mws st).
Proof.
  intros W. destruct (wf_cursor _ _ W) as (c & Hc & Hlt).
  destruct (lookup_lt_is_Some_2 _ _ Hlt) as [e He].
  unfold entered. rewrite Hc, He.
  set (n := length (elements st)).
  set (new := createPathElement methods (Some c) u mws).
  set (e' := set_children (children e ++ [n]) e).
  assert (L : forall i x, <[c := e']> (elements st ++ [new]) !! i = Some x ->
            (i = c /\ x = e') \/ (i = n /\ x = new) \/
            (i <> c /\ i <> n /\ elements st !! i = Some x)).
  { intros i x [(<- & <- & _)|(Hne & Hi)]%list_lookup_insert_Some; [by left|right].
    apply lookup_app_Some in Hi as [Hi|(Hge & Hi)].
    - right. split_and!; try done. apply lookup_lt_Some in Hi. unfold n. lia.
    - left. apply list_lookup_singleton_Some in Hi as [Hi <-]. unfold n. split; [lia|done]. }
  assert (R : forall i x0, elements st !! i = Some x0 ->
            exists x, <[c := e']> (elements st ++ [new]) !! i = Some x /\
              uri x = uri x0 /\ parentElement x = parentElement x0 /\
              middlewares x = middlewares x0 /\ visited x = visited x0 /\
              (forall k, k ∈ children x0 -> k ∈ children x)).
  { intros i x0 Hi. destruct (decide (i = c)) as [->|Hne].
    - exists e'. rewrite list_lookup_insert_eq by (rewrite length_app; simpl; lia).
      assert (x0 = e) as -> by congruence. split_and!; try done.
      intros k Hk. simpl. apply elem_of_app. by left.
    - exists x0. rewrite list_lookup_insert_ne by done.
      rewrite lookup_app_l by (by eapply lookup_lt_Some). done. }
  assert (Hn : <[c := e']> (elements st ++ [new]) !! n = Some new).
  { rewrite list_lookup_insert_ne by (unfold n; lia).
    rewrite lookup_app_r by (unfold n; lia). unfold n. by rewrite Nat.sub_diag. }
  split; [split; simpl|].
  - by apply W.
  - exists n. split; [done|]. rewrite length_insert, length_app. simpl. unfold n. lia.
  - by apply W.
  - intros i x Hi. destruct (L i x Hi) as [(-> & ->)|[(-> & ->)|(_ & _ & Hi0)]]; simpl.
    + by apply (wf_parent _ _ W c e).
    + done.
    + by apply (wf_parent _ _ W i x).
  - intros p ep k Hp Hin.
    assert (Hold : forall x0, elements st !! p = Some x0 -> k ∈ children x0 ->
              exists ec, <[c := e']> (elements st ++ [new]) !! k = Some ec /\
                parentElement ec = Some p).
    { intros x0 Hp0 Hk0. destruct (wf_children _ _ W p x0 k Hp0 Hk0) as (ec & Hec & Hpar).
      destruct (R k ec Hec) as (x & ? & _ & ? & _). exists x. split; [done|congruence]. }
    destruct (L p ep Hp) as [(-> & ->)|[(-> & ->)|(_ & _ & Hp0)]]; simpl in Hin.
    + apply elem_of_app in Hin as [Hin|Hin]; [by apply (Hold e)|].
      apply list_elem_of_singleton in Hin as ->. by exists new.
    + by apply elem_of_nil in Hin.
    + by apply (Hold ep).
  - intros j ej p Hj Hpar.
    destruct (L j ej Hj) as [(-> & ->)|[(-> & ->)|(_ & _ & Hj0)]]; simpl in Hpar.
    + destruct (wf_linked _ _ W c e p He Hpar) as (ep & Hep & Hin).
      destruct (R p ep Hep) as (x & ? & _ & _ & _ & _ & Hsub). exists x. auto.
    + injection Hpar as <-. exists e'.
      rewrite list_lookup_insert_eq by (rewrite length_app; simpl; lia).
      split; [done|]. simpl. apply elem_of_app. right. by apply list_elem_of_singleton.
    + destruct (wf_linked _ _ W j ej p Hj0 Hpar) as (ep & Hep & Hin).
      destruct (R p ep Hep) as (x & ? & _ & _ & _ & _ & Hsub). exists x. auto.
  - intros p ep Hp.
    destruct (L p ep Hp) as [(-> & ->)|[(-> & ->)|(_ & _ & Hp0)]]; simpl.
    + apply NoDup_app. split_and!.
      * by apply (wf_nodup _ _ W c e).
      * intros k Hk ->%list_elem_of_singleton.
        destruct (wf_children _ _ W c e n He Hk) as (ec & Hec%lookup_lt_Some & _).
        unfold n in Hec. lia.
      * apply NoDup_singleton.
    + constructor.
    + by apply (wf_nodup _ _ W p ep).
  - intros i x m Hi Hm.
    destruct (L i x Hi) as [(-> & ->)|[(-> & ->)|(_ & _ & Hi0)]].
    + by apply (wf_verbs _ _ W c e).
    + unfold new. rewrite (createPathElement_verbs (Some c) u mws m Hm). by eexists.
    + by apply (wf_verbs _ _ W i x).
  - intros i x Hi.
    destruct (L i x Hi) as [(-> & ->)|[(-> & ->)|(_ & _ & Hi0)]]; simpl.
    + by apply (wf_visited _ _ W c e).
    + done.
    + by apply (wf_visited _ _ W i x).
  - split; simpl; try done; [|exists []; by rewrite app_nil_r].
    intros i x0 Hi. destruct (R i x0 Hi) as (x & ? & ? & ? & ? & ? & _).
    exists x. done.
Qed.

(** *** Callbacks and scripts *)

Lemma prototype_methods name m : prototype methods name = Some m -> m ∈ methods.
Proof. unfold prototype. repeat case_decide; naive_solver. Qed.

Lemma emit_ok ev st : wf methods st -> wf methods (emit ev st) /\ extends st (emit ev st).
Proof.
  intros W. split; [by destruct W|].
  split; simpl; try done; [naive_solver|by eexists].
Qed.

(** [path] keeps the store well formed when its handler does. *)
Lemma path_ok inv a mws st st' :
  (forall h s s', wf methods s -> inv h s = Returns tt s' -> wf methods s' /\ extends s s') ->
  wf methods st -> path methods inv a mws st = Returns tt st' -> wf methods st' /\ extends st st'.
Proof.
  intros Hinv W. rewrite path_unfold.
  2:{ intros c Hc. destruct (wf_cursor _ _ W) as (c' & Hc' & ?). congruence. }
  destruct (pop _) as [[h rest]|].
  - intros ([] & s1 & Hh & He)%bind_inv.
    destruct (wf_entered (path_arguments a mws).1 rest st W) as [W1 E1].
    destruct (emit_ok (Invoked (fn_ident h) (Some (length (elements st)))) _ W1) as [W2 E2].
    destruct (Hinv _ _ _ W2 Hh) as [W3 E3].
    rewrite (this_end_builder _ (wf_builder _ _ W3)) in He.
    destruct (end_ok _ _ W3 He) as [W4 E4].
    split; [done|]. eauto using extends_trans.
  - intros [= <-]. by apply wf_entered.
Qed.

Lemma call_ok inv s st st' :
  (forall h s s', wf methods s -> inv h s = Returns tt s' -> wf methods s' /\ extends s s') ->
  wf methods st -> call methods inv s st = Returns tt st' -> wf methods st' /\ extends st st'.
Proof.
  intros Hinv W. destruct s as [name a mws|a mws| |]; simpl; rewrite ?(wf_builder _ _ W).
  - destruct (prototype methods name) as [m|] eqn:Hm; [|done].
    apply verb_ok; [done|by eapply prototype_methods].
  - by apply path_ok.
  - by apply end_ok.
  - done.
Qed.

Lemma block_ok exec body : forall st st',
  (forall s st st', wf methods st -> exec s st = Returns tt st' -> wf methods st' /\ extends st st') ->
  wf methods st -> block exec body st = Returns tt st' -> wf methods st' /\ extends st st'.
Proof.
  induction body as [|s body IH]; intros st st' Hexec W; simpl.
  - intros [= <-]. split; [done|apply extends_refl].
  - intros ([] & s1 & Hs & Hrest)%bind_inv.
    destruct (Hexec _ _ _ W Hs) as [W1 E1].
    destruct (IH _ _ Hexec W1 Hrest) as [W2 E2].
    split; [done|]. by eapply extends_trans.
Qed.

Lemma run_ok fuel : forall body st st',
  wf methods st -> run methods fuel body st = Returns tt st' -> wf methods st' /\ extends st st'.
Proof.
  induction fuel as [|n IH]; intros body st st' W; simpl; [done|].
  apply block_ok; [|done]. intros s s0 s1. apply call_ok.
  intros h. apply IH.
Qed.

Lemma reachable_wf st : reachable methods st -> wf methods st.
Proof.
  intros (r & rs & fuel & script & Hr & Hrun).
  by destruct (run_ok fuel script _ _ (wf_ApiBuilder r rs Hr) Hrun).
Qed.

(** ** Composed paths *)

Lemma same_links_insert h j e e' :
  h !! j = Some e -> uri e' = uri e -> parentElement e' = parentElement e ->
  same_links h (<[j := e']> h).
Proof.
  intros Hj Hu Hp i. destruct (decide (i = j)) as [->|Hne].
  - rewrite list_lookup_insert_eq by (by eapply lookup_lt_Some).
    rewrite Hj. simpl. by rewrite Hu, Hp.
  - by rewrite list_lookup_insert_ne.
Qed.

Lemma same_links_lookup h h' i e :
  same_links h h' -> h !! i = Some e ->
  exists e', h' !! i = Some e' /\ uri e' = uri e /\ parentElement e' = parentElement e.
Proof.
  intros H Hi. specialize (H i). rewrite Hi in H.
  destruct (h' !! i) as [e'|]; [|done]. injection H as ??. by exists e'.
Qed.

Lemma lineage_links h h' i l : same_links h h' -> lineage h i l -> lineage h' i l.
Proof.
  intros H. induction 1 as [i e Hi Hp|i e p l Hi Hp _ IH].
  - destruct (same_links_lookup _ _ _ _ H Hi) as (e' & ? & _ & ?).
    apply (lineage_root h' i e'); [done|congruence].
  - destruct (same_links_lookup _ _ _ _ H Hi) as (e' & ? & _ & ?).
    apply (lineage_child h' i e' p l); [done|congruence|done].
Qed.

Lemma uri_at_links h h' i : same_links h h' -> uri_at h i = uri_at h' i.
Proof.
  intros H. unfold uri_at. specialize (H i).
  destruct (h !! i), (h' !! i); simpl in *; congruence.
Qed.

Lemma group_path_links h h' l : same_links h h' -> group_path h l = group_path h' l.
Proof.
  intros H. unfold group_path. f_equal. apply list_fmap_ext. intros ???.
  by apply uri_at_links.
Qed.

Lemma lineage_fun h i l l' : lineage h i l -> lineage h i l' -> l = l'.
Proof.
  intros H. revert l'. induction H as [i e Hi Hp|i e p l Hi Hp _ IH]; intros l' H'.
  - destruct H' as [i e' Hi' Hp'|i e' p' l' Hi' Hp' _]; [done|congruence].
  - destruct H' as [i e' Hi' Hp'|i e' p' l' Hi' Hp' H']; [congruence|].
    assert (p' = p) as -> by congruence. by rewrite (IH _ H').
Qed.

(** The loop of [mountUri] walks the lineage and collects its fragments. *)
Lemma mountUri_loop_lineage h i l :
  lineage h i l -> forall n acc, length l <= n ->
  mountUri_loop n h (Some i) acc = Some (Some ((uri_at h <$> l) ++ acc)).
Proof.
  induction 1 as [i e Hi Hp|i e p l Hi Hp Hl IH]; intros n acc Hn.
  - destruct n as [|n]; simpl in *; [lia|]. rewrite Hi, Hp.
    unfold uri_at. rewrite Hi. by destruct n.
  - rewrite length_app in Hn. simpl in Hn.
    destruct n as [|n]; simpl; [lia|]. rewrite Hi, Hp.
    rewrite IH by lia. rewrite fmap_app. simpl. rewrite <- app_assoc. simpl.
    unfold uri_at at 3. by rewrite Hi.
Qed.

(** Parents come first in the store, so every element has a lineage. *)
Lemma lineage_exists h :
  (forall i e p, h !! i = Some e -> parentElement e = Some p -> p < i) ->
  forall i, i < length h -> exists l, lineage h i l /\ length l <= S i.
Proof.
  intros Hp i. induction i as [i IH] using lt_wf_ind. intros Hlt.
  destruct (lookup_lt_is_Some_2 _ _ Hlt) as [e He].
  destruct (parentElement e) as [p|] eqn:Hpe.
  - pose proof (Hp i e p He Hpe) as Hpar.
    destruct (IH p Hpar) as (l & Hl & Hlen); [lia|].
    exists (l ++ [i]). split; [by eapply lineage_child|].
    rewrite length_app. simpl. lia.
  - exists [i]. split; [by eapply lineage_root|simpl; lia].
Qed.

Lemma wf_parent_lt st i e p :
  wf methods st -> elements st !! i = Some e -> parentElement e = Some p -> p < i.
Proof. intros W Hi Hp. pose proof (wf_parent _ _ W i e Hi) as H. by rewrite Hp in H. Qed.

Lemma mountUri_lineage n j l o st :
  lineage (elements st) j l -> length l <= n ->
  mountUri n j o st = Returns (join (group_path (elements st) l ++ [op_uri o])) st.
Proof.
  intros Hl Hn. unfold mountUri. rewrite (mountUri_loop_lineage _ _ _ Hl) by done.
  by rewrite app_nil_r.
Qed.

(** ** Draining one element *)

Lemma state_eta st : State (this st) (elements st) (routers st) (events st) = st.
Proof. by destruct st. Qed.

Lemma set_verb_id m arr e : verbs e !! m = Some arr -> set_verb m arr e = e.
Proof. intros H. unfold set_verb. rewrite insert_id by done. by destruct e. Qed.

Lemma set_verb_set_verb m arr arr' e :
  set_verb m arr (set_verb m arr' e) = set_verb m arr e.
Proof. unfold set_verb. simpl. by rewrite insert_insert_eq. Qed.

(** [drain] hands the operations of one verb to the router, the last one
    pushed first, and leaves the array empty. *)
Lemma drain_spec m r j l : forall arr st e stack fuel,
  elements st !! j = Some e -> verbs e !! m = Some arr ->
  routers st !! r = Some stack -> lineage (elements st) j l ->
  length arr + length l < fuel ->
  drain fuel m r j st = Returns tt
    (set_routers
       (<[r := stack ++ (render m (group_path (elements st) l) (middlewares e)
                           <$> reverse arr)]> (routers st))
       (set_elements (<[j := set_verb m [] e]> (elements st)) st)).
Proof.
  induction arr as [|o arr IH] using rev_ind; intros st e stack fuel He Harr Hr Hl Hfuel;
    (destruct fuel as [|n]; [lia|]); simpl;
    unfold bind; rewrite (deref_Returns _ _ _ He), Harr.
  - rewrite pop_nil. unfold ret. f_equal. simpl.
    rewrite app_nil_r, (list_insert_id _ _ _ Hr).
    rewrite (set_verb_id _ _ _ Harr), (list_insert_id _ _ _ He).
    unfold set_routers, set_elements. simpl. by rewrite state_eta.
  - rewrite pop_snoc. rewrite length_app in Hfuel. simpl in Hfuel.
    unfold assign, modify.
    set (st1 := set_elements (<[j := set_verb m arr e]> (elements st)) st).
    assert (Hlinks : same_links (elements st) (<[j := set_verb m arr e]> (elements st)))
      by (by apply (same_links_insert _ _ e)).
    assert (Hj : j < length (elements st)) by (by eapply lookup_lt_Some).
    rewrite (mountUri_lineage n j l o st1) by (eauto using lineage_links || lia).
    assert (He1 : elements st1 !! j = Some (set_verb m arr e))
      by (simpl; by rewrite list_lookup_insert_eq).
    rewrite (deref_Returns _ _ _ He1). unfold register. simpl. rewrite Hr.
    rewrite (IH _ (set_verb m arr e) (stack ++ [Layer m
      (join (group_path (<[j:=set_verb m arr e]> (elements st)) l ++ [op_uri o]))
      (middlewares e ++ op_middlewares o)])); simpl.
    + f_equal. unfold set_routers, set_elements. simpl.
      rewrite !list_insert_insert_eq, set_verb_set_verb.
      rewrite reverse_snoc, fmap_cons, <- app_assoc. simpl.
      by rewrite <- (group_path_links _ _ l Hlinks).
    + done.
    + by rewrite lookup_insert_eq.
    + rewrite list_lookup_insert_eq; [done|by eapply lookup_lt_Some].
    + by eapply lineage_links.
    + lia.
Qed.

Lemma drained_cons m ms e : drained (m :: ms) e = drained ms (set_verb m [] e).
Proof. done. Qed.

Lemma drained_fields ms : forall e,
  visited (drained ms e) = visited e /\ parentElement (drained ms e) = parentElement e /\
  children (drained ms e) = children e /\ middlewares (drained ms e) = middlewares e /\
  uri (drained ms e) = uri e.
Proof.
  induction ms as [|m ms IH]; intros e; [done|].
  rewrite drained_cons. by destruct (IH (set_verb m [] e)) as (-> & -> & -> & -> & ->).
Qed.

Lemma drained_verbs ms : forall e m,
  verbs (drained ms e) !! m = if decide (m ∈ ms) then Some [] else verbs e !! m.
Proof.
  induction ms as [|m' ms IH]; intros e m.
  - case_decide as H; [by apply elem_of_nil in H|done].
  - rewrite drained_cons, IH. simpl.
    destruct (decide (m = m')) as [->|Hne].
    + rewrite lookup_insert_eq.
      rewrite (decide_True (P := m' ∈ m' :: ms)) by apply list_elem_of_here.
      by case_decide.
    + rewrite lookup_insert_ne by done.
      destruct (decide (m ∈ ms)) as [Hin|Hnin].
      * rewrite (decide_True (P := m ∈ m' :: ms)); [done|by apply list_elem_of_further].
      * rewrite (decide_False (P := m ∈ m' :: ms)); [done|].
        by intros [?|?]%elem_of_cons.
Qed.

(** The loop over [methods] in closed form. *)
Lemma drain_methods_spec r j l ms : forall st e stack fuel,
  elements st !! j = Some e -> (forall m, m ∈ ms -> is_Some (verbs e !! m)) ->
  routers st !! r = Some stack -> lineage (elements st) j l ->
  (forall m arr, verbs e !! m = Some arr -> length arr + length l < fuel) ->
  drain_methods fuel ms r j st = Returns tt
    (set_routers
       (<[r := stack ++ node_layers (group_path (elements st) l) e ms]> (routers st))
       (set_elements (<[j := drained ms e]> (elements st)) st)).
Proof.
  induction ms as [|m ms IH]; intros st e stack fuel He Hkeys Hr Hl Hfuel; simpl.
  - unfold ret. f_equal. rewrite app_nil_r, (list_insert_id _ _ _ Hr).
    unfold drained. simpl. rewrite (list_insert_id _ _ _ He).
    unfold set_routers, set_elements. simpl. by rewrite state_eta.
  - destruct (Hkeys m) as [arr Harr]; [apply list_elem_of_here|].
    unfold bind. rewrite (drain_spec m r j l arr st e stack) by eauto.
    assert (Hlinks : same_links (elements st) (<[j := set_verb m [] e]> (elements st)))
      by (by apply (same_links_insert _ _ e)).
    assert (Hj : j < length (elements st)) by (by eapply lookup_lt_Some).
    rewrite (IH _ (set_verb m [] e)
      (stack ++ (render m (group_path (elements st) l) (middlewares e) <$> reverse arr)));
      simpl.
    + f_equal. unfold set_routers, set_elements. simpl.
      rewrite !list_insert_insert_eq, <- app_assoc.
      rewrite <- (group_path_links _ _ l Hlinks).
      unfold ops_of. by rewrite Harr.
    + by rewrite list_lookup_insert_eq.
    + intros m' Hm'. destruct (decide (m = m')) as [->|Hne].
      * rewrite lookup_insert_eq. by eexists.
      * rewrite lookup_insert_ne by done. apply Hkeys. by apply list_elem_of_further.
    + rewrite list_lookup_insert_eq; [done|by eapply lookup_lt_Some].
    + by eapply lineage_links.
    + intros m' arr'. destruct (decide (m = m')) as [->|Hne].
      * rewrite lookup_insert_eq. intros [= <-]. simpl.
        specialize (Hfuel _ _ Harr). lia.
      * rewrite lookup_insert_ne by done. apply Hfuel.
Qed.

Lemma ops_of_set_verb_ne m m' arr e : m <> m' -> ops_of (set_verb m arr e) m' = ops_of e m'.
Proof. intros H. unfold ops_of. simpl. by rewrite lookup_insert_ne. Qed.

Lemma node_layers_elem frags ms : forall e x,
  x ∈ node_layers frags e ms ->
  exists m o, m ∈ ms /\ o ∈ ops_of e m /\ x = render m frags (middlewares e) o.
Proof.
  induction ms as [|m ms IH]; intros e x; simpl; [by intros ?%elem_of_nil|].
  intros [Hx|Hx]%elem_of_app.
  - apply list_elem_of_fmap in Hx as (o & -> & Ho). rewrite elem_of_reverse in Ho.
    exists m, o. split; [apply list_elem_of_here|done].
  - destruct (IH _ _ Hx) as (m' & o & Hm' & Ho & ->).
    destruct (decide (m = m')) as [->|Hne].
    + unfold ops_of in Ho. simpl in Ho. rewrite lookup_insert_eq in Ho.
      by apply elem_of_nil in Ho.
    + rewrite ops_of_set_verb_ne in Ho by done.
      exists m', o. split; [by apply list_elem_of_further|done].
Qed.

(** The operations of one verb reach the router side by side, the last
    one pushed first. *)
Lemma node_layers_block frags ms : forall e m,
  m ∈ ms ->
  exists pre post,
    node_layers frags e ms =
      pre ++ (render m frags (middlewares e) <$> reverse (ops_of e m)) ++ post.
Proof.
  induction ms as [|m' ms IH]; intros e m; [by intros ?%elem_of_nil|].
  intros Hin. simpl. destruct (decide (m = m')) as [->|Hne].
  - by exists [], (node_layers frags (set_verb m' [] e) ms).
  - apply elem_of_cons in Hin as [?|Hin]; [done|].
    destruct (IH (set_verb m' [] e) m Hin) as (pre & post & ->).
    rewrite ops_of_set_verb_ne by done. simpl.
    exists ((render m' frags (middlewares e) <$> reverse (ops_of e m')) ++ pre), post.
    by rewrite <- app_assoc.
Qed.

Lemma node_layers_nil frags ms : forall e,
  (forall m, m ∈ ms -> verbs e !! m = Some []) -> node_layers frags e ms = [].
Proof.
  induction ms as [|m ms IH]; intros e He; simpl; [done|].
  unfold ops_of. rewrite (He m) by apply list_elem_of_here. simpl.
  apply IH. intros m' Hm'. simpl. destruct (decide (m = m')) as [->|Hne].
  - by rewrite lookup_insert_eq.
  - rewrite lookup_insert_ne by done. apply He. by apply list_elem_of_further.
Qed.

Lemma drained_id ms : forall e,
  (forall m, m ∈ ms -> verbs e !! m = Some []) -> drained ms e = e.
Proof.
  induction ms as [|m ms IH]; intros e He; [done|].
  rewrite drained_cons, (set_verb_id m [] e) by (apply He, list_elem_of_here).
  apply IH. intros m' Hm'. apply He. by apply list_elem_of_further.
Qed.

(** ** One turn of the loop of [build] *)

Lemma build_step_exit fuel r el st e :
  elements st !! el = Some e -> visited e = true -> parentElement e = None ->
  build_step methods fuel r el st = Returns None st.
Proof.
  intros He Hv Hp. unfold build_step, bind.
  by rewrite (deref_Returns _ _ _ He), Hv, Hp.
Qed.

Lemma build_step_descend fuel r el st e j ej stack l c rest ec :
  elements st !! el = Some e ->
  (if visited e then parentElement e else Some el) = Some j ->
  elements st !! j = Some ej ->
  (forall m, m ∈ methods -> is_Some (verbs ej !! m)) ->
  routers st !! r = Some stack -> lineage (elements st) j l ->
  (forall m arr, verbs ej !! m = Some arr -> length arr + length l < fuel) ->
  children ej = rest ++ [c] -> c <> j -> elements st !! c = Some ec ->
  build_step methods fuel r el st = Returns (Some c)
    (emit (Descended j c)
       (set_elements
          (<[c := set_middlewares (middlewares ej ++ middlewares ec) ec]>
             (<[j := set_children rest (drained methods ej)]> (elements st)))
          (with_layers r (stack ++ node_layers (group_path (elements st) l) ej methods) st))).
Proof.
  intros He Hj Hej Hkeys Hr Hl Hfuel Hch Hne Hec.
  assert (Hlt : j < length (elements st)) by (by eapply lookup_lt_Some).
  unfold build_step, bind. rewrite (deref_Returns _ _ _ He), Hj.
  rewrite (drain_methods_spec r j l methods st ej stack) by done.
  unfold deref. simpl. rewrite list_lookup_insert_eq by done.
  destruct (drained_fields methods ej) as (_ & _ & Hdc & Hdm & _).
  rewrite Hdc, Hch, pop_snoc. unfold assign, modify. simpl.
  rewrite list_lookup_insert_eq by (by rewrite length_insert). simpl.
  rewrite !list_lookup_insert_ne by done.
  rewrite Hec. unfold ret, emit, with_layers, set_elements, set_routers. simpl.
  by rewrite !list_insert_insert_eq, Hdm.
Qed.

Lemma build_step_mark fuel r el st e j ej stack l :
  elements st !! el = Some e ->
  (if visited e then parentElement e else Some el) = Some j ->
  elements st !! j = Some ej ->
  (forall m, m ∈ methods -> is_Some (verbs ej !! m)) ->
  routers st !! r = Some stack -> lineage (elements st) j l ->
  (forall m arr, verbs ej !! m = Some arr -> length arr + length l < fuel) ->
  children ej = [] ->
  build_step methods fuel r el st = Returns (Some j)
    (set_elements (<[j := set_visited true (drained methods ej)]> (elements st))
       (with_layers r (stack ++ node_layers (group_path (elements st) l) ej methods) st)).
Proof.
  intros He Hj Hej Hkeys Hr Hl Hfuel Hch.
  assert (Hlt : j < length (elements st)) by (by eapply lookup_lt_Some).
  unfold build_step, bind. rewrite (deref_Returns _ _ _ He), Hj.
  rewrite (drain_methods_spec r j l methods st ej stack) by done.
  unfold deref. simpl. rewrite list_lookup_insert_eq by done.
  destruct (drained_fields methods ej) as (_ & _ & Hdc & _).
  rewrite Hdc, Hch, pop_nil. unfold assign, modify. simpl.
  unfold ret, with_layers, set_elements, set_routers. simpl.
  by rewrite !list_insert_insert_eq.
Qed.

(** ** Children taken *)

Lemma taken_snoc p evs j c :
  taken p (evs ++ [Descended j c]) = taken p evs ++ (if decide (j = p) then [c] else []).
Proof. unfold taken. rewrite omap_app. simpl. by case_decide. Qed.

(** ** A measure for the loop of [build] *)

Lemma measure_insert w h : forall j e e',
  h !! j = Some e -> measure w (<[j := e']> h) + weight w e = measure w h + weight w e'.
Proof.
  unfold measure. induction h as [|x h IH]; intros [|j] e e' Hj; simplify_eq/=.
  - lia.
  - specialize (IH j e e' Hj). lia.
Qed.

(** ** The invariant of the loop of [build] *)

Lemma registered_block_app h0 new extra i e0 m arr :
  registered_block h0 new i e0 m arr -> registered_block h0 (new ++ extra) i e0 m arr.
Proof.
  intros (l & inh & pre & post & Hl & ->). exists l, inh, pre, (post ++ extra).
  split; [done|]. by rewrite <- !app_assoc.
Qed.

Lemma evolved_refl i e : evolved i [] e e.
Proof.
  split; try done; [by exists []|by rewrite app_nil_r|by left].
Qed.

Lemma evolved_snoc_ne i j c evs e0 e :
  i <> j -> evolved i evs e0 e -> evolved i (evs ++ [Descended j c]) e0 e.
Proof.
  intros Hne [? ? ? Hc ?]. split; try done.
  rewrite taken_snoc, decide_False by done. by rewrite app_nil_r.
Qed.

Lemma on_path_inv h a i :
  on_path h a i ->
  i = a \/ exists e p, h !! a = Some e /\ parentElement e = Some p /\ on_path h p i.
Proof. destruct 1; eauto 6. Qed.

Lemma lineage_inv h i l :
  lineage h i l ->
  exists e, h !! i = Some e /\
    ((parentElement e = None /\ l = [i]) \/
     exists p l', parentElement e = Some p /\ lineage h p l' /\ l = l' ++ [i]).
Proof. destruct 1; eauto 10. Qed.

Lemma on_path_trans h a b c : on_path h a b -> on_path h b c -> on_path h a c.
Proof.
  induction 1 as [|a e p b Ha Hp _ IH]; [done|].
  intros Hbc. eapply on_path_up; eauto.
Qed.

Lemma on_path_le h a i :
  (forall i e p, h !! i = Some e -> parentElement e = Some p -> p < i) ->
  on_path h a i -> i <= a.
Proof.
  intros Hlt. induction 1 as [|a e p i Ha Hp _ IH]; [done|].
  pose proof (Hlt a e p Ha Hp). lia.
Qed.

Lemma full_stack_snoc h0 l i : full_stack h0 (l ++ [i]) = full_stack h0 l ++ middlewares_at h0 i.
Proof. unfold full_stack. rewrite fmap_app, concat_app. simpl. by rewrite app_nil_r. Qed.

Section Flatten.

Variable st0 : state.
Variable r : nat.
Variable stack0 : list layer.
Hypothesis W0 : wf methods st0.
Hypothesis Hr0 : routers st0 !! r = Some stack0.

(** [chained] stands for what is known of the element [build] starts at:
    that it, and each element above it, holds all that its lineage
    declares. *)
Variable chained : Prop.

Local Abbreviation inv := (binv methods st0 r stack0 chained).

Lemma binv_start el :
  el < length (elements st0) ->
  (chained -> forall i e l,
     on_path (elements st0) el i -> elements st0 !! i = Some e ->
     lineage (elements st0) i l -> middlewares e = full_stack (elements st0) l) ->
  inv [] [] st0 el.
Proof.
  intros Hel Hch. split; try done.
  - rewrite app_nil_r. by rewrite (list_insert_id _ _ _ Hr0).
  - by rewrite app_nil_r.
  - intros i e0 Hi. exists e0. split; [done|apply evolved_refl].
  - by intros x ?%elem_of_nil.
  - intros i e0 e m arr Hi0 Hi _ Harr. left. congruence.
  - intros i e Hi Hv. by rewrite (wf_visited _ _ W0 i e Hi) in Hv.
  - intros i e p Hi Hp. right. right. by apply (wf_linked _ _ W0 i e p).
  - intros p ep c ec e0c _ _ ??. congruence.
  - by intros _ x ?%elem_of_nil.
Qed.

Section Facts.

Variables (new : list layer) (evs : list event) (st : state) (el : nat).
Hypothesis I : inv new evs st el.

Lemma binv_back i e :
  elements st !! i = Some e ->
  exists e0, elements st0 !! i = Some e0 /\ evolved i evs e0 e.
Proof.
  intros Hi. assert (Hlt : i < length (elements st0)).
  { rewrite <- (bi_len _ _ _ _ _ _ _ _ _ I). by eapply lookup_lt_Some. }
  destruct (lookup_lt_is_Some_2 _ _ Hlt) as [e0 He0].
  destruct (bi_node _ _ _ _ _ _ _ _ _ I i e0 He0) as (e' & He' & Hev).
  exists e0. split; [done|congruence].
Qed.

Lemma binv_links : same_links (elements st0) (elements st).
Proof.
  intros i. destruct (elements st0 !! i) as [e0|] eqn:Hi.
  - destruct (bi_node _ _ _ _ _ _ _ _ _ I i e0 Hi) as (e & -> & [Hu Hp _ _ _]). simpl.
    by rewrite Hu, Hp.
  - apply lookup_ge_None in Hi. rewrite <- (bi_len _ _ _ _ _ _ _ _ _ I) in Hi.
    apply lookup_ge_None in Hi. by rewrite Hi.
Qed.

Lemma binv_child p ep c :
  elements st !! p = Some ep -> c ∈ children ep ->
  exists ec, elements st !! c = Some ec /\ parentElement ec = Some p /\ p < c /\
    exists e0c, elements st0 !! c = Some e0c /\ parentElement e0c = Some p.
Proof.
  intros Hp Hc. destruct (binv_back p ep Hp) as (e0 & Hp0 & Hev).
  assert (Hc0 : c ∈ children e0).
  { rewrite (ev_children _ _ _ _ Hev). apply elem_of_app. by left. }
  destruct (wf_children _ _ W0 p e0 c Hp0 Hc0) as (e0c & He0c & Hpar).
  destruct (bi_node _ _ _ _ _ _ _ _ _ I c e0c He0c) as (ec & Hec & Hevc).
  exists ec. split_and!; [done|by rewrite (ev_parent _ _ _ _ Hevc)| |by exists e0c].
  pose proof (wf_parent _ _ W0 c e0c He0c) as H. by rewrite Hpar in H.
Qed.

Lemma binv_keys i e m : elements st !! i = Some e -> m ∈ methods -> is_Some (verbs e !! m).
Proof.
  intros Hi Hm. destruct (binv_back i e Hi) as (e0 & Hi0 & Hev).
  destruct (ev_verbs _ _ _ _ Hev m) as [->| ->]; [|by eexists].
  by apply (wf_verbs _ _ W0 i e0).
Qed.

Lemma binv_stack : routers st !! r = Some (stack0 ++ new).
Proof.
  rewrite (bi_routers _ _ _ _ _ _ _ _ _ I). apply list_lookup_insert_eq.
  by eapply lookup_lt_Some.
Qed.

Lemma binv_lineage i :
  i < length (elements st0) ->
  exists l, lineage (elements st0) i l /\ lineage (elements st) i l /\ length l <= S i /\
    group_path (elements st) l = group_path (elements st0) l.
Proof.
  intros Hi. destruct (lineage_exists _ (fun i e p => wf_parent_lt _ i e p W0) i Hi) as (l & Hl & Hlen).
  exists l. split_and!; [done| |done|].
  - by apply (lineage_links _ _ _ _ binv_links).
  - symmetry. apply group_path_links, binv_links.
Qed.

(** The layers of one element come from what was declared at it. *)
Lemma binv_sound_node j ej e0 l x :
  elements st0 !! j = Some e0 -> evolved j evs e0 ej -> lineage (elements st0) j l ->
  x ∈ node_layers (group_path (elements st0) l) ej methods ->
  sound_layer methods (elements st0) x.
Proof.
  intros Hj0 Hev Hl Hx.
  destruct (node_layers_elem _ _ _ _ Hx) as (m & o & Hm & Ho & ->).
  destruct (ev_middlewares _ _ _ _ Hev) as [inh Hinh].
  unfold ops_of in Ho. destruct (ev_verbs _ _ _ _ Hev m) as [Hv|Hv]; rewrite Hv in Ho.
  - destruct (verbs e0 !! m) as [arr|] eqn:Harr; [|by apply elem_of_nil in Ho].
    exists j, e0, l, m, arr, o, inh. by rewrite Hinh.
  - by apply elem_of_nil in Ho.
Qed.

(** Once the verbs of [j] are drained, each array declared at [j] is a
    block of the router's stack. *)
Lemma binv_block_node j ej e0 l m arr :
  elements st0 !! j = Some e0 -> evolved j evs e0 ej -> lineage (elements st0) j l ->
  m ∈ methods -> verbs e0 !! m = Some arr ->
  verbs ej !! m = Some arr \/ registered_block (elements st0) new j e0 m arr ->
  registered_block (elements st0)
    (new ++ node_layers (group_path (elements st0) l) ej methods) j e0 m arr.
Proof.
  intros Hj0 Hev Hl Hm Harr [Hintact|Hblock]; [|by apply registered_block_app].
  destruct (node_layers_block (group_path (elements st0) l) methods ej m Hm)
    as (pre & post & ->).
  destruct (ev_middlewares _ _ _ _ Hev) as [inh Hinh].
  exists l, inh, (new ++ pre), post. split; [done|].
  unfold ops_of. rewrite Hintact, Hinh. simpl. by rewrite <- !app_assoc.
Qed.

(** The same with the whole chain, when [j] holds it. *)
Lemma binv_full_node j ej e0 l x :
  elements st0 !! j = Some e0 -> evolved j evs e0 ej -> lineage (elements st0) j l ->
  middlewares ej = full_stack (elements st0) l ->
  x ∈ node_layers (group_path (elements st0) l) ej methods ->
  full_layer methods (elements st0) x.
Proof.
  intros Hj0 Hev Hl Hfull Hx.
  destruct (node_layers_elem _ _ _ _ Hx) as (m & o & Hm & Ho & ->).
  unfold ops_of in Ho. destruct (ev_verbs _ _ _ _ Hev m) as [Hv|Hv]; rewrite Hv in Ho.
  - destruct (verbs e0 !! m) as [arr|] eqn:Harr; [|by apply elem_of_nil in Ho].
    exists j, e0, l, m, arr, o. by rewrite Hfull.
  - by apply elem_of_nil in Ho.
Qed.

Lemma binv_nodup i e : elements st !! i = Some e -> NoDup (children e).
Proof.
  intros Hi. destruct (binv_back i e Hi) as (e0 & Hi0 & Hev).
  pose proof (wf_nodup _ _ W0 i e0 Hi0) as Hnd.
  rewrite (ev_children _ _ _ _ Hev) in Hnd. by apply NoDup_app in Hnd as [? _].
Qed.

Lemma binv_on_path e j :
  elements st !! el = Some e ->
  (if visited e then parentElement e else Some el) = Some j ->
  on_path (elements st0) el j.
Proof.
  intros He Hj. destruct (visited e); [|injection Hj as <-; apply on_path_here].
  destruct (binv_back el e He) as (e0 & He0 & Hev).
  rewrite (ev_parent _ _ _ _ Hev) in Hj.
  eapply on_path_up; [done|done|apply on_path_here].
Qed.

End Facts.

Lemma on_path_move new evs st el e j i :
  inv new evs st el -> elements st !! el = Some e ->
  (if visited e then parentElement e else Some el) = Some j ->
  on_path (elements st0) el i ->
  (i = el /\ visited e = true) \/ on_path (elements st0) j i.
Proof.
  intros I He Hj Hon. destruct (visited e) eqn:Hv; [|injection Hj as <-; by right].
  destruct Hon as [|el e0 p i He0 Hp Hon]; [by left|right].
  destruct (binv_back _ _ _ _ I el e He) as (e0' & He0' & Hev).
  assert (p = j) as ->; [|done].
  rewrite (ev_parent _ _ _ _ Hev) in Hj. congruence.
Qed.

Lemma evolved_set_middlewares i evs e0 e pre :
  evolved i evs e0 e -> evolved i evs e0 (set_middlewares (pre ++ middlewares e) e).
Proof.
  intros [? ? [inh Hinh] ? ?]. split; try done.
  exists (pre ++ inh). simpl. by rewrite Hinh, app_assoc.
Qed.

(** The loop goes down into the last child of [j]. *)
Lemma binv_descend new evs st el e j ej l c rest ec st' :
  inv new evs st el ->
  elements st !! el = Some e ->
  (if visited e then parentElement e else Some el) = Some j ->
  elements st !! j = Some ej -> lineage (elements st0) j l ->
  children ej = rest ++ [c] -> elements st !! c = Some ec ->
  this st' = this st ->
  elements st' = <[c := set_middlewares (middlewares ej ++ middlewares ec) ec]>
                   (<[j := set_children rest (drained methods ej)]> (elements st)) ->
  routers st' =
    <[r := stack0 ++ (new ++ node_layers (group_path (elements st0) l) ej methods)]>
      (routers st0) ->
  events st' = events st ++ [Descended j c] ->
  inv (new ++ node_layers (group_path (elements st0) l) ej methods)
    (evs ++ [Descended j c]) st' c.
Proof.
  intros I He Hj Hej Hl Hch Hec Hthis Hels Hrt Hevs.
  assert (Hcin : c ∈ children ej).
  { rewrite Hch. apply elem_of_app. right. by apply list_elem_of_singleton. }
  destruct (binv_child _ _ _ _ I j ej c Hej Hcin)
    as (ec1 & Hec1 & Hpar & Hlt & e0c & He0c & Hpar0).
  assert (ec1 = ec) as -> by congruence.
  assert (Hne : c <> j) by lia.
  destruct (binv_back _ _ _ _ I j ej Hej) as (e0j & Hj0 & Hevj).
  destruct (drained_fields methods ej) as (Hdv & Hdp & Hdc & Hdm & Hdu).
  pose (ej' := set_children rest (drained methods ej)).
  pose (ec' := set_middlewares (middlewares ej ++ middlewares ec) ec).
  assert (L : forall i x', elements st' !! i = Some x' ->
            exists x, elements st !! i = Some x /\
              ((i = j /\ x = ej /\ x' = ej') \/ (i = c /\ x = ec /\ x' = ec') \/
               (i <> j /\ i <> c /\ x' = x))).
  { rewrite Hels. intros i x' [(<- & <- & _)|(Hn1 & Hi)]%list_lookup_insert_Some.
    - exists ec. split; [done|]. right. by left.
    - apply list_lookup_insert_Some in Hi as [(<- & <- & _)|(Hn2 & Hi)].
      + exists ej. split; [done|]. by left.
      + exists x'. split; [done|]. right. right. done. }
  assert (R : forall i x, elements st !! i = Some x ->
            exists x', elements st' !! i = Some x' /\
              ((i = j /\ x = ej /\ x' = ej') \/ (i = c /\ x = ec /\ x' = ec') \/
               (i <> j /\ i <> c /\ x' = x))).
  { rewrite Hels. intros i x Hi. destruct (decide (i = c)) as [->|Hn1].
    - exists ec'. rewrite list_lookup_insert_eq
        by (rewrite length_insert; by eapply lookup_lt_Some).
      split; [done|]. right. left. split_and!; congruence.
    - rewrite list_lookup_insert_ne by done. destruct (decide (i = j)) as [->|Hn2].
      + exists ej'. rewrite list_lookup_insert_eq by (by eapply lookup_lt_Some).
        split; [done|]. left. split_and!; congruence.
      + exists x. rewrite list_lookup_insert_ne by done. split; [done|].
        right. right. done. }
  assert (K : forall i x x', elements st !! i = Some x ->
            ((i = j /\ x = ej /\ x' = ej') \/ (i = c /\ x = ec /\ x' = ec') \/
               (i <> j /\ i <> c /\ x' = x)) ->
            parentElement x' = parentElement x /\ visited x' = visited x /\
            (i <> j -> children x' = children x /\ verbs x' = verbs x)).
  { intros i x x' _ [(-> & -> & ->)|[(-> & -> & ->)|(? & ? & ->)]]; simpl; done. }
  split.
  - by rewrite Hthis, (bi_this _ _ _ _ _ _ _ _ _ I).
  - done.
  - by rewrite Hevs, (bi_events _ _ _ _ _ _ _ _ _ I), app_assoc.
  - by eapply lookup_lt_Some.
  - by rewrite Hels, !length_insert, (bi_len _ _ _ _ _ _ _ _ _ I).
  - intros i e0 Hi0. destruct (bi_node _ _ _ _ _ _ _ _ _ I i e0 Hi0) as (x & Hx & Hevx).
    destruct (R i x Hx) as (x' & Hx' & [(-> & -> & ->)|[(-> & -> & ->)|(? & ? & ->)]]);
      (eexists; split; [done|]).
    + destruct Hevx as [Hu Hp Hm Hc Hv]. split; simpl.
      * by rewrite Hdu.
      * by rewrite Hdp.
      * by rewrite Hdm.
      * rewrite taken_snoc, decide_True by done.
        rewrite reverse_app, Hc, Hch. simpl. by rewrite <- app_assoc.
      * intros m. rewrite drained_verbs. case_decide; [by right|apply Hv].
    + apply evolved_set_middlewares. by apply evolved_snoc_ne.
    + by apply evolved_snoc_ne.
  - intros x [Hx|Hx]%elem_of_app; [by apply (bi_sound _ _ _ _ _ _ _ _ _ I)|].
    eapply binv_sound_node; eauto.
  - intros i e0 x' m arr Hi0 Hx' Hm Harr.
    destruct (L i x' Hx') as (x & Hx & Hcase).
    pose proof (bi_block _ _ _ _ _ _ _ _ _ I i e0 x m arr Hi0 Hx Hm Harr) as Hold.
    destruct (decide (i = j)) as [->|Hnj].
    + right. assert (e0 = e0j) as -> by congruence. assert (x = ej) as -> by congruence.
      by eapply binv_block_node.
    + destruct (K i x x' Hx Hcase) as (_ & _ & Hsame). destruct (Hsame Hnj) as [_ Hvs].
      destruct Hold as [Hold|Hold]; [left; by rewrite Hvs|right].
      by apply registered_block_app.
  - intros i x' Hx' Hv. destruct (L i x' Hx') as (x & Hx & Hcase).
    destruct (K i x x' Hx Hcase) as (_ & Hvis & Hsame). rewrite Hvis in Hv.
    destruct (bi_visited _ _ _ _ _ _ _ _ _ I i x Hx Hv) as [Hnil Hops].
    destruct (decide (i = j)) as [->|Hnj].
    + assert (x = ej) as -> by congruence. rewrite Hch in Hnil.
      by destruct rest.
    + destruct (Hsame Hnj) as [-> ->]. done.
  - intros i x' p Hx' Hp. destruct (L i x' Hx') as (x & Hx & Hcase).
    destruct (K i x x' Hx Hcase) as (Hpar' & Hvis & _).
    rewrite Hpar' in Hp. rewrite Hvis.
    destruct (bi_progress _ _ _ _ _ _ _ _ _ I i x p Hx Hp) as [Hon|[Hv|(ep & Hep & Hin)]].
    + destruct (on_path_move _ _ _ _ _ _ _ I He Hj Hon) as [[-> Hve]|Hon'].
      * right. left. congruence.
      * left. by eapply on_path_up.
    + by right; left.
    + destruct (decide (p = j)) as [->|Hnj].
      * assert (ep = ej) as -> by congruence. rewrite Hch in Hin.
        apply elem_of_app in Hin as [Hin|Hin].
        -- right. right. destruct (R j ej Hej) as (y & Hy & Hcy).
           exists y. split; [done|].
           destruct Hcy as [(_ & _ & ->)|[(? & _)|(? & _)]]; done.
        -- apply list_elem_of_singleton in Hin as ->. left. apply on_path_here.
      * right. right. destruct (R p ep Hep) as (y & Hy & Hcy).
        destruct (K p ep y Hep Hcy) as (_ & _ & Hsame). destruct (Hsame Hnj) as [Hc' _].
        exists y. by rewrite Hc'.
  - intros p ep' k ek' e0k Hp' Hk Hk' Hk0.
    destruct (L p ep' Hp') as (ep & Hep & Hcp).
    destruct (L k ek' Hk') as (ek & Hek & Hck).
    assert (Hkin : k ∈ children ep /\ k <> c).
    { destruct Hcp as [(-> & -> & ->)|[(-> & -> & ->)|(? & ? & ->)]]; simpl in Hk.
      - split; [rewrite Hch; apply elem_of_app; by left|]. intros ->.
        pose proof (binv_nodup _ _ _ _ I j ej Hej) as Hnd. rewrite Hch in Hnd.
        apply NoDup_app in Hnd as (_ & Hnd & _). apply (Hnd c Hk).
        by apply list_elem_of_singleton.
      - split; [done|]. intros ->.
        destruct (binv_child _ _ _ _ I c ec c Hec Hk) as (_ & _ & _ & ? & _). lia.
      - split; [done|]. intros ->.
        destruct (binv_child _ _ _ _ I p ep c Hep Hk) as (ec1 & Hec1' & Hp1 & _).
        congruence. }
    destruct Hkin as [Hkin Hkc].
    rewrite <- (bi_untouched _ _ _ _ _ _ _ _ _ I p ep k ek e0k Hep Hkin Hek Hk0).
    destruct Hck as [(-> & -> & ->)|[(-> & _)|(_ & _ & ->)]]; [by simpl|done|done].
  - intros Hchained i x' l' Hon Hx' Hl'.
    destruct (L i x' Hx') as (x & Hx & Hcx).
    assert (Helj : on_path (elements st0) el j) by (by eapply binv_on_path).
    destruct (on_path_inv _ _ _ Hon) as [->|(e0c' & p & Hc0 & Hp0 & Hon')].
    + destruct Hcx as [(? & _)|[(_ & -> & ->)|(_ & ? & _)]]; [done| |done].
      simpl. destruct (lineage_inv _ _ _ Hl') as (e0c' & Hc0 & [[Hp0 _]|(p & lj & Hp0 & Hlj & ->)]);
        [congruence|].
      assert (p = j) as -> by congruence.
      rewrite full_stack_snoc.
      rewrite (bi_chain _ _ _ _ _ _ _ _ _ I Hchained j ej lj Helj Hej Hlj).
      rewrite (bi_untouched _ _ _ _ _ _ _ _ _ I j ej c ec e0c Hej Hcin Hec He0c).
      unfold middlewares_at. by rewrite He0c.
    + assert (p = j) as -> by congruence.
      pose proof (on_path_le _ _ _ (fun i e p => wf_parent_lt _ i e p W0) Hon') as Hle.
      assert (Heli : on_path (elements st0) el i) by (by eapply on_path_trans).
      destruct Hcx as [(-> & -> & ->)|[(-> & _)|(_ & _ & ->)]]; [|lia|].
      * simpl. rewrite Hdm. by apply (bi_chain _ _ _ _ _ _ _ _ _ I Hchained j ej l').
      * by apply (bi_chain _ _ _ _ _ _ _ _ _ I Hchained i x l').
  - intros Hchained x [Hx|Hx]%elem_of_app; [by apply (bi_full _ _ _ _ _ _ _ _ _ I)|].
    eapply binv_full_node; eauto.
    apply (bi_chain _ _ _ _ _ _ _ _ _ I Hchained j ej l); [by eapply binv_on_path|done|done].
Qed.

(** The loop finds no child left at [j] and marks it visited. *)
Lemma binv_mark new evs st el e j ej l st' :
  inv new evs st el ->
  elements st !! el = Some e ->
  (if visited e then parentElement e else Some el) = Some j ->
  elements st !! j = Some ej -> lineage (elements st0) j l ->
  children ej = [] ->
  this st' = this st ->
  elements st' = <[j := set_visited true (drained methods ej)]> (elements st) ->
  routers st' =
    <[r := stack0 ++ (new ++ node_layers (group_path (elements st0) l) ej methods)]>
      (routers st0) ->
  events st' = events st ->
  inv (new ++ node_layers (group_path (elements st0) l) ej methods) evs st' j.
Proof.
  intros I He Hj Hej Hl Hch Hthis Hels Hrt Hevs.
  destruct (binv_back _ _ _ _ I j ej Hej) as (e0j & Hj0 & Hevj).
  destruct (drained_fields methods ej) as (Hdv & Hdp & Hdc & Hdm & Hdu).
  pose (ej' := set_visited true (drained methods ej)).
  assert (L : forall i x', elements st' !! i = Some x' ->
            exists x, elements st !! i = Some x /\
              ((i = j /\ x = ej /\ x' = ej') \/ (i <> j /\ x' = x))).
  { rewrite Hels. intros i x' [(<- & <- & _)|(Hn1 & Hi)]%list_lookup_insert_Some.
    - exists ej. split; [done|]. by left.
    - exists x'. split; [done|]. by right. }
  assert (R : forall i x, elements st !! i = Some x ->
            exists x', elements st' !! i = Some x' /\
              ((i = j /\ x = ej /\ x' = ej') \/ (i <> j /\ x' = x))).
  { rewrite Hels. intros i x Hi. destruct (decide (i = j)) as [->|Hn1].
    - exists ej'. rewrite list_lookup_insert_eq by (by eapply lookup_lt_Some).
      split; [done|]. left. split_and!; congruence.
    - exists x. rewrite list_lookup_insert_ne by done. split; [done|]. by right. }
  assert (K : forall i x x', elements st !! i = Some x ->
            ((i = j /\ x = ej /\ x' = ej') \/ (i <> j /\ x' = x)) ->
            parentElement x' = parentElement x /\ children x' = children x /\
            (visited x = true -> visited x' = true) /\
            (i <> j -> x' = x) /\ middlewares x' = middlewares x).
  { intros i x x' _ [(-> & -> & ->)|(? & ->)]; simpl; done. }
  split.
  - by rewrite Hthis, (bi_this _ _ _ _ _ _ _ _ _ I).
  - done.
  - by rewrite Hevs, (bi_events _ _ _ _ _ _ _ _ _ I).
  - by eapply lookup_lt_Some.
  - by rewrite Hels, !length_insert, (bi_len _ _ _ _ _ _ _ _ _ I).
  - intros i e0 Hi0. destruct (bi_node _ _ _ _ _ _ _ _ _ I i e0 Hi0) as (x & Hx & Hevx).
    destruct (R i x Hx) as (x' & Hx' & [(-> & -> & ->)|(? & ->)]);
      (eexists; split; [done|]); [|done].
    destruct Hevx as [Hu Hp Hm Hc Hv]. split; simpl.
    + by rewrite Hdu.
    + by rewrite Hdp.
    + by rewrite Hdm.
    + by rewrite Hdc.
    + intros m. rewrite drained_verbs. case_decide; [by right|apply Hv].
  - intros x [Hx|Hx]%elem_of_app; [by apply (bi_sound _ _ _ _ _ _ _ _ _ I)|].
    eapply binv_sound_node; eauto.
  - intros i e0 x' m arr Hi0 Hx' Hm Harr.
    destruct (L i x' Hx') as (x & Hx & Hcase).
    pose proof (bi_block _ _ _ _ _ _ _ _ _ I i e0 x m arr Hi0 Hx Hm Harr) as Hold.
    destruct (decide (i = j)) as [->|Hnj].
    + right. assert (e0 = e0j) as -> by congruence. assert (x = ej) as -> by congruence.
      by eapply binv_block_node.
    + destruct (K i x x' Hx Hcase) as (_ & _ & _ & Hsame & _). rewrite (Hsame Hnj).
      destruct Hold as [Hold|Hold]; [by left|right].
      by apply registered_block_app.
  - intros i x' Hx' Hv. destruct (L i x' Hx') as (x & Hx & [(-> & -> & ->)|(? & ->)]).
    + simpl. rewrite Hdc. split; [done|]. intros m Hm. rewrite drained_verbs.
      by rewrite decide_True.
    + by apply (bi_visited _ _ _ _ _ _ _ _ _ I i x).
  - intros i x' p Hx' Hp. destruct (L i x' Hx') as (x & Hx & Hcase).
    destruct (K i x x' Hx Hcase) as (Hpar' & _ & Hvis & _ & _).
    rewrite Hpar' in Hp.
    destruct (bi_progress _ _ _ _ _ _ _ _ _ I i x p Hx Hp) as [Hon|[Hv|(ep & Hep & Hin)]].
    + destruct (on_path_move _ _ _ _ _ _ _ I He Hj Hon) as [[-> Hve]|Hon'].
      * right. left. apply Hvis. congruence.
      * by left.
    + right. left. by apply Hvis.
    + right. right. destruct (R p ep Hep) as (y & Hy & Hcy).
      destruct (K p ep y Hep Hcy) as (_ & Hc' & _ & _ & _). exists y. by rewrite Hc'.
  - intros p ep' k ek' e0k Hp' Hk Hk' Hk0.
    destruct (L p ep' Hp') as (ep & Hep & Hcp).
    destruct (L k ek' Hk') as (ek & Hek & Hck).
    destruct (K p ep ep' Hep Hcp) as (_ & Hc' & _ & _ & _). rewrite Hc' in Hk.
    destruct (K k ek ek' Hek Hck) as (_ & _ & _ & _ & ->).
    by apply (bi_untouched _ _ _ _ _ _ _ _ _ I p ep k ek e0k).
  - intros Hchained i x' l' Hon Hx' Hl'.
    destruct (L i x' Hx') as (x & Hx & Hcx).
    destruct (K i x x' Hx Hcx) as (_ & _ & _ & _ & ->).
    apply (bi_chain _ _ _ _ _ _ _ _ _ I Hchained i x l'); [|done|done].
    eapply on_path_trans; [by eapply binv_on_path|done].
  - intros Hchained x [Hx|Hx]%elem_of_app; [by apply (bi_full _ _ _ _ _ _ _ _ _ I)|].
    eapply binv_full_node; eauto.
    apply (bi_chain _ _ _ _ _ _ _ _ _ I Hchained j ej l); [by eapply binv_on_path|done|done].
Qed.

(** When the loop leaves through the root, every element is visited. *)
Lemma binv_exit new evs st el e :
  inv new evs st el -> elements st !! el = Some e ->
  visited e = true -> parentElement e = None ->
  forall i x, elements st !! i = Some x -> visited x = true.
Proof.
  intros I He Hv Hp i. induction i as [i IH] using lt_wf_ind. intros x Hx.
  destruct (parentElement x) as [p|] eqn:Hpx.
  - destruct (bi_progress _ _ _ _ _ _ _ _ _ I i x p Hx Hpx) as [Hon|[?|(ep & Hep & Hin)]]; [|done|].
    + destruct Hon as [|el e0 q i He0 Hq _]; [congruence|].
      destruct (binv_back _ _ _ _ I el e He) as (e0' & He0' & Hev).
      rewrite (ev_parent _ _ _ _ Hev) in Hp. congruence.
    + destruct (binv_child _ _ _ _ I p ep i Hep Hin) as (_ & _ & _ & Hlt & _).
      destruct (bi_visited _ _ _ _ _ _ _ _ _ I p ep Hep (IH p Hlt ep Hep)) as [Hnil _].
      rewrite Hnil in Hin. by apply elem_of_nil in Hin.
  - destruct (binv_back _ _ _ _ I i x Hx) as (x0 & Hx0 & Hevx).
    destruct (binv_back _ _ _ _ I el e He) as (e0 & He0 & Heve).
    pose proof (wf_parent _ _ W0 i x0 Hx0) as H1.
    pose proof (wf_parent _ _ W0 el e0 He0) as H2.
    rewrite <- (ev_parent _ _ _ _ Hevx), Hpx in H1.
    rewrite <- (ev_parent _ _ _ _ Heve), Hp in H2. congruence.
Qed.

(** ** The loop of [build] ends *)

Lemma ops_bound_exists h : exists B, ops_bound h B.
Proof.
  induction h as [|e h [B HB]].
  - exists 0. by intros [|i] e m arr.
  - set (Be := max_list ((fun kv => length kv.2) <$> map_to_list (verbs e))).
    exists (Be `max` B). intros [|i] x m arr; simpl.
    + intros [= <-] Harr. apply Nat.max_le_iff. left. unfold Be.
      apply max_list_elem_of_le.
      apply (list_elem_of_fmap_2 (fun kv : string * list op => length kv.2) _ (m, arr)).
      by apply elem_of_map_to_list.
    + intros Hi Harr. apply Nat.max_le_iff. right. by apply (HB i x m arr).
Qed.

Lemma snoc_cases {A} (l : list A) : l = [] \/ exists rest x, l = rest ++ [x].
Proof. destruct l as [|x l _] using rev_ind; [by left|right; eauto]. Qed.

Lemma build_loop_None fuel router st :
  build_loop methods fuel router None st = Returns tt st.
Proof. by destruct fuel. Qed.

Lemma build_loop_total B :
  ops_bound (elements st0) B ->
  forall mu new evs st el fuel,
  inv new evs st el ->
  measure (S (length (elements st0))) (elements st) + el <= mu ->
  mu + B + length (elements st0) + 2 <= fuel ->
  exists new' evs' st' el',
    build_loop methods fuel r (Some el) st = Returns tt st' /\
    inv new' evs' st' el' /\
    forall i x, elements st' !! i = Some x -> visited x = true.
Proof.
  intros HB mu. induction mu as [mu IH] using lt_wf_ind.
  intros new evs st el fuel I Hmu Hfuel.
  destruct fuel as [|n]; [lia|]. simpl.
  assert (Hel : el < length (elements st))
    by (rewrite (bi_len _ _ _ _ _ _ _ _ _ I); apply (bi_el _ _ _ _ _ _ _ _ _ I)).
  destruct (lookup_lt_is_Some_2 _ _ Hel) as [e He].
  destruct (binv_back _ _ _ _ I el e He) as (e0 & He0 & Heve).
  destruct (if visited e then parentElement e else Some el) as [j|] eqn:Hj.
  2:{ destruct (visited e) eqn:Hv; [|done].
      exists new, evs, st, el. unfold bind.
      rewrite (build_step_exit n r el st e He Hv Hj), build_loop_None.
      split; [done|]. split; [done|]. by eapply binv_exit. }
  assert (Hjle : j <= el).
  { destruct (visited e); [|injection Hj as <-; lia].
    pose proof (wf_parent _ _ W0 el e0 He0) as H.
    rewrite <- (ev_parent _ _ _ _ Heve), Hj in H. lia. }
  assert (Hjvis : j = el -> visited e = false).
  { intros ->. destruct (visited e); [|done].
    pose proof (wf_parent _ _ W0 el e0 He0) as H.
    rewrite <- (ev_parent _ _ _ _ Heve), Hj in H. lia. }
  assert (Hjlt : j < length (elements st)) by lia.
  destruct (lookup_lt_is_Some_2 _ _ Hjlt) as [ej Hej].
  destruct (binv_back _ _ _ _ I j ej Hej) as (e0j & Hej0 & Hevj).
  destruct (binv_lineage _ _ _ _ I j) as (l & Hl0 & Hl & Hlen & Hgp);
    [rewrite <- (bi_len _ _ _ _ _ _ _ _ _ I); lia|].
  assert (Hdrain : forall m arr, verbs ej !! m = Some arr -> length arr + length l < n).
  { intros m arr Harr. assert (length arr <= B); [|rewrite (bi_len _ _ _ _ _ _ _ _ _ I) in Hel; lia].
    destruct (ev_verbs _ _ _ _ Hevj m) as [Hv|Hv]; rewrite Hv in Harr.
    - by apply (HB j e0j m).
    - injection Harr as <-. simpl. lia. }
  pose proof (binv_stack _ _ _ _ I) as Hstack.
  pose proof (fun m => binv_keys _ _ _ _ I j ej m Hej) as Hkeys.
  destruct (drained_fields methods ej) as (Hdv & Hdp & Hdc & Hdm & Hdu).
  destruct (snoc_cases (children ej)) as [Hch|(rest & c & Hch)].
  - (* no child left *)
    unfold bind.
    rewrite (build_step_mark n r el st e j ej _ l He Hj Hej Hkeys Hstack Hl Hdrain Hch).
    rewrite Hgp.
    set (st1 := set_elements _ _).
    assert (I1 : inv (new ++ node_layers (group_path (elements st0) l) ej methods)
                   evs st1 j).
    { eapply (binv_mark new evs st el e j ej l); try done. simpl.
      rewrite (bi_routers _ _ _ _ _ _ _ _ _ I), list_insert_insert_eq. by rewrite app_assoc. }
    pose proof (measure_insert (S (length (elements st0))) (elements st) j ej
      (set_visited true (drained methods ej)) Hej) as Hm.
    unfold weight in Hm. simpl in Hm. rewrite Hdc, Hch in Hm. simpl in Hm.
    apply (IH (measure (S (length (elements st0))) (elements st1) + j)) with (evs := evs)
      (new := new ++ node_layers (group_path (elements st0) l) ej methods); try done.
    + simpl. destruct (decide (j = el)) as [->|Hne].
      * assert (ej = e) as -> by congruence. rewrite (Hjvis eq_refl) in Hm. lia.
      * destruct (visited ej); lia.
    + simpl. destruct (decide (j = el)) as [->|Hne].
      * assert (ej = e) as -> by congruence. rewrite (Hjvis eq_refl) in Hm. lia.
      * destruct (visited ej); lia.
  - (* the last child is taken *)
    assert (Hcin : c ∈ children ej).
    { rewrite Hch. apply elem_of_app. right. by apply list_elem_of_singleton. }
    destruct (binv_child _ _ _ _ I j ej c Hej Hcin)
      as (ec & Hec & Hpar & Hlt & e0c & He0c & Hpar0).
    assert (Hne : c <> j) by lia.
    unfold bind.
    rewrite (build_step_descend n r el st e j ej _ l c rest ec
               He Hj Hej Hkeys Hstack Hl Hdrain Hch Hne Hec).
    rewrite Hgp.
    set (st1 := emit _ _).
    assert (I1 : inv (new ++ node_layers (group_path (elements st0) l) ej methods)
                   (evs ++ [Descended j c]) st1 c).
    { eapply (binv_descend new evs st el e j ej l c rest ec); try done. simpl.
      rewrite (bi_routers _ _ _ _ _ _ _ _ _ I), list_insert_insert_eq. by rewrite app_assoc. }
    pose proof (measure_insert (S (length (elements st0))) (elements st) j ej
      (set_children rest (drained methods ej)) Hej) as Hm1.
    assert (Hec1 : <[j := set_children rest (drained methods ej)]> (elements st) !! c
                   = Some ec) by (by rewrite list_lookup_insert_ne).
    pose proof (measure_insert (S (length (elements st0))) _ c ec
      (set_middlewares (middlewares ej ++ middlewares ec) ec) Hec1) as Hm2.
    unfold weight in Hm1, Hm2. simpl in Hm1, Hm2.
    rewrite Hdv, Hch, length_app in Hm1. simpl in Hm1.
    assert (Hc : c < length (elements st0)) by (by eapply lookup_lt_Some).
    apply (IH (measure (S (length (elements st0))) (elements st1) + c))
      with (evs := evs ++ [Descended j c])
      (new := new ++ node_layers (group_path (elements st0) l) ej methods); try done.
    + simpl. lia.
    + simpl. lia.
Qed.

End Flatten.

(** ** More fuel changes no outcome *)

Lemma stable_refl {A} (m : M A) : stable m m.
Proof. by intros st o. Qed.

Lemma stable_bind {A B} (m m' : M A) (k k' : A -> M B) :
  stable m m' -> (forall a, stable (k a) (k' a)) -> stable (bind m k) (bind m' k').
Proof.
  intros Hm Hk st o. unfold bind. destruct (m st) as [a s|e| |] eqn:E.
  - rewrite (Hm st _ E) by done. apply Hk.
  - rewrite (Hm st _ E) by done. done.
  - by intros <-.
  - rewrite (Hm st _ E) by done. done.
Qed.

Lemma mountUri_loop_mono h : forall n n' c acc x,
  mountUri_loop n h c acc = Some x -> n <= n' -> mountUri_loop n' h c acc = Some x.
Proof.
  induction n as [|n IH]; intros n' [i|] acc x; simpl.
  - done.
  - intros [= <-] _. by destruct n'.
  - destruct n' as [|n']; [lia|]. simpl. destruct (h !! i); [|done].
    intros H ?. apply IH; [done|lia].
  - intros [= <-] _. by destruct n'.
Qed.

Lemma mountUri_mono n n' j o : n <= n' -> stable (mountUri n j o) (mountUri n' j o).
Proof.
  intros Hn st out. unfold mountUri.
  destruct (mountUri_loop n (elements st) (Some j) []) as [x|] eqn:E.
  - by rewrite (mountUri_loop_mono _ _ _ _ _ _ E Hn).
  - by intros <-.
Qed.

Lemma drain_mono m r j : forall n n', n <= n' -> stable (drain n m r j) (drain n' m r j).
Proof.
  induction n as [|n IH]; intros n' Hn; [by intros st o <-|].
  destruct n' as [|n']; [lia|]. simpl.
  apply stable_bind; [apply stable_refl|]. intros e.
  destruct (verbs e !! m) as [arr|]; [|apply stable_refl].
  destruct (pop arr) as [[o rest]|]; [|apply stable_refl].
  apply stable_bind; [apply stable_refl|]. intros _.
  apply stable_bind; [apply mountUri_mono; lia|]. intros u.
  apply stable_bind; [apply stable_refl|]. intros e'.
  apply stable_bind; [apply stable_refl|]. intros _.
  apply IH. lia.
Qed.

Lemma drain_methods_mono r j n n' ms :
  n <= n' -> stable (drain_methods n ms r j) (drain_methods n' ms r j).
Proof.
  intros Hn. induction ms as [|m ms IH]; simpl; [apply stable_refl|].
  apply stable_bind; [by apply drain_mono|done].
Qed.

Lemma build_step_mono r el n n' :
  n <= n' -> stable (build_step methods n r el) (build_step methods n' r el).
Proof.
  intros Hn. unfold build_step.
  apply stable_bind; [apply stable_refl|]. intros e.
  destruct (if visited e then parentElement e else Some el); [|apply stable_refl].
  apply stable_bind; [by apply drain_methods_mono|]. intros _. apply stable_refl.
Qed.

Lemma build_loop_mono r : forall n n' el,
  n <= n' -> stable (build_loop methods n r el) (build_loop methods n' r el).
Proof.
  induction n as [|n IH]; intros n' [i|] Hn.
  - by intros st o <-.
  - intros st o. by rewrite !build_loop_None.
  - destruct n' as [|n']; [lia|]. simpl.
    apply stable_bind; [apply build_step_mono; lia|]. intros next. apply IH. lia.
  - intros st o. by rewrite !build_loop_None.
Qed.

Lemma build_mono n n' : n <= n' -> stable (build methods n) (build methods n').
Proof.
  intros Hn st o. unfold build.
  apply stable_bind; [apply stable_refl|]. intros router.
  apply stable_bind; [by apply build_loop_mono|]. intros _. apply stable_refl.
Qed.

(** Two runs of [build] that both return, return the same. *)
Lemma build_fuel n n' st a a' s s' :
  build methods n st = Returns a s -> build methods n' st = Returns a' s' ->
  a = a' /\ s = s'.
Proof.
  intros H H'.
  assert (E : build methods (n `max` n') st = Returns a s)
    by (by apply (build_mono n (n `max` n') (Nat.le_max_l _ _) st _ H)).
  assert (E' : build methods (n `max` n') st = Returns a' s')
    by (by apply (build_mono n' (n `max` n') (Nat.le_max_r _ _) st _ H')).
  rewrite E in E'. by injection E' as -> ->.
Qed.

(** ** [build] as a whole *)

Lemma build_unfold fuel st :
  build methods fuel st =
    (build_loop methods fuel (build_router st) (currentElement (this st));;
     ret (build_router st)) (build_start st).
Proof.
  unfold build, build_router, build_start, bind. by destruct (router (this st)).
Qed.

Lemma build_start_fields st :
  this (build_start st) = this st /\ elements (build_start st) = elements st /\
  events (build_start st) = events st.
Proof. unfold build_start. by destruct (router (this st)). Qed.

Lemma wf_build_start st :
  wf methods st -> wf methods (build_start st) /\
  exists stack0, routers (build_start st) !! build_router st = Some stack0.
Proof.
  intros W. unfold build_start, build_router.
  destruct (router (this st)) as [r|] eqn:Hr.
  - split; [done|]. apply lookup_lt_is_Some_2. by apply (wf_router _ _ W).
  - split.
    + destruct W. split; simpl; try done. by rewrite Hr.
    + exists []. simpl. rewrite lookup_app_r by lia. by rewrite Nat.sub_diag.
Qed.

(** [build] returns on every well-formed builder, with all elements
    visited, and the invariant tells what it did. *)
Lemma build_total chained st :
  wf methods st ->
  (chained -> forall c i e l,
     currentElement (this st) = Some c -> on_path (elements st) c i ->
     elements st !! i = Some e -> lineage (elements st) i l ->
     middlewares e = full_stack (elements st) l) ->
  exists fuel0 stack0 new evs st' el',
    routers (build_start st) !! build_router st = Some stack0 /\
    (forall fuel, fuel0 <= fuel ->
       build methods fuel st = Returns (build_router st) st') /\
    binv methods (build_start st) (build_router st) stack0 chained new evs st' el' /\
    (forall i x, elements st' !! i = Some x -> visited x = true).
Proof.
  intros W Hch. destruct (wf_build_start st W) as [W0 [stack0 Hr0]].
  destruct (build_start_fields st) as (Hthis & Hels & _).
  destruct (wf_cursor _ _ W) as (c & Hc & Hlt).
  destruct (ops_bound_exists (elements (build_start st))) as [B HB].
  set (N := length (elements (build_start st))).
  set (mu := measure (S N) (elements (build_start st)) + c).
  assert (I0 : binv methods (build_start st) (build_router st) stack0 chained [] []
                 (build_start st) c).
  { apply binv_start; [done|done|by rewrite Hels|]. rewrite Hels. intros H i e l.
    by apply (Hch H c). }
  exists (mu + B + N + 2), stack0.
  destruct (build_loop_total (build_start st) (build_router st) stack0 W0 Hr0 chained
              B HB mu [] [] (build_start st) c (mu + B + N + 2) I0)
    as (new & evs & st' & el' & Hrun & I & Hv); [done|done|].
  exists new, evs, st', el'. split_and!; try done.
  intros fuel Hfuel. rewrite build_unfold, Hc. unfold bind.
  assert (E : build_loop methods fuel (build_router st) (Some c) (build_start st)
              = Returns tt st')
    by (by apply (build_loop_mono _ _ _ _ Hfuel _ _ Hrun)).
  by rewrite E.
Qed.

(** Whatever fuel [build] returned with, it returned what [build_total]
    describes. *)
Lemma build_result chained st fuel r st' :
  wf methods st ->
  (chained -> forall c i e l,
     currentElement (this st) = Some c -> on_path (elements st) c i ->
     elements st !! i = Some e -> lineage (elements st) i l ->
     middlewares e = full_stack (elements st) l) ->
  build methods fuel st = Returns r st' ->
  r = build_router st /\
  exists stack0 new evs el',
    routers (build_start st) !! r = Some stack0 /\
    binv methods (build_start st) r stack0 chained new evs st' el' /\
    (forall i x, elements st' !! i = Some x -> visited x = true).
Proof.
  intros W Hch Hrun.
  destruct (build_total chained st W Hch)
    as (fuel0 & stack0 & new & evs & s & el' & Hr0 & Hall & I & Hv).
  destruct (build_fuel _ _ _ _ _ _ _ Hrun (Hall fuel0 (le_n _))) as [-> ->].
  split; [done|]. by exists stack0, new, evs, el'.
Qed.

(** The invariant without any knowledge of the start. *)
Lemma build_result_any st fuel r st' :
  wf methods st -> build methods fuel st = Returns r st' ->
  r = build_router st /\
  exists stack0 new evs el',
    routers (build_start st) !! r = Some stack0 /\
    binv methods (build_start st) r stack0 False new evs st' el' /\
    (forall i x, elements st' !! i = Some x -> visited x = true).
Proof. intros W. by apply build_result. Qed.

(** ** The claims about [build] *)

(** C10. From every state that calls of [path], [end] and the verb methods
    lead to, wherever they left the cursor, [build] returns: its loop
    reaches a state with no current element after finitely many turns. *)
Theorem build_terminates st :
  reachable methods st -> exists fuel r st', build methods fuel st = Returns r st'.
Proof.
  intros W%reachable_wf.
  destruct (build_total False st W) as (fuel0 & _ & _ & _ & st' & _ & _ & Hall & _);
    [by intros []|].
  exists fuel0, (build_router st), st'. by apply Hall.
Qed.

(** C2. The path handed to the router with each operation is the
    concatenation of the fragments of the operation's group, from the root
    down, followed by the operation's own fragment, and nothing else; and
    every operation declared is handed over at that path. *)
Theorem registered_paths st fuel r st' :
  reachable methods st -> build methods fuel st = Returns r st' ->
  exists stack0 new,
    routers (build_start st) !! r = Some stack0 /\
    routers st' !! r = Some (stack0 ++ new) /\
    (forall x, x ∈ new ->
       exists i e l m arr o,
         elements st !! i = Some e /\ lineage (elements st) i l /\ m ∈ methods /\
         verbs e !! m = Some arr /\ o ∈ arr /\ l_verb x = m /\
         l_path x = join ((Some <$> (uri_at (elements st) <$> l)) ++ [op_uri o])) /\
    (forall i e l m arr o,
       elements st !! i = Some e -> lineage (elements st) i l -> m ∈ methods ->
       verbs e !! m = Some arr -> o ∈ arr ->
       exists x, x ∈ new /\ l_verb x = m /\
         l_path x = join ((Some <$> (uri_at (elements st) <$> l)) ++ [op_uri o])).
Proof.
  intros W%reachable_wf Hrun.
  destruct (build_result_any st fuel r st' W Hrun)
    as (-> & stack0 & new & evs & el' & Hr0 & I & Hv).
  destruct (wf_build_start st W) as [W0 _].
  destruct (build_start_fields st) as (_ & Hels & _).
  exists stack0, new. split_and!.
  - done.
  - by eapply binv_stack.
  - intros x Hx.
    destruct (bi_sound _ _ _ _ _ _ _ _ _ I x Hx)
      as (i & e0 & l & m & arr & o & inh & Hi & Hl & Hm & Harr & Ho & ->).
    rewrite Hels in Hi, Hl. exists i, e0, l, m, arr, o.
    split_and!; try done. simpl. unfold group_path. by rewrite Hels.
  - intros i e l m arr o Hi Hl Hm Harr Ho.
    assert (Hi0 : elements (build_start st) !! i = Some e) by (by rewrite Hels).
    destruct (bi_node _ _ _ _ _ _ _ _ _ I i e Hi0) as (e' & He' & Hev).
    destruct (bi_visited _ _ _ _ _ _ _ _ _ I i e' He' (Hv i e' He')) as [_ Hops].
    destruct (bi_block _ _ _ _ _ _ _ _ _ I i e e' m arr Hi0 He' Hm Harr) as [Hin|Hblock].
    + rewrite (Hops m Hm) in Hin. injection Hin as <-. by apply elem_of_nil in Ho.
    + destruct Hblock as (l' & inh & pre & post & Hl' & ->). rewrite Hels in Hl'.
      rewrite (lineage_fun _ _ _ _ Hl' Hl).
      exists (render m (group_path (elements (build_start st)) l) (inh ++ middlewares e) o).
      split; [|by rewrite Hels].
      apply elem_of_app. right. apply elem_of_app. left.
      apply list_elem_of_fmap_2. by apply elem_of_reverse.
Qed.

(** ** A second [build] *)

Lemma set_visited_id e : visited e = true -> set_visited true e = e.
Proof. intros H. unfold set_visited. rewrite <- H. by destruct e. Qed.

(** On a store whose elements are all visited and drained, the loop walks
    from the cursor up to the root and changes nothing. *)
Lemma build_loop_idle r st stack B :
  (forall i x, elements st !! i = Some x ->
     visited x = true /\ children x = [] /\
     forall m, m ∈ methods -> verbs x !! m = Some []) ->
  (forall i x p, elements st !! i = Some x -> parentElement x = Some p -> p < i) ->
  ops_bound (elements st) B -> routers st !! r = Some stack ->
  forall el fuel, el < length (elements st) ->
    el + B + length (elements st) + 2 <= fuel ->
    build_loop methods fuel r (Some el) st = Returns tt st.
Proof.
  intros Hdone Hpar HB Hr el. induction el as [el IH] using lt_wf_ind.
  intros fuel Hel Hfuel. destruct fuel as [|n]; [lia|]. simpl.
  destruct (lookup_lt_is_Some_2 _ _ Hel) as [e He].
  destruct (Hdone el e He) as (Hv & _ & _). unfold bind.
  destruct (parentElement e) as [j|] eqn:Hp.
  2:{ by rewrite (build_step_exit n r el st e He Hv Hp), build_loop_None. }
  pose proof (Hpar el e j He Hp) as Hj.
  assert (Hjlt : j < length (elements st)) by lia.
  destruct (lookup_lt_is_Some_2 _ _ Hjlt) as [ej Hej].
  destruct (Hdone j ej Hej) as (Hvj & Hcj & Hoj).
  destruct (lineage_exists _ Hpar j Hjlt) as (l & Hl & Hlen).
  rewrite (build_step_mark n r el st e j ej stack l He).
  - rewrite (drained_id methods ej Hoj), (set_visited_id ej Hvj).
    rewrite (node_layers_nil _ methods ej Hoj), app_nil_r.
    unfold with_layers, set_elements, set_routers. simpl.
    rewrite (list_insert_id _ _ _ Hr), (list_insert_id _ _ _ Hej), state_eta.
    apply IH; [done|done|lia].
  - by rewrite Hv.
  - done.
  - intros m Hm. rewrite (Hoj m Hm). by eexists.
  - done.
  - done.
  - intros m arr Harr. pose proof (HB j ej m arr Hej Harr). lia.
  - done.
Qed.

(** C5. A second [build], on a builder whose tree a first [build] has
    drained, returns for every large enough fuel and never throws; it
    registers nothing: no router of the store changes, and the router it
    returns is the one the builder was given, or a new and empty one. *)
Theorem second_build st fuel r st1 :
  reachable methods st -> build methods fuel st = Returns r st1 ->
  exists fuel2 r2 st2,
    (forall fuel', fuel2 <= fuel' -> build methods fuel' st1 = Returns r2 st2) /\
    (forall fuel' e, build methods fuel' st1 <> Throws e) /\
    this st2 = this st1 /\ elements st2 = elements st1 /\ events st2 = events st1 /\
    match router (this st) with
    | Some r0 => r2 = r0 /\ r2 = r /\ routers st2 = routers st1
    | None => r2 = length (routers st1) /\ routers st2 = routers st1 ++ [[]]
    end.
Proof.
  intros W%reachable_wf Hrun.
  destruct (build_result_any st fuel r st1 W Hrun)
    as (-> & stack0 & new & evs & el' & Hr0 & I & Hv).
  destruct (wf_build_start st W) as [W0 _].
  destruct (build_start_fields st) as (Hthis0 & Hels0 & _).
  pose proof (bi_this _ _ _ _ _ _ _ _ _ I) as Hthis. rewrite Hthis0 in Hthis.
  destruct (wf_cursor _ _ W) as (c & Hc & Hlt).
  destruct (ops_bound_exists (elements st1)) as [B HB].
  destruct (build_start_fields st1) as (Hthis1 & Hels1 & Hevs1).
  assert (Hstack : exists stack, routers (build_start st1) !! build_router st1 = Some stack).
  { unfold build_start, build_router. rewrite Hthis.
    destruct (router (this st)) as [r0|] eqn:Hr.
    - apply lookup_lt_is_Some_2. rewrite (bi_routers _ _ _ _ _ _ _ _ _ I), length_insert.
      pose proof (wf_router _ _ W0) as Hw. rewrite Hthis0 in Hw. by apply Hw.
    - exists []. simpl. rewrite lookup_app_r by lia. by rewrite Nat.sub_diag. }
  destruct Hstack as [stack Hstack].
  assert (Hidle : forall fuel', c + B + length (elements st1) + 2 <= fuel' ->
            build methods fuel' st1 = Returns (build_router st1) (build_start st1)).
  { intros fuel' Hfuel. rewrite build_unfold. unfold bind. rewrite Hthis, Hc.
    rewrite (build_loop_idle (build_router st1) (build_start st1) stack B); try done.
    - rewrite Hels1. intros i x Hi.
      destruct (bi_visited _ _ _ _ _ _ _ _ _ I i x Hi (Hv i x Hi)) as [? ?]. eauto.
    - rewrite Hels1. intros i x p Hi Hp.
      destruct (binv_back _ _ _ _ _ _ _ _ I i x Hi) as (x0 & Hx0 & Hev).
      rewrite (ev_parent _ _ _ _ Hev) in Hp. by apply (wf_parent_lt _ i x0 p W0).
    - by rewrite Hels1.
    - rewrite Hels1, (bi_len _ _ _ _ _ _ _ _ _ I), Hels0. done.
    - by rewrite Hels1. }
  exists (c + B + length (elements st1) + 2), (build_router st1), (build_start st1).
  split_and!; try done.
  - intros fuel' e He.
    pose proof (build_mono fuel' (fuel' `max` (c + B + length (elements st1) + 2))
                  (Nat.le_max_l _ _) st1 _ He) as E.
    rewrite (Hidle _ (Nat.le_max_r _ _)) in E. by specialize (E ltac:(done)).
  - unfold build_router, build_start. rewrite Hthis.
    by destruct (router (this st)).
Qed.

(** ** Every state of a builder *)

Lemma wf_bound st : wf methods st -> bound methods st.
Proof.
  intros W. split.
  - apply W.
  - apply (wf_cursor _ _ W).
  - intros i e p. by apply wf_parent_lt.
  - apply (wf_verbs _ _ W).
Qed.

Lemma bound_ApiBuilder r rs : bound methods (ApiBuilder methods r rs).
Proof.
  split; simpl.
  - done.
  - exists 0. split; [done|lia].
  - intros [|i] e p; [by intros [= <-]|done].
  - intros [|i] e m; [intros [= <-] Hm|done].
    rewrite (createPathElement_verbs None "" [] m Hm). by eexists.
Qed.

Lemma bound_assign c e e' st :
  bound methods st -> elements st !! c = Some e ->
  parentElement e' = parentElement e ->
  (forall m, is_Some (verbs e !! m) -> is_Some (verbs e' !! m)) ->
  bound methods (set_elements (<[c := e']> (elements st)) st).
Proof.
  intros B Hc Hp Hk. split; simpl.
  - apply B.
  - destruct (bd_cursor _ _ B) as (k & ? & ?). exists k. by rewrite length_insert.
  - intros i x p [(<- & <- & _)|(Hne & Hi)]%list_lookup_insert_Some.
    + rewrite Hp. by apply (bd_parent _ _ B).
    + by apply (bd_parent _ _ B).
  - intros i x m [(<- & <- & _)|(Hne & Hi)]%list_lookup_insert_Some Hm.
    + apply Hk. by apply (bd_verbs _ _ B c e).
    + by apply (bd_verbs _ _ B i x).
Qed.

Lemma bound_routers rs st : bound methods st -> bound methods (set_routers rs st).
Proof. intros B. by destruct B. Qed.

Lemma bound_emit ev st : bound methods st -> bound methods (emit ev st) /\ extends st (emit ev st).
Proof.
  intros B. split; [by destruct B|].
  split; simpl; try done; [naive_solver|by eexists].
Qed.

(** A verb method on a builder pushes one operation on the array of its
    verb at the current element. *)
Lemma verb_at st m a mws :
  bound methods st -> m ∈ methods ->
  exists c e arr,
    currentElement (this st) = Some c /\ elements st !! c = Some e /\
    verbs e !! m = Some arr /\
    verb m a mws st = Returns tt (set_elements
      (<[c := set_verb m (arr ++ [Op (verb_arguments a mws).1 (verb_arguments a mws).2]) e]>
         (elements st)) st).
Proof.
  intros B Hm. destruct (bd_cursor _ _ B) as (c & Hc & Hlt).
  destruct (lookup_lt_is_Some_2 _ _ Hlt) as [e He].
  destruct (bd_verbs _ _ B c e m He Hm) as [arr Harr].
  exists c, e, arr. split_and!; try done.
  unfold verb. rewrite (bd_builder _ _ B). simpl.
  destruct (verb_arguments a mws) as [u ms]. rewrite Hc.
  unfold bind. rewrite (deref_Returns _ _ _ He). by rewrite Harr.
Qed.

Lemma verb_keeps st st' m a mws :
  bound methods st -> m ∈ methods -> verb m a mws st = Returns tt st' ->
  bound methods st' /\ extends st st'.
Proof.
  intros B Hm Hrun. destruct (verb_at st m a mws B Hm) as (c & e & arr & Hc & He & Harr & Heq).
  rewrite Heq in Hrun. injection Hrun as <-. split.
  - apply (bound_assign c e _ st B He); [done|].
    intros m' Hs. simpl.
    destruct (decide (m = m')) as [->|Hne];
      [rewrite lookup_insert_eq; by eexists | by rewrite lookup_insert_ne].
  - by eapply extends_assign.
Qed.

Lemma end_at st :
  bound methods st ->
  exists c e, currentElement (this st) = Some c /\ elements st !! c = Some e /\
    end_ st = Returns tt
      match parentElement e with
      | Some p => set_this (set_currentElement (Some p) (this st)) st
      | None => st
      end.
Proof.
  intros B. destruct (bd_cursor _ _ B) as (c & Hc & Hlt).
  destruct (lookup_lt_is_Some_2 _ _ Hlt) as [e He].
  exists c, e. split_and!; try done.
  unfold end_. rewrite Hc. unfold bind. rewrite (deref_Returns _ _ _ He).
  by destruct (parentElement e).
Qed.

Lemma end_keeps st st' :
  bound methods st -> end_ st = Returns tt st' -> bound methods st' /\ extends st st'.
Proof.
  intros B Hrun. destruct (end_at st B) as (c & e & Hc & He & Heq).
  rewrite Heq in Hrun. injection Hrun as <-.
  destruct (parentElement e) as [p|] eqn:Hp; [|split; [done|apply extends_refl]].
  pose proof (bd_parent _ _ B c e p He Hp) as Hlt.
  split.
  - destruct B. split; simpl; try done.
    exists p. split; [done|]. apply lookup_lt_Some in He. lia.
  - split; simpl; try done; [naive_solver|exists []; by rewrite app_nil_r].
Qed.

(** The state in which [path] looks at its handler. *)
Lemma entered_keeps u mws st :
  bound methods st ->
  bound methods (entered methods u mws st) /\ extends st (entered methods u mws st).
Proof.
  intros B. destruct (bd_cursor _ _ B) as (c & Hc & Hlt).
  destruct (lookup_lt_is_Some_2 _ _ Hlt) as [e He].
  unfold entered. rewrite Hc, He.
  set (n := length (elements st)).
  set (new := createPathElement methods (Some c) u mws).
  set (e' := set_children (children e ++ [n]) e).
  assert (L : forall i x, <[c := e']> (elements st ++ [new]) !! i = Some x ->
            (i = c /\ x = e') \/ (i = n /\ x = new) \/
            (i <> c /\ i <> n /\ elements st !! i = Some x)).
  { intros i x [(<- & <- & _)|(Hne & Hi)]%list_lookup_insert_Some; [by left|right].
    apply lookup_app_Some in Hi as [Hi|(Hge & Hi)].
    - right. split_and!; try done. apply lookup_lt_Some in Hi. unfold n. lia.
    - left. apply list_lookup_singleton_Some in Hi as [Hi <-]. unfold n. split; [lia|done]. }
  split; [split; simpl|].
  - apply B.
  - exists n. split; [done|]. rewrite length_insert, length_app. simpl. unfold n. lia.
  - intros i x p Hi Hp. destruct (L i x Hi) as [(-> & ->)|[(-> & ->)|(_ & _ & Hi0)]].
    + by apply (bd_parent _ _ B c e p).
    + simpl in Hp. injection Hp as <-. done.
    + by apply (bd_parent _ _ B i x p).
  - intros i x m Hi Hm. destruct (L i x Hi) as [(-> & ->)|[(-> & ->)|(_ & _ & Hi0)]].
    + by apply (bd_verbs _ _ B c e).
    + unfold new. rewrite (createPathElement_verbs (Some c) u mws m Hm). by eexists.
    + by apply (bd_verbs _ _ B i x).
  - split; simpl; try done; [|exists []; by rewrite app_nil_r].
    intros i x0 Hi. destruct (decide (i = c)) as [->|Hne].
    + exists e'. rewrite list_lookup_insert_eq by (rewrite length_app; simpl; lia).
      assert (x0 = e) as -> by congruence. done.
    + exists x0. rewrite list_lookup_insert_ne by done.
      rewrite lookup_app_l by (by eapply lookup_lt_Some). done.
Qed.

Lemma entered_at st u mws c :
  bound methods st -> currentElement (this st) = Some c ->
  currentElement (this (entered methods u mws st)) = Some (length (elements st)) /\
  elements (entered methods u mws st) !! length (elements st)
    = Some (createPathElement methods (Some c) u mws).
Proof.
  intros B Hc. destruct (bd_cursor _ _ B) as (c' & Hc' & Hlt).
  assert (c' = c) as -> by congruence.
  destruct (lookup_lt_is_Some_2 _ _ Hlt) as [e He].
  unfold entered. rewrite Hc, He. simpl. split; [done|].
  rewrite list_lookup_insert_ne by lia.
  rewrite lookup_app_r by lia. by rewrite Nat.sub_diag.
Qed.

(** [path] keeps a builder a builder when its handler does. *)
Lemma path_keeps inv a mws st st' :
  (forall h s s', bound methods s -> inv h s = Returns tt s' ->
     bound methods s' /\ extends s s') ->
  bound methods st -> path methods inv a mws st = Returns tt st' ->
  bound methods st' /\ extends st st'.
Proof.
  intros Hinv B. rewrite path_unfold.
  2:{ intros c Hc. destruct (bd_cursor _ _ B) as (c' & Hc' & ?). congruence. }
  destruct (pop _) as [[h rest]|].
  - intros ([] & s1 & Hh & He)%bind_inv.
    destruct (entered_keeps (path_arguments a mws).1 rest st B) as [B1 E1].
    destruct (bound_emit (Invoked (fn_ident h) (Some (length (elements st)))) _ B1) as [B2 E2].
    destruct (Hinv _ _ _ B2 Hh) as [B3 E3].
    rewrite (this_end_builder _ (bd_builder _ _ B3)) in He.
    destruct (end_keeps _ _ B3 He) as [B4 E4].
    split; [done|]. eauto using extends_trans.
  - intros [= <-]. by apply entered_keeps.
Qed.

Lemma call_keeps inv s st st' :
  (forall h s s', bound methods s -> inv h s = Returns tt s' ->
     bound methods s' /\ extends s s') ->
  bound methods st -> call methods inv s st = Returns tt st' ->
  bound methods st' /\ extends st st'.
Proof.
  intros Hinv B. destruct s as [name a mws|a mws| |]; simpl; rewrite ?(bd_builder _ _ B).
  - destruct (prototype methods name) as [m|] eqn:Hm; [|done].
    apply verb_keeps; [done|by eapply prototype_methods].
  - by apply path_keeps.
  - by apply end_keeps.
  - done.
Qed.

Lemma run_keeps fuel : forall body st st',
  bound methods st -> run methods fuel body st = Returns tt st' ->
  bound methods st' /\ extends st st'.
Proof.
  induction fuel as [|n IH]; intros body st st' B; simpl; [done|].
  revert st B. induction body as [|s body IHb]; intros st B; simpl.
  - intros [= <-]. split; [done|apply extends_refl].
  - intros ([] & s1 & Hs & Hrest)%bind_inv.
    destruct (call_keeps _ s st s1 (fun h => IH (fn_body h)) B Hs) as [B1 E1].
    destruct (IHb s1 B1 Hrest) as [B2 E2].
    split; [done|]. by eapply extends_trans.
Qed.

Lemma deref_inv i st e st' :
  deref i st = Returns e st' -> st' = st /\ elements st !! i = Some e.
Proof. unfold deref. destruct (elements st !! i); naive_solver. Qed.

(** [build] keeps a builder a builder, whatever state it starts in. *)
Lemma drain_keeps m r j : forall fuel st st',
  bound methods st -> drain fuel m r j st = Returns tt st' -> bound methods st'.
Proof.
  induction fuel as [|n IH]; intros st st' B; simpl; [done|].
  intros (e & s1 & [-> He]%deref_inv & H)%bind_inv.
  destruct (verbs e !! m) as [arr|] eqn:Harr; [|done].
  destruct (pop arr) as [[o rest]|]; [|by injection H as <-].
  apply bind_inv in H as ([] & s2 & Ha & H). injection Ha as <-.
  apply bind_inv in H as (u & s3 & Hu & H).
  assert (s3 = set_elements (<[j:=set_verb m rest e]> (elements st)) st) as ->.
  { unfold mountUri in Hu. destruct (mountUri_loop _ _ _ _) as [[p|]|]; naive_solver. }
  apply bind_inv in H as (e1 & s4 & [-> He1]%deref_inv & H).
  apply bind_inv in H as ([] & s5 & Hr & H).
  assert (B5 : bound methods s5).
  { unfold register in Hr. destruct (routers _ !! r) as [stack|]; [|done].
    injection Hr as <-. apply bound_routers.
    apply (bound_assign j e _ st B He); [done|].
    intros m' Hs. simpl.
    destruct (decide (m = m')) as [->|Hne];
      [rewrite lookup_insert_eq; by eexists | by rewrite lookup_insert_ne]. }
  by apply (IH s5 st').
Qed.

Lemma drain_methods_keeps r j fuel : forall ms st st',
  bound methods st -> drain_methods fuel ms r j st = Returns tt st' -> bound methods st'.
Proof.
  induction ms as [|m ms IH]; intros st st' B; simpl.
  - by intros [= <-].
  - intros ([] & s1 & Hd & H)%bind_inv.
    apply (IH s1 st'); [|done]. by apply (drain_keeps m r j fuel st s1).
Qed.

Lemma build_step_keeps fuel r el st next st' :
  bound methods st -> build_step methods fuel r el st = Returns next st' -> bound methods st'.
Proof.
  intros B. unfold build_step.
  intros (e & s1 & [-> He]%deref_inv & H)%bind_inv.
  destruct (if visited e then parentElement e else Some el) as [j|]; [|by injection H as _ <-].
  apply bind_inv in H as ([] & s2 & Hdr & H).
  pose proof (drain_methods_keeps r j fuel methods st s2 B Hdr) as B2.
  apply bind_inv in H as (ej & s3 & [-> Hej]%deref_inv & H).
  destruct (pop (children ej)) as [[c rest]|].
  - apply bind_inv in H as ([] & s4 & Ha & H). injection Ha as <-.
    pose proof (bound_assign j ej (set_children rest ej) s2 B2 Hej eq_refl
                  (fun m H => H)) as B4.
    apply bind_inv in H as (ej1 & s5 & [-> Hej1]%deref_inv & H).
    apply bind_inv in H as (ec & s6 & [-> Hec]%deref_inv & H).
    apply bind_inv in H as ([] & s7 & Ha & H). injection Ha as <-.
    apply bind_inv in H as ([] & s8 & Hm & H). injection Hm as <-. injection H as _ <-.
    apply bound_emit.
    by apply (bound_assign c ec _ _ B4 Hec).
  - apply bind_inv in H as ([] & s4 & Ha & H). injection Ha as <-. injection H as _ <-.
    by apply (bound_assign j ej _ s2 B2 Hej).
Qed.

Lemma build_loop_bound r : forall fuel el st st',
  bound methods st -> build_loop methods fuel r el st = Returns tt st' -> bound methods st'.
Proof.
  induction fuel as [|n IH]; intros [i|] st st' B; simpl; try done;
    try (by intros [= <-]).
  intros (next & s1 & Hs & H)%bind_inv.
  apply (IH next s1 st'); [|done]. by apply (build_step_keeps n r i st next s1).
Qed.

Lemma build_bound fuel st r st' :
  bound methods st -> build methods fuel st = Returns r st' -> bound methods st'.
Proof.
  intros B. unfold build.
  intros (r0 & s1 & Hr & H)%bind_inv.
  apply bind_inv in H as ([] & s2 & Hl & H). injection H as _ <-.
  apply (build_loop_bound r0 fuel (currentElement (this st)) s1 s2); [|done].
  destruct (router (this st)); injection Hr as _ <-; [done|by apply bound_routers].
Qed.

(** Every state of a builder is one. *)
Lemma live_bound st : live methods st -> bound methods st.
Proof.
  induction 1 as [r rs|st fuel s st' _ B Hs|st a mws h rest _ B Hargs|st fuel r st' _ B Hb].
  - apply bound_ApiBuilder.
  - by destruct (call_keeps _ s st st' (fun h => run_keeps fuel (fn_body h)) B Hs).
  - apply bound_emit. by apply entered_keeps.
  - by apply (build_bound fuel st r st').
Qed.

Lemma run_live fuel : forall body st st',
  live methods st -> run methods fuel body st = Returns tt st' -> live methods st'.
Proof.
  destruct fuel as [|n]; intros body st st' L; simpl; [done|].
  revert st L. induction body as [|s body IHb]; intros st L; simpl.
  - by intros [= <-].
  - intros ([] & s1 & Hs & Hrest)%bind_inv.
    apply (IHb s1); [|done]. by apply (live_call methods st n s s1).
Qed.

(** What a caller gets a builder into is among them. *)
Lemma reachable_live st : reachable methods st -> live methods st.
Proof.
  intros (r & rs & fuel & script & _ & Hrun).
  apply (run_live fuel script _ _ (live_new methods r rs) Hrun).
Qed.

(** ** The claims about construction *)

(** C8. A verb method whose first argument is a function records an
    operation with the empty fragment and the function at the head of its
    middlewares, so that [mountUri] gives it the path of the group itself;
    and a verb method called with no fragment, or with nothing at all,
    returns. This holds in every state of a builder: inside callbacks, at
    any depth, and after [build]. *)
Theorem verb_without_fragment st inv name m f mws :
  live methods st -> prototype methods name = Some m ->
  exists c e arr st',
    currentElement (this st) = Some c /\ elements st !! c = Some e /\
    verbs e !! m = Some arr /\
    call methods inv (CallVerb name (Fun f) mws) st = Returns tt st' /\
    st' = set_elements
            (<[c := set_verb m (arr ++ [Op (Some "") (f :: mws)]) e]> (elements st)) st /\
    (forall l fuel, lineage (elements st) c l -> length l <= fuel ->
       mountUri fuel c (Op (Some "") (f :: mws)) st'
       = Returns (join (Some <$> (uri_at (elements st) <$> l))) st') /\
    exists st'', call methods inv (CallVerb name Absent mws) st = Returns tt st''.
Proof.
  intros B%live_bound Hname. pose proof (prototype_methods _ _ Hname) as Hm.
  destruct (verb_at st m (Fun f) mws B Hm) as (c & e & arr & Hc & He & Harr & Hrun).
  destruct (verb_at st m Absent mws B Hm) as (c' & e' & arr' & _ & _ & _ & Hrun').
  exists c, e, arr, (set_elements
    (<[c := set_verb m (arr ++ [Op (Some "") (f :: mws)]) e]> (elements st)) st).
  split_and!; [done|done|done| |done| |].
  - simpl. by rewrite (bd_builder _ _ B), Hname.
  - intros l fuel Hl Hfuel.
    assert (Hlinks : same_links (elements st)
              (<[c := set_verb m (arr ++ [Op (Some "") (f :: mws)]) e]> (elements st)))
      by (by apply (same_links_insert _ _ e)).
    rewrite (mountUri_lineage fuel c l); [|by apply (lineage_links _ _ _ _ Hlinks)|done].
    simpl. rewrite <- (group_path_links _ _ l Hlinks). unfold group_path.
    rewrite join_app. simpl. by rewrite append_nil_r.
  - eexists. simpl. by rewrite (bd_builder _ _ B), Hname.
Qed.

(** [path] with a trailing function, in closed form. *)
Lemma path_handler st fuel a mws h rest :
  bound methods st -> (path_arguments a mws).2 = rest ++ [h] ->
  path methods (invoke methods fuel) a mws st =
    (invoke methods fuel h;; end_)
      (emit (Invoked (fn_ident h) (Some (length (elements st))))
         (entered methods (path_arguments a mws).1 rest st)).
Proof.
  intros B Hargs. rewrite path_unfold.
  2:{ intros c Hc. destruct (bd_cursor _ _ B) as (c' & Hc' & ?). congruence. }
  rewrite Hargs, pop_snoc. unfold bind.
  destruct (invoke methods fuel h _) as [[] s2| | |] eqn:Hinv; try done.
  apply this_end_builder.
  destruct (entered_keeps (path_arguments a mws).1 rest st B) as [B1 _].
  destruct (bound_emit (Invoked (fn_ident h) (Some (length (elements st)))) _ B1) as [B2 _].
  destruct (run_keeps fuel (fn_body h) _ s2 B2 Hinv) as [B3 _]. apply B3.
Qed.

Lemma entered_new st u mws c :
  wf methods st -> currentElement (this st) = Some c ->
  currentElement (this (entered methods u mws st)) = Some (length (elements st)) /\
  elements (entered methods u mws st) !! length (elements st)
    = Some (createPathElement methods (Some c) u mws).
Proof. intros W. apply entered_at. by apply wf_bound. Qed.

(** C3, as the code has it. The trailing function of [path] is called at
    once, with the cursor on the new child. When it returns, [path] calls
    [end] once: the cursor goes from the element the callback left current
    to its parent, which is the element that was current before the call
    of [path] whenever the callback left the cursor on the new child. This
    holds for a call of [path] in every state of a builder: inside
    callbacks, at any depth, and after [build]. *)
Theorem path_callback st fuel a mws h rest c st2 :
  live methods st -> currentElement (this st) = Some c ->
  (path_arguments a mws).2 = rest ++ [h] ->
  invoke methods fuel h
    (emit (Invoked (fn_ident h) (Some (length (elements st))))
       (entered methods (path_arguments a mws).1 rest st)) = Returns tt st2 ->
  currentElement (this (entered methods (path_arguments a mws).1 rest st))
    = Some (length (elements st)) /\
  (parentElement <$> elements (entered methods (path_arguments a mws).1 rest st)
                       !! length (elements st)) = Some (Some c) /\
  exists st3,
    path methods (invoke methods fuel) a mws st = Returns tt st3 /\
    end_ st2 = Returns tt st3 /\
    Invoked (fn_ident h) (Some (length (elements st))) ∈ events st3 /\
    (currentElement (this st2) = Some (length (elements st)) ->
     currentElement (this st3) = Some c).
Proof.
  intros B%live_bound Hc Hargs Hinv.
  destruct (entered_at st (path_arguments a mws).1 rest c B Hc) as [Hcur Hnew].
  split; [done|]. split; [by rewrite Hnew|].
  destruct (entered_keeps (path_arguments a mws).1 rest st B) as [B1 E1].
  destruct (bound_emit (Invoked (fn_ident h) (Some (length (elements st)))) _ B1) as [B1' E1'].
  destruct (run_keeps fuel (fn_body h) _ _ B1' Hinv) as [B2 E2].
  destruct (end_at st2 B2) as (c2 & e2 & Hc2 & He2 & Hend).
  eexists. split_and!.
  - rewrite (path_handler st fuel a mws h rest B Hargs). unfold bind.
    rewrite Hinv. exact Hend.
  - exact Hend.
  - destruct (ext_events _ _ E2) as [evs Hevs].
    assert (Hin : Invoked (fn_ident h) (Some (length (elements st))) ∈ events st2).
    { rewrite Hevs. simpl. rewrite !elem_of_app. left. right.
      by apply list_elem_of_singleton. }
    by destruct (parentElement e2).
  - intros Hback. assert (c2 = length (elements st)) as -> by congruence.
    destruct (ext_node _ _ E2 (length (elements st))
                (createPathElement methods (Some c) (path_arguments a mws).1 rest))
      as (e' & He' & _ & Hp & _); [done|].
    assert (e' = e2) as -> by congruence. rewrite Hp. done.
Qed.

(** C4, as the code has it. [path] takes the last of its function
    arguments off the list and calls it, whatever it is: the new element
    holds the functions before it. With no function argument nothing is
    called. This holds for a call of [path] in every state of a builder:
    inside callbacks, at any depth, and after [build]. *)
Theorem path_trailing_function st fuel a mws :
  live methods st ->
  exists c,
    currentElement (this st) = Some c /\
    (forall h rest, (path_arguments a mws).2 = rest ++ [h] ->
       elements (entered methods (path_arguments a mws).1 rest st) !! length (elements st)
         = Some (createPathElement methods (Some c) (path_arguments a mws).1 rest) /\
       path methods (invoke methods fuel) a mws st =
         (invoke methods fuel h;; end_)
           (emit (Invoked (fn_ident h) (Some (length (elements st))))
              (entered methods (path_arguments a mws).1 rest st))) /\
    ((path_arguments a mws).2 = [] ->
       path methods (invoke methods fuel) a mws st
         = Returns tt (entered methods (path_arguments a mws).1 [] st) /\
       events (entered methods (path_arguments a mws).1 [] st) = events st).
Proof.
  intros B%live_bound. destruct (bd_cursor _ _ B) as (c & Hc & Hlt).
  exists c. split_and!; [done| |].
  - intros h rest Hargs. split.
    + by apply entered_at.
    + by apply path_handler.
  - intros Hargs. rewrite path_unfold.
    + by rewrite Hargs, pop_nil.
    + intros c' Hc'. congruence.
Qed.

(** A verb method called on anything but a builder throws. *)
Lemma verb_unbound st m a mws :
  instanceofApiBuilder (this st) = false ->
  verb m a mws st = Throws (Error "don't destructure the builder").
Proof. intros H. unfold verb. by rewrite H. Qed.

(** [path] has no such test: on a receiver that is no builder and has no
    [currentElement] it makes an element without a parent, stores it in the
    receiver and returns. *)
Lemma path_unbound inv u st :
  currentElement (this st) = None ->
  path methods inv (Str u) [] st = Returns tt (entered methods u [] st).
Proof.
  intros H. rewrite path_unfold; [done|]. intros c Hc. congruence.
Qed.

(** ** Where the whole chain is inherited *)

(** When nothing above [c] declares a middleware, [c] and the elements
    above it hold what their lineages declare. *)
Lemma start_chained st c :
  wf methods st ->
  (forall i e, on_path (elements st) c i -> i <> c -> elements st !! i = Some e ->
     middlewares e = []) ->
  forall i l, lineage (elements st) i l ->
  forall e, on_path (elements st) c i -> elements st !! i = Some e ->
    middlewares e = full_stack (elements st) l.
Proof.
  intros W Hnone i l. induction 1 as [i e0 Hi Hp|i e0 p l Hi Hp Hl IH]; intros e Hon He.
  - unfold full_stack, middlewares_at. simpl. rewrite He. simpl. by rewrite app_nil_r.
  - rewrite full_stack_snoc. unfold middlewares_at at 1. rewrite He. simpl.
    assert (Hpc : on_path (elements st) c p).
    { apply (on_path_trans _ c i p Hon). apply (on_path_up _ i e0 p p Hi Hp).
      apply on_path_here. }
    pose proof (wf_parent_lt _ i e0 p W Hi Hp) as Hlt.
    pose proof (on_path_le _ _ _ (fun i e p => wf_parent_lt _ i e p W) Hon) as Hle.
    destruct (lineage_inv _ _ _ Hl) as (ep & Hep & _).
    rewrite <- (IH ep Hpc Hep). rewrite (Hnone p ep Hpc) by (done || lia). done.
Qed.

(** C1 where it holds. When no element above the cursor's element declares
    a middleware, as when the cursor is on the root, the stack handed to
    the router with each operation is the concatenation, from the root
    down, of the lists declared along the lineage of the operation's
    element, followed by the operation's own middlewares. *)
Theorem inherited_chain st fuel r st' c :
  reachable methods st -> currentElement (this st) = Some c ->
  (forall i e, on_path (elements st) c i -> i <> c -> elements st !! i = Some e ->
     middlewares e = []) ->
  build methods fuel st = Returns r st' ->
  exists stack0 new,
    routers (build_start st) !! r = Some stack0 /\
    routers st' !! r = Some (stack0 ++ new) /\
    forall x, x ∈ new ->
      exists i e l m arr o,
        elements st !! i = Some e /\ lineage (elements st) i l /\ m ∈ methods /\
        verbs e !! m = Some arr /\ o ∈ arr /\ l_verb x = m /\
        l_stack x = concat (middlewares_at (elements st) <$> l) ++ op_middlewares o.
Proof.
  intros W%reachable_wf Hc Hnone Hrun.
  destruct (build_result True st fuel r st' W) as (-> & stack0 & new & evs & el' & Hr0 & I & Hv).
  { intros _ c' i e l Hc' Hon Hi Hl. assert (c' = c) as -> by congruence.
    by apply (start_chained st c W Hnone i l Hl e). }
  { done. }
  destruct (build_start_fields st) as (_ & Hels & _).
  exists stack0, new. split_and!; [done|by eapply binv_stack|].
  intros x Hx.
  destruct (bi_full _ _ _ _ _ _ _ _ _ I ltac:(done) x Hx)
    as (i & e0 & l & m & arr & o & Hi & Hl & Hm & Harr & Ho & ->).
  rewrite Hels in Hi, Hl. exists i, e0, l, m, arr, o.
  split_and!; try done. simpl. unfold full_stack. by rewrite Hels.
Qed.

End Properties.

(** * Further properties *)

Section Shape.

Variable methods : list string.

(** ** The shape of the tree *)

(** X2. In every state that calls of [path], [end] and the verb methods
    lead to: the element at address 0 is the root, without a parent, with
    the empty fragment and no middleware; the cursor is on an element of
    the store; no element is visited; every other element has a parent,
    created before it, that holds it among its children; every child of an
    element is in the store, created after it, with that element as its
    parent; and no element is twice among the children of another. *)
Theorem tree_shape st :
  reachable methods st ->
  (exists e0, elements st !! 0 = Some e0 /\ parentElement e0 = None /\ uri e0 = "" /\
     middlewares e0 = []) /\
  (exists c, currentElement (this st) = Some c /\ c < length (elements st)) /\
  (forall i e, elements st !! i = Some e -> visited e = false) /\
  (forall i e, elements st !! i = Some e -> 0 < i ->
     exists p ep, parentElement e = Some p /\ p < i /\
       elements st !! p = Some ep /\ i ∈ children ep) /\
  (forall p ep c, elements st !! p = Some ep -> c ∈ children ep ->
     p < c /\ exists ec, elements st !! c = Some ec /\ parentElement ec = Some p) /\
  (forall p ep, elements st !! p = Some ep -> NoDup (children ep)).
Proof.
  intros (r & rs & fuel & script & Hr & Hrun).
  destruct (run_ok methods fuel script _ _ (wf_ApiBuilder methods r rs Hr) Hrun) as [W E].
  split_and!.
  - destruct (ext_node _ _ E 0 (createPathElement methods None "" []) eq_refl)
      as (e0 & He0 & Hu & Hp & Hm & _).
    by exists e0.
  - apply (wf_cursor _ _ W).
  - apply (wf_visited _ _ W).
  - intros i e Hi Hpos. pose proof (wf_parent _ _ W i e Hi) as Hp.
    destruct (parentElement e) as [p|] eqn:Hpe; [|lia].
    destruct (wf_linked _ _ W i e p Hi Hpe) as (ep & Hep & Hin).
    by exists p, ep.
  - intros p ep c Hp Hin.
    destruct (wf_children _ _ W p ep c Hp Hin) as (ec & Hec & Hpar).
    split; [by apply (wf_parent_lt methods st c ec p W)|by exists ec].
  - apply (wf_nodup _ _ W).
Qed.

(** ** Relations that every run keeps *)

(** A relation that holds across each method holds across every run. *)
Lemma run_rel (R : state -> state -> Prop) :
  (forall st, R st st) ->
  (forall a b c, R a b -> R b c -> R a c) ->
  (forall st m a mws st', bound methods st -> m ∈ methods ->
     verb m a mws st = Returns tt st' -> R st st') ->
  (forall st st', bound methods st -> end_ st = Returns tt st' -> R st st') ->
  (forall st u mws, bound methods st -> R st (entered methods u mws st)) ->
  (forall st ev, R st (emit ev st)) ->
  forall fuel body st st',
    bound methods st -> run methods fuel body st = Returns tt st' -> R st st'.
Proof.
  intros Hrefl Htrans Hverb Hend Henter Hemit.
  induction fuel as [|n IH]; intros body st st' W; simpl; [done|].
  revert st W. induction body as [|s body IHb]; intros st W; simpl.
  - by intros [= <-].
  - intros ([] & s1 & Hs & Hrest)%bind_inv.
    assert (Hinv : forall h s s', bound methods s ->
              run methods n (fn_body h) s = Returns tt s' ->
              bound methods s' /\ extends s s')
      by (intros h; apply (run_keeps methods n)).
    destruct (call_keeps methods _ s st s1 Hinv W Hs) as [W1 _].
    apply (Htrans _ s1); [|by apply IHb].
    destruct s as [name a mws|a mws| |]; simpl in Hs; rewrite ?(bd_builder _ _ W) in Hs.
    + destruct (prototype methods name) as [m|] eqn:Hm; [|done].
      apply (Hverb st m a mws); [done|by eapply prototype_methods|done].
    + rewrite path_unfold in Hs.
      2:{ intros c Hc. destruct (bd_cursor _ _ W) as (c' & Hc' & ?). congruence. }
      destruct (entered_keeps methods (path_arguments a mws).1
                  (match pop (path_arguments a mws).2 with
                   | Some (_, rest) => rest | None => (path_arguments a mws).2 end) st W)
        as [We _].
      destruct (pop (path_arguments a mws).2) as [[h rest]|].
      * apply bind_inv in Hs as ([] & s2 & Hh & He).
        destruct (bound_emit methods (Invoked (fn_ident h) (Some (length (elements st)))) _ We)
          as [We' _].
        destruct (Hinv h _ _ We' Hh) as [W2 _].
        rewrite (this_end_builder _ (bd_builder _ _ W2)) in He.
        apply (Htrans _ (entered methods (path_arguments a mws).1 rest st)); [by apply Henter|].
        apply (Htrans _ (emit (Invoked (fn_ident h) (Some (length (elements st))))
                           (entered methods (path_arguments a mws).1 rest st))); [apply Hemit|].
        apply (Htrans _ s2); [by apply (IH (fn_body h))|by apply Hend].
      * injection Hs as <-. by apply Henter.
    + by apply Hend.
    + done.
Qed.

Lemma grows_refl st : grows st st.
Proof. intros i e Hi. exists e. split_and!; [done|done|]. intros m arr ?. by exists arr. Qed.

Lemma grows_trans a b c : grows a b -> grows b c -> grows a c.
Proof.
  intros H1 H2 i e Hi. destruct (H1 i e Hi) as (e1 & Hi1 & Hc1 & Hv1).
  destruct (H2 i e1 Hi1) as (e2 & Hi2 & Hc2 & Hv2).
  exists e2. split_and!; [done|by etrans|].
  intros m arr Harr. destruct (Hv1 m arr Harr) as (arr1 & Harr1 & Hp1).
  destruct (Hv2 m arr1 Harr1) as (arr2 & Harr2 & Hp2).
  exists arr2. split; [done|by etrans].
Qed.

Lemma grows_assign st c e e' :
  elements st !! c = Some e -> children e `prefix_of` children e' ->
  (forall m arr, verbs e !! m = Some arr ->
     exists arr', verbs e' !! m = Some arr' /\ arr `prefix_of` arr') ->
  grows st (set_elements (<[c := e']> (elements st)) st).
Proof.
  intros Hc Hch Hv i x Hi. simpl. destruct (decide (i = c)) as [->|Hne].
  - exists e'. rewrite list_lookup_insert_eq by (by eapply lookup_lt_Some).
    assert (x = e) as -> by congruence. done.
  - exists x. rewrite list_lookup_insert_ne by done. split_and!; [done|done|].
    intros m arr ?. by exists arr.
Qed.

Lemma grows_run fuel body st st' :
  bound methods st -> run methods fuel body st = Returns tt st' -> grows st st'.
Proof.
  apply (run_rel grows).
  - apply grows_refl.
  - apply grows_trans.
  - intros s m a mws s' W Hm Hrun.
    destruct (verb_at methods s m a mws W Hm) as (c & e & arr & Hc & He & Harr & Heq).
    rewrite Heq in Hrun. injection Hrun as <-.
    apply (grows_assign s c e); [done|done|].
    intros m' arr' Harr'. simpl. destruct (decide (m = m')) as [->|Hne].
    + rewrite lookup_insert_eq. eexists. split; [done|].
      assert (arr' = arr) as -> by congruence. by apply prefix_app_r.
    + rewrite lookup_insert_ne by done. by exists arr'.
  - intros s s' W Hrun. destruct (end_at methods s W) as (c & e & Hc & He & Heq).
    rewrite Heq in Hrun. injection Hrun as <-.
    destruct (parentElement e); [|apply grows_refl].
    intros i x Hi. exists x. split_and!; [done|done|]. intros m arr ?. by exists arr.
  - intros s u mws W. destruct (bd_cursor _ _ W) as (c & Hc & Hlt).
    destruct (lookup_lt_is_Some_2 _ _ Hlt) as [e He].
    intros i x Hi. unfold entered. rewrite Hc, He. simpl.
    destruct (decide (i = c)) as [->|Hne].
    + eexists. rewrite list_lookup_insert_eq by (rewrite length_app; simpl; lia).
      assert (x = e) as -> by congruence. split_and!; [done|by apply prefix_app_r|].
      intros m arr ?. by exists arr.
    + exists x. rewrite list_lookup_insert_ne by done.
      rewrite lookup_app_l by (by eapply lookup_lt_Some).
      split_and!; [done|done|]. intros m arr ?. by exists arr.
  - intros s ev i x Hi. exists x. split_and!; [done|done|]. intros m arr ?. by exists arr.
Qed.

(** X3. Declarations are only ever added, and at the end: whatever calls
    of [path], [end] and the verb methods follow, callbacks included, each
    element keeps its fragment and its parent, the children it had stay
    the first of its children, in their order, and the operations it had
    for a verb stay the first of that verb's, in their order. *)
Theorem declarations_append_only st fuel body st' :
  reachable methods st -> run methods fuel body st = Returns tt st' ->
  forall i e, elements st !! i = Some e ->
    exists e', elements st' !! i = Some e' /\
      uri e' = uri e /\ parentElement e' = parentElement e /\
      children e `prefix_of` children e' /\
      forall m arr, verbs e !! m = Some arr ->
        exists arr', verbs e' !! m = Some arr' /\ arr `prefix_of` arr'.
Proof.
  intros W%reachable_wf Hrun i e Hi.
  destruct (run_ok methods fuel body st st' W Hrun) as [_ E].
  destruct (ext_node _ _ E i e Hi) as (e' & He' & Hu & Hp & _).
  destruct (grows_run fuel body st st' (wf_bound methods st W) Hrun i e Hi)
    as (e'' & He'' & Hc & Hv).
  assert (e'' = e') as -> by congruence. by exists e'.
Qed.

(** ** The order of flattening *)

(** What follows keeps the operations an element has, in their order. *)
Lemma resumes_grows st st' :
  bound methods st -> resumes methods st st' -> grows st st'.
Proof.
  intros B H. induction H as [st|st fuel body st1 st' Hrun _ IH|st st1 st' Hend _ IH].
  - apply grows_refl.
  - destruct (run_keeps methods fuel body st st1 B Hrun) as [B1 _].
    apply (grows_trans _ st1); [by apply (grows_run fuel body)|by apply IH].
  - destruct (end_keeps methods st st1 B Hend) as [B1 _].
    apply (grows_trans _ st1); [|by apply IH].
    destruct (end_at methods st B) as (c & e & Hc & He & Heq).
    rewrite Heq in Hend. injection Hend as <-.
    destruct (parentElement e); [|apply grows_refl].
    intros i x Hi. exists x. split_and!; [done|done|]. intros m arr ?. by exists arr.
Qed.

(** Two calls of one verb method in a row push their operations side by
    side on the array of the verb at the current element. *)
Lemma verb_twice st0 fuel0 name m a mwa b mwb st1 c :
  bound methods st0 -> prototype methods name = Some m ->
  currentElement (this st0) = Some c ->
  run methods fuel0 [CallVerb name a mwa; CallVerb name b mwb] st0 = Returns tt st1 ->
  bound methods st1 /\
  exists e1 arr, elements st1 !! c = Some e1 /\
    verbs e1 !! m = Some (arr ++ [Op (verb_arguments a mwa).1 (verb_arguments a mwa).2;
                                  Op (verb_arguments b mwb).1 (verb_arguments b mwb).2]).
Proof.
  intros B Hname Hc Hrun. pose proof (prototype_methods _ _ _ Hname) as Hm.
  destruct fuel0 as [|n]; [done|]. simpl in Hrun.
  apply bind_inv in Hrun as ([] & sa & Ha & Hrun).
  apply bind_inv in Hrun as ([] & sb & Hb & Hrun). injection Hrun as <-.
  simpl in Ha. rewrite (bd_builder _ _ B), Hname in Ha.
  destruct (verb_keeps methods st0 sa m a mwa B Hm Ha) as [Ba _].
  simpl in Hb. rewrite (bd_builder _ _ Ba), Hname in Hb.
  destruct (verb_keeps methods sa sb m b mwb Ba Hm Hb) as [Bb _].
  destruct (verb_at methods st0 m a mwa B Hm) as (c1 & e & arr & Hc1 & He & Harr & Heq).
  assert (c1 = c) as -> by congruence.
  rewrite Heq in Ha. injection Ha as <-.
  destruct (verb_at methods _ m b mwb Ba Hm) as (c2 & e2 & arr2 & Hc2 & He2 & Harr2 & Heq2).
  simpl in Hc2. assert (c2 = c) as -> by congruence.
  simpl in He2. rewrite list_lookup_insert_eq in He2 by (by eapply lookup_lt_Some).
  injection He2 as <-. simpl in Harr2. rewrite lookup_insert_eq in Harr2.
  injection Harr2 as <-.
  rewrite Heq2 in Hb. injection Hb as <-. split; [done|].
  eexists _, arr. simpl. split.
  - rewrite list_lookup_insert_eq; [done|].
    rewrite length_insert. by eapply lookup_lt_Some.
  - simpl. rewrite lookup_insert_eq. by rewrite <- app_assoc.
Qed.

(** C6. [build] takes the children of every element from the last one
    declared to the first, and hands the operations declared for one verb
    at one element to the router side by side, the last one declared first;
    so two operations declared one after the other for the same verb are
    both in the router, the second before the first. That holds of the
    arrays the store holds, and of the calls that fill them: when a verb
    method is called twice in a row in any state of the builder, inside a
    callback or not, then whatever statements follow before [build], the
    router gets the two operations side by side, the second first. *)
Theorem last_declared_first st fuel r st' :
  reachable methods st -> build methods fuel st = Returns r st' ->
  exists stack0 new evs,
    routers (build_start st) !! r = Some stack0 /\
    routers st' !! r = Some (stack0 ++ new) /\
    events st' = events st ++ evs /\
    (forall p ep, elements st !! p = Some ep -> taken p evs = reverse (children ep)) /\
    (forall i e l m arr,
       elements st !! i = Some e -> lineage (elements st) i l -> m ∈ methods ->
       verbs e !! m = Some arr ->
       exists inh pre post,
         new = pre ++ (render m (group_path (elements st) l) (inh ++ middlewares e)
                         <$> reverse arr) ++ post) /\
    (forall i e l m arr a b,
       elements st !! i = Some e -> lineage (elements st) i l -> m ∈ methods ->
       verbs e !! m = Some (arr ++ [a; b]) ->
       exists inh pre post,
         new = pre ++ [render m (group_path (elements st) l) (inh ++ middlewares e) b;
                       render m (group_path (elements st) l) (inh ++ middlewares e) a]
                   ++ post) /\
    (forall st0 fuel0 name m a mwa b mwb st1 c e l,
       live methods st0 -> prototype methods name = Some m ->
       currentElement (this st0) = Some c ->
       run methods fuel0 [CallVerb name a mwa; CallVerb name b mwb] st0 = Returns tt st1 ->
       resumes methods st1 st ->
       elements st !! c = Some e -> lineage (elements st) c l ->
       exists inh pre post,
         new = pre ++ [render m (group_path (elements st) l) (inh ++ middlewares e)
                         (Op (verb_arguments b mwb).1 (verb_arguments b mwb).2);
                       render m (group_path (elements st) l) (inh ++ middlewares e)
                         (Op (verb_arguments a mwa).1 (verb_arguments a mwa).2)]
                   ++ post).
Proof.
  intros W%reachable_wf Hrun.
  destruct (build_result_any methods st fuel r st' W Hrun)
    as (-> & stack0 & new & evs & el' & Hr0 & I & Hv).
  destruct (build_start_fields st) as (_ & Hels & Hevs).
  assert (Hblock : forall i e l m arr,
    elements st !! i = Some e -> lineage (elements st) i l -> m ∈ methods ->
    verbs e !! m = Some arr ->
    exists inh pre post,
      new = pre ++ (render m (group_path (elements st) l) (inh ++ middlewares e)
                      <$> reverse arr) ++ post).
  { intros i e l m arr Hi Hl Hm Harr.
    assert (Hi0 : elements (build_start st) !! i = Some e) by (by rewrite Hels).
    destruct (bi_node _ _ _ _ _ _ _ _ _ I i e Hi0) as (e' & He' & Hev).
    destruct (bi_visited _ _ _ _ _ _ _ _ _ I i e' He' (Hv i e' He')) as [_ Hops].
    destruct (bi_block _ _ _ _ _ _ _ _ _ I i e e' m arr Hi0 He' Hm Harr) as [Hin|Hb].
    - rewrite (Hops m Hm) in Hin. injection Hin as <-.
      exists [], new, []. by rewrite app_nil_r.
    - destruct Hb as (l' & inh & pre & post & Hl' & ->). rewrite Hels in Hl'.
      rewrite (lineage_fun _ _ _ _ Hl' Hl). rewrite Hels. by exists inh, pre, post. }
  assert (Hpair : forall i e l m arr a b,
    elements st !! i = Some e -> lineage (elements st) i l -> m ∈ methods ->
    verbs e !! m = Some (arr ++ [a; b]) ->
    exists inh pre post,
      new = pre ++ [render m (group_path (elements st) l) (inh ++ middlewares e) b;
                    render m (group_path (elements st) l) (inh ++ middlewares e) a]
                ++ post).
  { intros i e l m arr a b Hi Hl Hm Harr.
    destruct (Hblock i e l m _ Hi Hl Hm Harr) as (inh & pre & post & ->).
    rewrite reverse_app. simpl.
    exists inh, pre,
      ((render m (group_path (elements st) l) (inh ++ middlewares e) <$> reverse arr) ++ post).
    done. }
  exists stack0, new, evs. split_and!.
  - done.
  - by eapply binv_stack.
  - by rewrite (bi_events _ _ _ _ _ _ _ _ _ I), Hevs.
  - intros p ep Hp. assert (Hp0 : elements (build_start st) !! p = Some ep) by (by rewrite Hels).
    destruct (bi_node _ _ _ _ _ _ _ _ _ I p ep Hp0) as (e' & He' & Hev).
    destruct (bi_visited _ _ _ _ _ _ _ _ _ I p e' He' (Hv p e' He')) as [Hnil _].
    rewrite (ev_children _ _ _ _ Hev), Hnil. simpl. by rewrite reverse_involutive.
  - done.
  - done.
  - intros st0 fuel0 name m a mwa b mwb st1 c e l B0%live_bound Hname Hc Htwice Hres Hi Hl.
    pose proof (prototype_methods _ _ _ Hname) as Hm.
    destruct (verb_twice st0 fuel0 name m a mwa b mwb st1 c B0 Hname Hc Htwice)
      as (B1 & e1 & arr & He1 & Harr1).
    destruct (resumes_grows st1 st B1 Hres c e1 He1) as (e' & He' & _ & Hops).
    assert (e' = e) as -> by congruence.
    destruct (Hops m _ Harr1) as (arr' & Harr' & [more ->]).
    destruct (Hblock c e l m _ Hi Hl Hm Harr') as (inh & pre & post & ->).
    rewrite !reverse_app. simpl. rewrite !fmap_app. simpl.
    exists inh, (pre ++ (render m (group_path (elements st) l) (inh ++ middlewares e)
                          <$> reverse more)),
      ((render m (group_path (elements st) l) (inh ++ middlewares e) <$> reverse arr) ++ post).
    by rewrite <- !app_assoc.
Qed.

End Shape.

Section Cursor.

Variable methods : list string.

(** ** Where the cursor ends up *)

Lemma lineage_length h i l : lineage h i l -> 1 <= length l.
Proof. destruct 1; [simpl; lia|rewrite length_app; simpl; lia]. Qed.

Lemma lineage_extends st st' i l :
  extends st st' -> lineage (elements st) i l -> lineage (elements st') i l.
Proof.
  intros E. induction 1 as [i e Hi Hp|i e p l Hi Hp _ IH].
  - destruct (ext_node _ _ E i e Hi) as (e' & He' & _ & Hp' & _).
    apply (lineage_root _ i e'); [done|congruence].
  - destruct (ext_node _ _ E i e Hi) as (e' & He' & _ & Hp' & _).
    apply (lineage_child _ i e' p l); [done|congruence|done].
Qed.

(** [end] takes the cursor one element up, unless it is on the root. *)
Lemma end_depth st st' c l :
  wf methods st -> currentElement (this st) = Some c -> lineage (elements st) c l ->
  end_ st = Returns tt st' ->
  exists c' l', currentElement (this st') = Some c' /\ lineage (elements st') c' l' /\
    length l' = S (pred (length l - 1)).
Proof.
  intros W Hc Hl Hrun. destruct (end_spec methods st W) as (c0 & e & Hc0 & He & Heq).
  assert (c0 = c) as -> by congruence.
  rewrite Heq in Hrun. injection Hrun as <-.
  destruct (lineage_inv _ _ _ Hl) as (e' & He' & [(Hp & ->)|(p & l' & Hp & Hl' & ->)]);
    assert (e' = e) as -> by congruence; rewrite Hp.
  - exists c, [c]. by split_and!.
  - exists p, l'. split_and!; [done|done|].
    pose proof (lineage_length _ _ _ Hl'). rewrite length_app. simpl. lia.
Qed.

(** After [path] has made its element, the cursor is one element down. *)
Lemma entered_depth st u mws c l :
  wf methods st -> currentElement (this st) = Some c -> lineage (elements st) c l ->
  currentElement (this (entered methods u mws st)) = Some (length (elements st)) /\
  lineage (elements (entered methods u mws st)) (length (elements st))
    (l ++ [length (elements st)]).
Proof.
  intros W Hc Hl. destruct (entered_new methods st u mws c W Hc) as [Hcur Hnew].
  destruct (wf_entered methods u mws st W) as [_ E].
  split; [done|].
  eapply lineage_child; [exact Hnew|done|by apply (lineage_extends st)].
Qed.

(** The cursor after a run stands as deep as [depth_after] tells. *)
Lemma run_depth fuel : forall body st st' c l,
  wf methods st -> currentElement (this st) = Some c -> lineage (elements st) c l ->
  run methods fuel body st = Returns tt st' ->
  exists c' l', currentElement (this st') = Some c' /\ lineage (elements st') c' l' /\
    length l' = S (depth_after fuel (length l - 1) body).
Proof.
  induction fuel as [|n IH]; intros body st st' c l W Hc Hl; simpl; [done|].
  revert st c l W Hc Hl. induction body as [|s body IHb]; intros st c l W Hc Hl; simpl.
  - intros [= <-]. exists c, l. split_and!; [done|done|].
    pose proof (lineage_length _ _ _ Hl). lia.
  - intros ([] & s1 & Hs & Hrest)%bind_inv.
    assert (Hinv : forall h s s', wf methods s -> run methods n (fn_body h) s = Returns tt s' ->
              wf methods s' /\ extends s s')
      by (intros h; apply (run_ok methods n)).
    destruct (call_ok methods _ s st s1 Hinv W Hs) as [W1 _].
    pose proof (lineage_length _ _ _ Hl) as Hlen.
    assert (Hstep : exists c1 l1, currentElement (this s1) = Some c1 /\
              lineage (elements s1) c1 l1 /\
              length l1 = S (stmt_depth (depth_after n) (length l - 1) s)).
    { destruct s as [name a mws|a mws| |]; simpl in Hs; rewrite ?(wf_builder _ _ W) in Hs.
      - destruct (prototype methods name) as [m|] eqn:Hm; [|done].
        destruct (verb_spec methods st m a mws W (prototype_methods _ _ _ Hm))
          as (c0 & e & arr & Hc0 & He & Harr & Heq).
        rewrite Heq in Hs. injection Hs as <-. exists c, l. simpl.
        split_and!; [done| |lia].
        eapply lineage_links; [|done]. by apply (same_links_insert _ _ e).
      - rewrite path_unfold in Hs.
        2:{ intros c0 Hc0. destruct (wf_cursor _ _ W) as (c' & Hc' & ?). congruence. }
        simpl. destruct (pop (path_arguments a mws).2) as [[h rest]|].
        + apply bind_inv in Hs as ([] & s2 & Hh & He).
          destruct (entered_depth st (path_arguments a mws).1 rest c l W Hc Hl) as [Hcur Hlin].
          destruct (wf_entered methods (path_arguments a mws).1 rest st W) as [We _].
          destruct (emit_ok methods (Invoked (fn_ident h) (Some (length (elements st)))) _ We)
            as [We' _].
          destruct (IH (fn_body h) _ s2 _ _ We' Hcur Hlin Hh) as (c2 & l2 & Hc2 & Hl2 & Hlen2).
          destruct (Hinv h _ _ We' Hh) as [W2 _].
          rewrite (this_end_builder _ (wf_builder _ _ W2)) in He.
          destruct (end_depth s2 s1 c2 l2 W2 Hc2 Hl2 He) as (c1 & l1 & Hc1 & Hl1 & Hlen1).
          exists c1, l1. split_and!; [done|done|].
          rewrite Hlen1, Hlen2. rewrite length_app. simpl.
          replace (length l + 1 - 1) with (S (length l - 1)) by lia. lia.
        + injection Hs as <-.
          destruct (entered_depth st (path_arguments a mws).1 (path_arguments a mws).2
                      c l W Hc Hl) as [Hcur Hlin].
          eexists _, _. split_and!; [done|done|]. rewrite length_app. simpl. lia.
      - destruct (end_depth st s1 c l W Hc Hl Hs) as (c1 & l1 & ? & ? & ?).
        by exists c1, l1.
      - done. }
    destruct Hstep as (c1 & l1 & Hc1 & Hl1 & Hlen1).
    destruct (IHb s1 c1 l1 W1 Hc1 Hl1 Hrest) as (c' & l' & Hc' & Hl' & Hlen').
    exists c', l'. split_and!; [done|done|]. rewrite Hlen', Hlen1. simpl. by rewrite Nat.sub_0_r.
Qed.

(** X4. How [path], [end] and callbacks move the cursor. After a run of
    statements the cursor is on an element with [depth_after] elements
    above it: a verb method leaves it, [path] without a handler takes it
    one down, [end] one up unless it is on the root, and [path] with a
    handler ends one above where the handler left it. *)
Theorem cursor_depth st fuel body st' c l :
  reachable methods st -> currentElement (this st) = Some c ->
  lineage (elements st) c l ->
  run methods fuel body st = Returns tt st' ->
  exists c' l', currentElement (this st') = Some c' /\ lineage (elements st') c' l' /\
    length l' = S (depth_after fuel (length l - 1) body).
Proof. intros W%reachable_wf. by apply run_depth. Qed.

(** A script that leaves no [path] open leaves the cursor on the root. *)
Lemma closed_root r0 rs fuel script st :
  (forall r', r0 = Some r' -> r' < length rs) ->
  run methods fuel script (ApiBuilder methods r0 rs) = Returns tt st ->
  depth_after fuel 0 script = 0 ->
  wf methods st /\ currentElement (this st) = Some 0.
Proof.
  intros Hr Hrun Hd. pose proof (wf_ApiBuilder methods r0 rs Hr) as W0.
  destruct (run_ok methods fuel script _ _ W0 Hrun) as [W _]. split; [done|].
  destruct (run_depth fuel script _ st 0 [0] W0 eq_refl) as (c & l & Hc & Hl & Hlen);
    [by eapply lineage_root|done|].
  simpl in Hlen. rewrite Hd in Hlen.
  destruct (lineage_inv _ _ _ Hl) as (e & He & [(Hp & ->)|(p & l' & Hp & Hl' & ->)]).
  - pose proof (wf_parent _ _ W c e He) as H. rewrite Hp in H. by rewrite <- H.
  - pose proof (lineage_length _ _ _ Hl'). rewrite length_app in Hlen. simpl in Hlen. lia.
Qed.

(** X5. A script on a new builder that leaves no [path] open, each [path]
    either given a handler or followed by its [end], leaves the cursor on
    the root; [build] then hands to the router, with each operation, the
    middlewares declared along the lineage of the operation's element from
    the root down, followed by the operation's own. *)
Theorem closed_script_chain r0 rs fuel script st fuel' r st' :
  (forall r', r0 = Some r' -> r' < length rs) ->
  run methods fuel script (ApiBuilder methods r0 rs) = Returns tt st ->
  depth_after fuel 0 script = 0 ->
  build methods fuel' st = Returns r st' ->
  currentElement (this st) = Some 0 /\
  exists stack0 new,
    routers (build_start st) !! r = Some stack0 /\
    routers st' !! r = Some (stack0 ++ new) /\
    forall x, x ∈ new ->
      exists i e l m arr o,
        elements st !! i = Some e /\ lineage (elements st) i l /\ m ∈ methods /\
        verbs e !! m = Some arr /\ o ∈ arr /\ l_verb x = m /\
        l_stack x = concat (middlewares_at (elements st) <$> l) ++ op_middlewares o.
Proof.
  intros Hr Hrun Hd Hbuild.
  destruct (closed_root r0 rs fuel script st Hr Hrun Hd) as [W Hc]. split; [done|].
  destruct (build_result methods True st fuel' r st' W)
    as (-> & stack0 & new & evs & el' & Hr0 & I & Hv).
  { intros _ c' i e l Hc' Hon Hi Hl. assert (c' = 0) as -> by congruence.
    assert (Hnone : forall j ej, on_path (elements st) 0 j -> j <> 0 ->
              elements st !! j = Some ej -> middlewares ej = []).
    { intros j ej Hj Hne. pose proof (on_path_le _ _ _
        (fun i e p => wf_parent_lt methods st i e p W) Hj). lia. }
    by apply (start_chained methods st 0 W Hnone i l Hl e). }
  { done. }
  destruct (build_start_fields st) as (_ & Hels & _).
  exists stack0, new. split_and!; [done| |].
  { rewrite (bi_routers _ _ _ _ _ _ _ _ _ I). apply list_lookup_insert_eq.
    by eapply lookup_lt_Some. }
  intros x Hx.
  destruct (bi_full _ _ _ _ _ _ _ _ _ I ltac:(done) x Hx)
    as (i & e0 & l & m & arr & o & Hi & Hl & Hm & Harr & Ho & ->).
  rewrite Hels in Hi, Hl. exists i, e0, l, m, arr, o.
  split_and!; try done. simpl. unfold full_stack. by rewrite Hels.
Qed.

End Cursor.

Section Outcomes.

Variable methods : list string.

(** ** What a run may end in *)

Lemma end_returns st : wf methods st -> exists st', end_ st = Returns tt st'.
Proof. intros W. destruct (end_spec methods st W) as (c & e & _ & _ & ->). by eexists. Qed.




Lemma call_quiet inv (inner : list stmt -> bool) s st :
  (forall h s, wf methods s -> inner (fn_body h) = true -> exists s', inv h s = Returns tt s') ->
  (forall h s s', wf methods s -> inv h s = Returns tt s' -> wf methods s' /\ extends s s') ->
  wf methods st -> stmt_quiet methods inner s = true ->
  exists st', call methods inv s st = Returns tt st'.
Proof.
  intros Hq Hinv W.
  destruct s as [name a mws|a mws| |]; simpl; rewrite ?(wf_builder _ _ W).
  - intros [m Hm]%bool_decide_eq_true. rewrite Hm.
    destruct (verb_spec methods st m a mws W (prototype_methods _ _ _ Hm))
      as (c & e & arr & _ & _ & _ & ->). by eexists.
  - rewrite path_unfold.
    2:{ intros c Hc. destruct (wf_cursor _ _ W) as (c' & Hc' & ?). congruence. }
    destruct (pop (path_arguments a mws).2) as [[h rest]|]; [|by eexists].
    intros Hh.
    destruct (wf_entered methods (path_arguments a mws).1 rest st W) as [We _].
    destruct (emit_ok methods (Invoked (fn_ident h) (Some (length (elements st)))) _ We)
      as [We' _].
    destruct (Hq h _ We' Hh) as [s2 E]. unfold bind. rewrite E.
    destruct (Hinv h _ _ We' E) as [W2 _].
    rewrite (this_end_builder _ (wf_builder _ _ W2)). by apply end_returns.
  - intros _. by apply end_returns.
  - done.
Qed.

Lemma run_quiet fuel : forall body st,
  wf methods st -> quiet methods fuel body = true ->
  exists st', run methods fuel body st = Returns tt st'.
Proof.
  induction fuel as [|n IH]; intros body st W; simpl; [done|].
  assert (Hinv : forall h s s', wf methods s -> run methods n (fn_body h) s = Returns tt s' ->
            wf methods s' /\ extends s s')
    by (intros h; apply (run_ok methods n)).
  revert st W. induction body as [|s body IHb]; intros st W; simpl; [by eexists|].
  intros [Hs Hrest]%andb_prop.
  destruct (call_quiet (fun h => run methods n (fn_body h)) (quiet methods n) s st
              (fun h s W => IH (fn_body h) s W) Hinv W Hs) as [s1 E].
  unfold bind. rewrite E.
  destruct (call_ok methods _ s st s1 Hinv W E) as [W1 _]. by apply IHb.
Qed.

(** X7. Statements that name methods of the builder only ([del] among
    them) and throw nothing of their own, in callbacks too, return on
    every builder, with fuel for the depth of their callbacks: no call of
    [path], [end] or a verb method throws of its own. *)
Theorem quiet_run_returns st fuel body :
  reachable methods st -> quiet methods fuel body = true ->
  exists st', run methods fuel body st = Returns tt st'.
Proof. intros W%reachable_wf. by apply run_quiet. Qed.

(** ** What [build] leaves of the tree *)

(** X8. [build] consumes the tree: when it returns, every element is
    visited, has no child left and no operation left for any verb, and
    holds the fragment and the parent it had; the cursor and the router of
    the builder are what they were, and no router but the one [build]
    returns has changed. *)
Theorem build_consumes st fuel r st' :
  reachable methods st -> build methods fuel st = Returns r st' ->
  this st' = this st /\ length (elements st') = length (elements st) /\
  (forall i e', elements st' !! i = Some e' ->
     visited e' = true /\ children e' = [] /\
     (forall m, m ∈ methods -> verbs e' !! m = Some []) /\
     exists e, elements st !! i = Some e /\ uri e' = uri e /\
       parentElement e' = parentElement e) /\
  (forall r', r' <> r -> r' < length (routers st) -> routers st' !! r' = routers st !! r').
Proof.
  intros W%reachable_wf Hrun.
  destruct (build_result_any methods st fuel r st' W Hrun)
    as (-> & stack0 & new & evs & el' & Hr0 & I & Hv).
  destruct (wf_build_start methods st W) as [W0 _].
  destruct (build_start_fields st) as (Hthis & Hels & _).
  split_and!.
  - by rewrite (bi_this _ _ _ _ _ _ _ _ _ I).
  - by rewrite (bi_len _ _ _ _ _ _ _ _ _ I), Hels.
  - intros i e' Hi.
    destruct (bi_visited _ _ _ _ _ _ _ _ _ I i e' Hi (Hv i e' Hi)) as [Hch Hops].
    destruct (binv_back methods _ _ _ _ _ _ _ _ I i e' Hi) as (e & He & Hev).
    split_and!; [by apply (Hv i)|done|done|].
    exists e. rewrite <- Hels. split_and!; [done|apply Hev|apply Hev].
  - intros r' Hne Hlt. rewrite (bi_routers _ _ _ _ _ _ _ _ _ I).
    rewrite list_lookup_insert_ne by done.
    unfold build_start. destruct (router (this st)); [done|]. simpl.
    by rewrite lookup_app_l.
Qed.

End Outcomes.

Section Counting.

Variable methods : list string.

(** ** One layer for each operation *)

Lemma pop_inv {A} (l : list A) x rest : pop l = Some (x, rest) -> l = rest ++ [x].
Proof.
  unfold pop. destruct (reverse l) as [|y r] eqn:E; [done|]. intros [= <- <-].
  rewrite <- (reverse_involutive l), E. by rewrite reverse_cons.
Qed.

Lemma sum_list_zero (l : list nat) : (forall n, n ∈ l -> n = 0) -> sum_list l = 0.
Proof.
  induction l as [|x l IH]; intros H; [done|]. simpl.
  rewrite (H x) by apply list_elem_of_here.
  apply IH. intros n Hn. apply H. by apply list_elem_of_further.
Qed.

Lemma declared_insert h : forall j e e',
  h !! j = Some e ->
  declared methods (<[j := e']> h) + operations methods e
    = declared methods h + operations methods e'.
Proof.
  unfold declared. induction h as [|x h IH]; intros [|j] e e' Hj; simplify_eq/=.
  - lia.
  - specialize (IH j e e' Hj). lia.
Qed.

(** Writing the array of one verb changes the count by its length. *)
Lemma operations_set_verb ms m arr arr' e :
  NoDup ms -> verbs e !! m = Some arr ->
  operations ms (set_verb m arr' e) + (if decide (m ∈ ms) then length arr else 0)
    = operations ms e + (if decide (m ∈ ms) then length arr' else 0).
Proof.
  intros Hnd Harr. unfold operations.
  induction Hnd as [|m' ms Hnin Hnd IH]; [done|].
  rewrite !fmap_cons. cbn [sum_list_with]. unfold ops_of at 1 3. cbn [verbs set_verb].
  destruct (decide (m = m')) as [->|Hne].
  - rewrite lookup_insert_eq, Harr. cbn [default from_option]. unfold id in *.
    destruct (decide (m' ∈ ms)); [done|].
    destruct (decide (m' ∈ m' :: ms)) as [_|Hn]; [lia|].
    exfalso. apply Hn, list_elem_of_here.
  - rewrite lookup_insert_ne by done. unfold id in *.
    destruct (decide (m ∈ ms)) as [Hin|Hin];
      destruct (decide (m ∈ m' :: ms)) as [Hin'|Hin']; try lia.
    + exfalso. apply Hin'. by apply list_elem_of_further.
    + exfalso. by apply elem_of_cons in Hin' as [?|?].
Qed.

(** Each turn of [drain] moves one operation to the router. *)
Lemma drain_count m r j : forall fuel st st',
  NoDup methods -> m ∈ methods ->
  drain fuel m r j st = Returns tt st' ->
  registered r st' + declared methods (elements st')
    = registered r st + declared methods (elements st).
Proof.
  induction fuel as [|n IH]; intros st st' Hnd Hm; simpl; [done|].
  intros (e & s0 & He & Hrun)%bind_inv.
  unfold deref in He. destruct (elements st !! j) as [e'|] eqn:Hj; [|done].
  injection He as -> <-.
  destruct (verbs e !! m) as [arr|] eqn:Harr; [|done].
  destruct (pop arr) as [[o rest]|] eqn:Hpop; [|by injection Hrun as <-].
  apply pop_inv in Hpop as ->.
  apply bind_inv in Hrun as ([] & s1 & Ha & Hrun). injection Ha as <-.
  apply bind_inv in Hrun as (u & s2 & Hu & Hrun).
  assert (s2 = set_elements (<[j := set_verb m rest e]> (elements st)) st) as ->.
  { unfold mountUri in Hu. by destruct (mountUri_loop _ _ _ _) as [[?|]|]; simplify_eq. }
  apply bind_inv in Hrun as (e1 & s3 & He1 & Hrun).
  unfold deref in He1. simpl in He1.
  rewrite list_lookup_insert_eq in He1 by (by eapply lookup_lt_Some).
  injection He1 as <- <-.
  apply bind_inv in Hrun as ([] & s4 & Hreg & Hrun).
  unfold register in Hreg. simpl in Hreg.
  destruct (routers st !! r) as [stack|] eqn:Hr; [|done]. injection Hreg as <-.
  rewrite (IH _ _ Hnd Hm Hrun). simpl.
  unfold registered. simpl.
  rewrite list_lookup_insert_eq by (by eapply lookup_lt_Some).
  rewrite Hr. simpl. rewrite length_app. simpl.
  pose proof (declared_insert (elements st) j e (set_verb m rest e) Hj) as Hd.
  pose proof (operations_set_verb methods m (rest ++ [o]) rest e Hnd Harr) as Ho.
  rewrite !decide_True in Ho by done. rewrite length_app in Ho. simpl in Ho. lia.
Qed.

Lemma drain_methods_count r j fuel : forall ms st st',
  NoDup methods -> (forall m, m ∈ ms -> m ∈ methods) ->
  drain_methods fuel ms r j st = Returns tt st' ->
  registered r st' + declared methods (elements st')
    = registered r st + declared methods (elements st).
Proof.
  induction ms as [|m ms IH]; intros st st' Hnd Hsub; simpl.
  - by intros [= <-].
  - intros ([] & s1 & Hd & Hrest)%bind_inv.
    rewrite (IH _ _ Hnd (fun m' H => Hsub m' (list_elem_of_further _ _ _ H)) Hrest).
    apply (drain_count m r j fuel); [done|apply Hsub, list_elem_of_here|done].
Qed.

Lemma declared_same h j e e' :
  h !! j = Some e -> verbs e' = verbs e -> declared methods (<[j := e']> h) = declared methods h.
Proof.
  intros Hj Hv. pose proof (declared_insert h j e e' Hj) as H.
  assert (operations methods e' = operations methods e); [|lia].
  unfold operations, ops_of. by rewrite Hv.
Qed.

(** One turn of the loop of [build] registers what it takes off the tree. *)
Lemma build_step_count fuel r el st next st' :
  NoDup methods -> build_step methods fuel r el st = Returns next st' ->
  registered r st' + declared methods (elements st')
    = registered r st + declared methods (elements st).
Proof.
  intros Hnd. unfold build_step.
  intros (e & s0 & He & Hrun)%bind_inv.
  unfold deref in He. destruct (elements st !! el) as [e'|]; [|done]. injection He as -> <-.
  destruct (if visited e then parentElement e else Some el) as [j|]; [|by injection Hrun as _ <-].
  apply bind_inv in Hrun as ([] & s1 & Hd & Hrun).
  rewrite <- (drain_methods_count r j fuel methods st s1 Hnd (fun _ H => H) Hd).
  apply bind_inv in Hrun as (ej & s2 & Hej & Hrun).
  unfold deref in Hej. destruct (elements s1 !! j) as [ej'|] eqn:Hj; [|done].
  injection Hej as -> <-.
  destruct (pop (children ej)) as [[c rest]|].
  - apply bind_inv in Hrun as ([] & s3 & Ha & Hrun). injection Ha as <-.
    apply bind_inv in Hrun as (ej2 & s4 & Hej2 & Hrun).
    unfold deref in Hej2. simpl in Hej2.
    rewrite list_lookup_insert_eq in Hej2 by (by eapply lookup_lt_Some).
    injection Hej2 as <- <-.
    apply bind_inv in Hrun as (ec & s5 & Hec & Hrun).
    unfold deref in Hec. simpl in Hec.
    destruct (<[j := set_children rest ej]> (elements s1) !! c) as [x|] eqn:Hc; [|done].
    injection Hec as -> <-.
    apply bind_inv in Hrun as ([] & s6 & Ha & Hrun). injection Ha as <-.
    apply bind_inv in Hrun as ([] & s7 & Ha & Hrun). injection Ha as <-.
    injection Hrun as _ <-. simpl. simpl in Hc.
    rewrite (declared_same _ c ec) by done.
    by rewrite (declared_same _ j ej).
  - apply bind_inv in Hrun as ([] & s3 & Ha & Hrun). injection Ha as <-.
    injection Hrun as _ <-. simpl.
    by rewrite (declared_same _ j ej).
Qed.

Lemma build_loop_count r : forall fuel el st st',
  NoDup methods -> build_loop methods fuel r el st = Returns tt st' ->
  registered r st' + declared methods (elements st')
    = registered r st + declared methods (elements st).
Proof.
  induction fuel as [|n IH]; intros [i|] st st' Hnd; simpl; try done.
  - by intros [= <-].
  - intros (next & s1 & Hs & Hrest)%bind_inv.
    rewrite (IH _ _ _ Hnd Hrest). by apply (build_step_count n r i st next).
  - by intros [= <-].
Qed.

(** X9. [build] makes one call of the router for each operation declared,
    no more and no fewer: with a list of verbs that names none twice, the
    layers the router gets are as many as the operations that the elements
    of the tree hold over all verbs. *)
Theorem registered_count st fuel r st' :
  NoDup methods -> reachable methods st -> build methods fuel st = Returns r st' ->
  exists stack0 new,
    routers (build_start st) !! r = Some stack0 /\
    routers st' !! r = Some (stack0 ++ new) /\
    length new = declared methods (elements st).
Proof.
  intros Hnd W%reachable_wf Hrun.
  destruct (build_result_any methods st fuel r st' W Hrun)
    as (-> & stack0 & new & evs & el' & Hr0 & I & Hv).
  destruct (build_start_fields st) as (_ & Hels & _).
  assert (Hstack : routers st' !! build_router st = Some (stack0 ++ new)).
  { rewrite (bi_routers _ _ _ _ _ _ _ _ _ I). apply list_lookup_insert_eq.
    by eapply lookup_lt_Some. }
  exists stack0, new. split_and!; [done|done|].
  rewrite build_unfold in Hrun. apply bind_inv in Hrun as ([] & s1 & Hloop & Hret).
  injection Hret as ->.
  pose proof (build_loop_count _ _ _ _ _ Hnd Hloop) as Hcount.
  unfold registered in Hcount. rewrite Hstack, Hr0, Hels in Hcount. simpl in Hcount.
  rewrite length_app in Hcount.
  assert (Hzero : declared methods (elements st') = 0).
  { unfold declared. apply sum_list_zero. intros n Hn.
    apply list_elem_of_fmap in Hn as (e & -> & He).
    apply list_elem_of_lookup in He as [i Hi].
    destruct (bi_visited _ _ _ _ _ _ _ _ _ I i e Hi (Hv i e Hi)) as [_ Hops].
    unfold operations. apply sum_list_zero. intros k Hk.
    apply list_elem_of_fmap in Hk as (m & -> & Hm).
    unfold ops_of. by rewrite (Hops m Hm). }
  lia.
Qed.

End Counting.

Section Spent.

Variable methods : list string.

(** ** A builder is for one [build] *)

(** What [build] returns is spent. *)
Lemma build_spent st fuel r st' :
  wf methods st -> build methods fuel st = Returns r st' -> spent methods st'.
Proof.
  intros W Hrun.
  destruct (build_result_any methods st fuel r st' W Hrun)
    as (-> & stack0 & new & evs & el' & Hr0 & I & Hv).
  destruct (wf_build_start methods st W) as [W0 _].
  destruct (build_start_fields st) as (Hthis & Hels & _).
  pose proof (bi_this _ _ _ _ _ _ _ _ _ I) as Ht. rewrite Hthis in Ht.
  split.
  - rewrite Ht. apply (wf_builder _ _ W).
  - destruct (wf_cursor _ _ W) as (c & Hc & Hlt). exists c. rewrite Ht.
    split_and!; [done|by rewrite (bi_len _ _ _ _ _ _ _ _ _ I), Hels|].
    intros i x m _ Hi Hm.
    by destruct (bi_visited _ _ _ _ _ _ _ _ _ I i x Hi (Hv i x Hi)) as [_ ->].
  - intros r0 Hr. rewrite (bi_routers _ _ _ _ _ _ _ _ _ I), length_insert.
    apply (wf_router _ _ W0). by rewrite Hthis, <- Ht.
  - intros i x Hi. split; [by apply (Hv i)|].
    by destruct (bi_visited _ _ _ _ _ _ _ _ _ I i x Hi (Hv i x Hi)).
  - intros i x p Hi Hp.
    destruct (binv_back methods _ _ _ _ _ _ _ _ I i x Hi) as (x0 & Hx0 & Hev).
    rewrite (ev_parent _ _ _ _ Hev) in Hp. by apply (wf_parent_lt methods _ i x0 p W0).
  - intros i x m Hi Hm. by apply (binv_keys methods _ _ _ W0 _ _ _ _ _ I i x m).
Qed.

(** Verb methods and [end] keep it so. *)
Lemma spent_call inv s st st' :
  spent methods st -> flat s = true -> call methods inv s st = Returns tt st' ->
  spent methods st'.
Proof.
  intros S Hflat. destruct (sp_cursor _ _ S) as (c & Hc & Hlt & Hbelow).
  destruct (lookup_lt_is_Some_2 _ _ Hlt) as [e He].
  destruct s as [name a mws|a mws| |]; simpl; rewrite ?(sp_builder _ _ S); try done.
  - destruct (prototype methods name) as [m|] eqn:Hm; [|done].
    unfold verb. rewrite (sp_builder _ _ S). simpl.
    destruct (verb_arguments a mws) as [u ms]. rewrite Hc.
    unfold bind. rewrite (deref_Returns _ _ _ He).
    destruct (verbs e !! m) as [arr|] eqn:Harr; [|done].
    intros [= <-].
    assert (L : forall i x, <[c := set_verb m (arr ++ [Op u ms]) e]> (elements st) !! i = Some x ->
              exists x0, elements st !! i = Some x0 /\ visited x = visited x0 /\
                children x = children x0 /\ parentElement x = parentElement x0 /\
                (i <> c -> x = x0) /\
                (forall k, is_Some (verbs x0 !! k) -> is_Some (verbs x !! k))).
    { intros i x [(<- & <- & _)|(Hne & Hi)]%list_lookup_insert_Some.
      - exists e. split_and!; try done. intros k Hk. simpl.
        destruct (decide (m = k)) as [->|Hne];
          [rewrite lookup_insert_eq; by eexists | by rewrite lookup_insert_ne].
      - exists x. by split_and!. }
    split; simpl.
    + apply (sp_builder _ _ S).
    + exists c. rewrite length_insert. split_and!; [done|done|].
      intros i x k Hi Hx Hk. destruct (L i x Hx) as (x0 & Hx0 & _ & _ & _ & Heq & _).
      rewrite (Heq ltac:(lia)). by apply (Hbelow i x0 k).
    + apply (sp_router _ _ S).
    + intros i x Hx. destruct (L i x Hx) as (x0 & Hx0 & -> & -> & _).
      by apply (sp_done _ _ S i x0).
    + intros i x p Hx. destruct (L i x Hx) as (x0 & Hx0 & _ & _ & -> & _).
      by apply (sp_parent _ _ S i x0).
    + intros i x k Hx Hk. destruct (L i x Hx) as (x0 & Hx0 & _ & _ & _ & _ & Hkeys).
      apply Hkeys. by apply (sp_keys _ _ S i x0).
  - unfold end_. rewrite Hc. unfold bind. rewrite (deref_Returns _ _ _ He).
    destruct (parentElement e) as [p|] eqn:Hp; [|by intros [= <-]].
    intros [= <-]. pose proof (sp_parent _ _ S c e p He Hp) as Hpc.
    destruct S as [Sb _ Sr Sd Sp Sk]. split; simpl; try done.
    exists p. split_and!; [done|lia|]. intros i x k Hi. apply Hbelow. lia.
Qed.

Lemma spent_run fuel body st st' :
  spent methods st -> forallb flat body = true ->
  run methods fuel body st = Returns tt st' -> spent methods st'.
Proof.
  destruct fuel as [|n]; [done|]. simpl.
  revert st. induction body as [|s body IH]; intros st S; simpl.
  - by intros _ [= <-].
  - intros [Hs Hrest]%andb_prop ([] & s1 & Hcall & Hrun)%bind_inv.
    apply (IH s1); [by eapply (spent_call _ s st)|done|done].
Qed.

(** On a spent store the loop walks from the cursor up to the root and
    changes nothing: it looks at the elements above the cursor only. *)
Lemma build_loop_spent r st stack B c :
  (forall i x, elements st !! i = Some x -> visited x = true /\ children x = []) ->
  (forall i x m, i < c -> elements st !! i = Some x -> m ∈ methods ->
     verbs x !! m = Some []) ->
  (forall i x p, elements st !! i = Some x -> parentElement x = Some p -> p < i) ->
  ops_bound (elements st) B -> routers st !! r = Some stack ->
  forall el fuel, el <= c -> el < length (elements st) ->
    el + B + length (elements st) + 2 <= fuel ->
    build_loop methods fuel r (Some el) st = Returns tt st.
Proof.
  intros Hdone Hops Hpar HB Hr el. induction el as [el IH] using lt_wf_ind.
  intros fuel Hle Hel Hfuel. destruct fuel as [|n]; [lia|]. simpl.
  destruct (lookup_lt_is_Some_2 _ _ Hel) as [e He].
  destruct (Hdone el e He) as (Hv & _). unfold bind.
  destruct (parentElement e) as [j|] eqn:Hp.
  2:{ by rewrite (build_step_exit methods n r el st e He Hv Hp), build_loop_None. }
  pose proof (Hpar el e j He Hp) as Hj.
  assert (Hjlt : j < length (elements st)) by lia.
  destruct (lookup_lt_is_Some_2 _ _ Hjlt) as [ej Hej].
  destruct (Hdone j ej Hej) as (Hvj & Hcj).
  assert (Hoj : forall m, m ∈ methods -> verbs ej !! m = Some [])
    by (intros m Hm; apply (Hops j ej m); [lia|done|done]).
  destruct (lineage_exists _ Hpar j Hjlt) as (l & Hl & Hlen).
  rewrite (build_step_mark methods n r el st e j ej stack l He).
  - rewrite (drained_id methods ej Hoj), (set_visited_id ej Hvj).
    rewrite (node_layers_nil _ methods ej Hoj), app_nil_r.
    unfold with_layers, set_elements, set_routers. simpl.
    rewrite (list_insert_id _ _ _ Hr), (list_insert_id _ _ _ Hej), state_eta.
    apply IH; [done|lia|done|lia].
  - by rewrite Hv.
  - done.
  - intros m Hm. rewrite (Hoj m Hm). by eexists.
  - done.
  - done.
  - intros m arr Harr. pose proof (HB j ej m arr Hej Harr). lia.
  - done.
Qed.

(** X10. A builder is for one [build]. Operations that verb methods
    declare after [build] has returned, with calls of [end] between them
    or without, stay in the elements they were declared at: the next
    [build] returns, changes no element and hands nothing to any router;
    the router it returns is the one the builder was given, or a new and
    empty one. *)
Theorem one_time_shot st fuel r st1 fuel1 body st2 :
  reachable methods st -> build methods fuel st = Returns r st1 ->
  forallb flat body = true -> run methods fuel1 body st1 = Returns tt st2 ->
  exists fuel2 r2 st3,
    (forall fuel', fuel2 <= fuel' -> build methods fuel' st2 = Returns r2 st3) /\
    this st3 = this st2 /\ elements st3 = elements st2 /\
    match router (this st2) with
    | Some r0 => r2 = r0 /\ routers st3 = routers st2
    | None => r2 = length (routers st2) /\ routers st3 = routers st2 ++ [[]]
    end.
Proof.
  intros W%reachable_wf Hbuild Hflat Hrun.
  pose proof (spent_run fuel1 body st1 st2 (build_spent st fuel r st1 W Hbuild) Hflat Hrun) as S.
  destruct (sp_cursor _ _ S) as (c & Hc & Hlt & Hbelow).
  destruct (ops_bound_exists (elements st2)) as [B HB].
  destruct (build_start_fields st2) as (Hthis & Hels & _).
  assert (Hstack : exists stack, routers (build_start st2) !! build_router st2 = Some stack).
  { unfold build_start, build_router. destruct (router (this st2)) as [r0|] eqn:Hr.
    - apply lookup_lt_is_Some_2. by apply (sp_router _ _ S).
    - exists []. simpl. rewrite lookup_app_r by lia. by rewrite Nat.sub_diag. }
  destruct Hstack as [stack Hstack].
  exists (c + B + length (elements st2) + 2), (build_router st2), (build_start st2).
  split_and!; [|done|done|].
  - intros fuel' Hfuel. rewrite build_unfold. unfold bind. rewrite Hc.
    rewrite (build_loop_spent (build_router st2) (build_start st2) stack B c); try done.
    + rewrite Hels. apply (sp_done _ _ S).
    + rewrite Hels. intros i x m Hi Hx Hm. by apply (Hbelow i x m).
    + rewrite Hels. apply (sp_parent _ _ S).
    + by rewrite Hels.
    + by rewrite Hels.
    + by rewrite Hels.
  - unfold build_router, build_start. by destruct (router (this st2)).
Qed.

End Spent.

Section Scope.

Variable methods : list string.

(** ** Statements that stay in their scope *)

Lemma lineage_last h i l : lineage h i l -> last l = Some i.
Proof. destruct 1; [done|by rewrite last_snoc]. Qed.

Lemma scope_None (f : nat -> stmt -> option nat) body :
  foldl (fun acc s => match acc with Some d => f d s | None => None end) None body = None.
Proof. by induction body. Qed.

(** [end] below the element of the scope stays below it, or on it. *)
Lemma end_scope st st' c base ext k :
  wf methods st -> currentElement (this st) = Some c ->
  lineage (elements st) c (base ++ ext) -> base <> [] -> length ext = S k ->
  end_ st = Returns tt st' ->
  exists c' ext', currentElement (this st') = Some c' /\
    lineage (elements st') c' (base ++ ext') /\ length ext' = k.
Proof.
  intros W Hc Hl Hbase Hlen Hrun.
  destruct (end_spec methods st W) as (c0 & e & Hc0 & He & Heq).
  assert (c0 = c) as -> by congruence.
  rewrite Heq in Hrun. injection Hrun as <-.
  destruct (snoc_cases ext) as [->|(ext1 & x & ->)]; [done|].
  rewrite length_app in Hlen. simpl in Hlen.
  destruct (lineage_inv _ _ _ Hl) as (e' & He' & [(Hp & Hone)|(p & l' & Hp & Hl' & Hsnoc)]);
    assert (e' = e) as -> by congruence.
  - exfalso. apply (f_equal length) in Hone. rewrite !length_app in Hone. simpl in Hone.
    destruct base; [done|simpl in Hone; lia].
  - rewrite app_assoc in Hsnoc. apply app_inj_tail in Hsnoc as [<- <-].
    rewrite Hp. exists p, ext1. split_and!; [done|done|lia].
Qed.

(** The cursor after statements that stay in their scope stands below the
    element of the scope, as deep as [scope_after] tells. *)
Lemma run_scope fuel : forall body st st' c base ext d',
  wf methods st -> currentElement (this st) = Some c ->
  lineage (elements st) c (base ++ ext) -> base <> [] ->
  scope_after fuel (length ext) body = Some d' ->
  run methods fuel body st = Returns tt st' ->
  exists c' ext', currentElement (this st') = Some c' /\
    lineage (elements st') c' (base ++ ext') /\ length ext' = d'.
Proof.
  induction fuel as [|n IH]; intros body st st' c base ext d' W Hc Hl Hbase; simpl; [done|].
  revert st c ext W Hc Hl. induction body as [|s body IHb]; intros st c ext W Hc Hl; simpl.
  - intros [= <-] [= <-]. by exists c, ext.
  - intros Hscope ([] & s1 & Hs & Hrest)%bind_inv.
    assert (Hinv : forall h s s', wf methods s -> run methods n (fn_body h) s = Returns tt s' ->
              wf methods s' /\ extends s s')
      by (intros h; apply (run_ok methods n)).
    destruct (call_ok methods _ s st s1 Hinv W Hs) as [W1 _].
    destruct (stmt_scope (scope_after n) (length ext) s) as [d1|] eqn:Hd1;
      [|by rewrite scope_None in Hscope].
    assert (Hstep : exists c1 ext1, currentElement (this s1) = Some c1 /\
              lineage (elements s1) c1 (base ++ ext1) /\ length ext1 = d1).
    { destruct s as [name a mws|a mws| |]; simpl in Hs, Hd1; rewrite ?(wf_builder _ _ W) in Hs.
      - injection Hd1 as <-.
        destruct (prototype methods name) as [m|] eqn:Hm; [|done].
        destruct (verb_spec methods st m a mws W (prototype_methods _ _ _ Hm))
          as (c0 & e & arr & Hc0 & He & Harr & Heq).
        rewrite Heq in Hs. injection Hs as <-. exists c, ext. simpl.
        split_and!; [done| |done].
        eapply lineage_links; [|done]. by apply (same_links_insert _ _ e).
      - rewrite path_unfold in Hs.
        2:{ intros c0 Hc0. destruct (wf_cursor _ _ W) as (c' & Hc' & ?). congruence. }
        destruct (pop (path_arguments a mws).2) as [[h rest]|].
        + apply bind_inv in Hs as ([] & s2 & Hh & He).
          destruct (entered_depth methods st (path_arguments a mws).1 rest c _ W Hc Hl)
            as [Hcur Hlin].
          destruct (wf_entered methods (path_arguments a mws).1 rest st W) as [We _].
          destruct (emit_ok methods (Invoked (fn_ident h) (Some (length (elements st)))) _ We)
            as [We' _].
          destruct (scope_after n (S (length ext)) (fn_body h)) as [[|d2]|] eqn:Hd2; try done.
          injection Hd1 as <-.
          rewrite <- app_assoc in Hlin.
          destruct (IH (fn_body h) _ s2 _ base (ext ++ [length (elements st)]) (S d2)
                      We' Hcur Hlin Hbase) as (c2 & ext2 & Hc2 & Hl2 & Hlen2); [|done|].
          { rewrite length_app. simpl. by rewrite Nat.add_1_r. }
          destruct (Hinv h _ _ We' Hh) as [W2 _].
          rewrite (this_end_builder _ (wf_builder _ _ W2)) in He.
          by apply (end_scope s2 s1 c2 base ext2 d2).
        + injection Hs as <-. injection Hd1 as <-.
          destruct (entered_depth methods st (path_arguments a mws).1 (path_arguments a mws).2
                      c _ W Hc Hl) as [Hcur Hlin].
          rewrite <- app_assoc in Hlin.
          eexists _, _. split_and!; [done|done|]. rewrite length_app. simpl. lia.
      - destruct (length ext) as [|k] eqn:Hlen; [done|]. injection Hd1 as <-.
        by apply (end_scope st s1 c base ext k).
      - done. }
    destruct Hstep as (c1 & ext1 & Hc1 & Hl1 & <-).
    by apply (IHb s1 c1 ext1).
Qed.

(** X11. Statements that stay in their scope give the cursor back. When
    no [end] of a body, its handlers included, would take the cursor above
    the element that is current when the body starts, and every [path] of
    the body is closed, by its handler's [end] or by an [end] that follows
    it, the cursor is after the body on the element it was on before: so
    after [path] with such a handler the cursor is where it was. *)
Theorem scoped_run_restores st fuel body st' c :
  reachable methods st -> currentElement (this st) = Some c ->
  scope_after fuel 0 body = Some 0 ->
  run methods fuel body st = Returns tt st' ->
  currentElement (this st') = Some c.
Proof.
  intros W%reachable_wf Hc Hscope Hrun.
  destruct (wf_cursor _ _ W) as (c0 & Hc0 & Hlt). assert (c0 = c) as -> by congruence.
  destruct (lineage_exists _ (fun i e p => wf_parent_lt methods st i e p W) c Hlt)
    as (l & Hl & _).
  destruct (run_scope fuel body st st' c l [] 0 W Hc) as (c' & ext' & Hc' & Hl' & Hlen);
    [by rewrite app_nil_r| |done|done|].
  { intros ->. apply lineage_length in Hl. simpl in Hl. lia. }
  destruct ext'; [|done]. rewrite app_nil_r in Hl'.
  apply lineage_last in Hl, Hl'. congruence.
Qed.

End Scope.

Section Loop.

Variable methods : list string.

(** ** What the loop of [build] keeps *)

Section Keeps.

Variable st0 : state.
Variable r : nat.
Variable stack0 : list layer.
Hypothesis W0 : wf methods st0.
Hypothesis Hr0 : routers st0 !! r = Some stack0.

Local Abbreviation inv := (binv methods st0 r stack0 False).

(** A property of the layers the router got, of the store and of the
    current element that both moves of the loop keep. *)
Variable P : list layer -> state -> nat -> Prop.

Hypothesis P_mark : forall new evs st el e j ej l st',
  inv new evs st el -> P new st el ->
  elements st !! el = Some e ->
  (if visited e then parentElement e else Some el) = Some j ->
  elements st !! j = Some ej -> lineage (elements st0) j l ->
  children ej = [] ->
  elements st' = <[j := set_visited true (drained methods ej)]> (elements st) ->
  P (new ++ node_layers (group_path (elements st0) l) ej methods) st' j.

Hypothesis P_descend : forall new evs st el e j ej l c rest ec st',
  inv new evs st el -> P new st el ->
  elements st !! el = Some e ->
  (if visited e then parentElement e else Some el) = Some j ->
  elements st !! j = Some ej -> lineage (elements st0) j l ->
  children ej = rest ++ [c] -> elements st !! c = Some ec ->
  elements st' = <[c := set_middlewares (middlewares ej ++ middlewares ec) ec]>
                   (<[j := set_children rest (drained methods ej)]> (elements st)) ->
  P (new ++ node_layers (group_path (elements st0) l) ej methods) st' c.

(** The loop ends, and keeps the invariant and the property. *)
Lemma build_loop_keeps B :
  ops_bound (elements st0) B ->
  forall mu new evs st el fuel,
  inv new evs st el -> P new st el ->
  measure (S (length (elements st0))) (elements st) + el <= mu ->
  mu + B + length (elements st0) + 2 <= fuel ->
  exists new' evs' st' el',
    build_loop methods fuel r (Some el) st = Returns tt st' /\
    inv new' evs' st' el' /\ P new' st' el' /\
    forall i x, elements st' !! i = Some x -> visited x = true.
Proof.
  intros HB mu. induction mu as [mu IH] using lt_wf_ind.
  intros new evs st el fuel I J Hmu Hfuel.
  destruct fuel as [|n]; [lia|]. simpl.
  assert (Hel : el < length (elements st))
    by (rewrite (bi_len _ _ _ _ _ _ _ _ _ I); apply (bi_el _ _ _ _ _ _ _ _ _ I)).
  destruct (lookup_lt_is_Some_2 _ _ Hel) as [e He].
  destruct (binv_back methods _ _ _ _ _ _ _ _ I el e He) as (e0 & He0 & Heve).
  destruct (if visited e then parentElement e else Some el) as [j|] eqn:Hj.
  2:{ destruct (visited e) eqn:Hv; [|done].
      exists new, evs, st, el. unfold bind.
      rewrite (build_step_exit methods n r el st e He Hv Hj), build_loop_None.
      split_and!; [done|done|done|].
      by apply (binv_exit methods _ _ _ W0 _ _ _ _ _ e I). }
  assert (Hjle : j <= el).
  { destruct (visited e); [|injection Hj as <-; lia].
    pose proof (wf_parent _ _ W0 el e0 He0) as H.
    rewrite <- (ev_parent _ _ _ _ Heve), Hj in H. lia. }
  assert (Hjvis : j = el -> visited e = false).
  { intros ->. destruct (visited e); [|done].
    pose proof (wf_parent _ _ W0 el e0 He0) as H.
    rewrite <- (ev_parent _ _ _ _ Heve), Hj in H. lia. }
  assert (Hjlt : j < length (elements st)) by lia.
  destruct (lookup_lt_is_Some_2 _ _ Hjlt) as [ej Hej].
  destruct (binv_back methods _ _ _ _ _ _ _ _ I j ej Hej) as (e0j & Hej0 & Hevj).
  destruct (binv_lineage methods _ _ _ W0 _ _ _ _ _ I j) as (l & Hl0 & Hl & Hlen & Hgp);
    [rewrite <- (bi_len _ _ _ _ _ _ _ _ _ I); lia|].
  assert (Hdrain : forall m arr, verbs ej !! m = Some arr -> length arr + length l < n).
  { intros m arr Harr. assert (length arr <= B); [|rewrite (bi_len _ _ _ _ _ _ _ _ _ I) in Hel; lia].
    destruct (ev_verbs _ _ _ _ Hevj m) as [Hv|Hv]; rewrite Hv in Harr.
    - by apply (HB j e0j m).
    - injection Harr as <-. simpl. lia. }
  pose proof (binv_stack methods _ _ _ Hr0 _ _ _ _ _ I) as Hstack.
  pose proof (fun m => binv_keys methods _ _ _ W0 _ _ _ _ _ I j ej m Hej) as Hkeys.
  destruct (drained_fields methods ej) as (Hdv & Hdp & Hdc & Hdm & Hdu).
  destruct (snoc_cases (children ej)) as [Hch|(rest & c & Hch)].
  - unfold bind.
    rewrite (build_step_mark methods n r el st e j ej _ l He Hj Hej Hkeys Hstack Hl Hdrain Hch).
    rewrite Hgp.
    set (st1 := set_elements _ _).
    assert (I1 : inv (new ++ node_layers (group_path (elements st0) l) ej methods)
                   evs st1 j).
    { eapply (binv_mark methods _ _ _ _ new evs st el e j ej l); try done. simpl.
      rewrite (bi_routers _ _ _ _ _ _ _ _ _ I), list_insert_insert_eq. by rewrite app_assoc. }
    assert (J1 : P (new ++ node_layers (group_path (elements st0) l) ej methods) st1 j)
      by (by eapply (P_mark new evs st el e j ej l)).
    pose proof (measure_insert (S (length (elements st0))) (elements st) j ej
      (set_visited true (drained methods ej)) Hej) as Hm.
    unfold weight in Hm. simpl in Hm. rewrite Hdc, Hch in Hm. simpl in Hm.
    apply (IH (measure (S (length (elements st0))) (elements st1) + j)) with (evs := evs)
      (new := new ++ node_layers (group_path (elements st0) l) ej methods); try done.
    + simpl. destruct (decide (j = el)) as [->|Hne].
      * assert (ej = e) as -> by congruence. rewrite (Hjvis eq_refl) in Hm. lia.
      * destruct (visited ej); lia.
    + simpl. destruct (decide (j = el)) as [->|Hne].
      * assert (ej = e) as -> by congruence. rewrite (Hjvis eq_refl) in Hm. lia.
      * destruct (visited ej); lia.
  - assert (Hcin : c ∈ children ej).
    { rewrite Hch. apply elem_of_app. right. by apply list_elem_of_singleton. }
    destruct (binv_child methods _ _ _ W0 _ _ _ _ _ I j ej c Hej Hcin)
      as (ec & Hec & Hpar & Hlt & e0c & He0c & Hpar0).
    assert (Hne : c <> j) by lia.
    unfold bind.
    rewrite (build_step_descend methods n r el st e j ej _ l c rest ec
               He Hj Hej Hkeys Hstack Hl Hdrain Hch Hne Hec).
    rewrite Hgp.
    set (st1 := emit _ _).
    assert (I1 : inv (new ++ node_layers (group_path (elements st0) l) ej methods)
                   (evs ++ [Descended j c]) st1 c).
    { eapply (binv_descend methods _ _ _ W0 _ new evs st el e j ej l c rest ec); try done. simpl.
      rewrite (bi_routers _ _ _ _ _ _ _ _ _ I), list_insert_insert_eq. by rewrite app_assoc. }
    assert (J1 : P (new ++ node_layers (group_path (elements st0) l) ej methods) st1 c)
      by (by eapply (P_descend new evs st el e j ej l c rest ec)).
    pose proof (measure_insert (S (length (elements st0))) (elements st) j ej
      (set_children rest (drained methods ej)) Hej) as Hm1.
    assert (Hec1 : <[j := set_children rest (drained methods ej)]> (elements st) !! c
                   = Some ec) by (by rewrite list_lookup_insert_ne).
    pose proof (measure_insert (S (length (elements st0))) _ c ec
      (set_middlewares (middlewares ej ++ middlewares ec) ec) Hec1) as Hm2.
    unfold weight in Hm1, Hm2. simpl in Hm1, Hm2.
    rewrite Hdv, Hch, length_app in Hm1. simpl in Hm1.
    assert (Hc : c < length (elements st0)) by (by eapply lookup_lt_Some).
    apply (IH (measure (S (length (elements st0))) (elements st1) + c))
      with (evs := evs ++ [Descended j c])
      (new := new ++ node_layers (group_path (elements st0) l) ej methods); try done.
    + simpl. lia.
    + simpl. lia.
Qed.

End Keeps.

(** [build] with what its loop keeps. *)
Lemma build_keeps (P : state -> list layer -> state -> nat -> Prop) st fuel r st' c :
  wf methods st -> currentElement (this st) = Some c ->
  (forall stack0, routers (build_start st) !! build_router st = Some stack0 ->
     P (build_start st) [] (build_start st) c /\
     (forall new evs s el e j ej l s',
        binv methods (build_start st) (build_router st) stack0 False new evs s el ->
        P (build_start st) new s el -> elements s !! el = Some e ->
        (if visited e then parentElement e else Some el) = Some j ->
        elements s !! j = Some ej -> lineage (elements (build_start st)) j l ->
        children ej = [] ->
        elements s' = <[j := set_visited true (drained methods ej)]> (elements s) ->
        P (build_start st)
          (new ++ node_layers (group_path (elements (build_start st)) l) ej methods) s' j) /\
     (forall new evs s el e j ej l k rest ek s',
        binv methods (build_start st) (build_router st) stack0 False new evs s el ->
        P (build_start st) new s el -> elements s !! el = Some e ->
        (if visited e then parentElement e else Some el) = Some j ->
        elements s !! j = Some ej -> lineage (elements (build_start st)) j l ->
        children ej = rest ++ [k] -> elements s !! k = Some ek ->
        elements s' = <[k := set_middlewares (middlewares ej ++ middlewares ek) ek]>
                        (<[j := set_children rest (drained methods ej)]> (elements s)) ->
        P (build_start st)
          (new ++ node_layers (group_path (elements (build_start st)) l) ej methods) s' k)) ->
  build methods fuel st = Returns r st' ->
  r = build_router st /\
  exists stack0 new evs el',
    routers (build_start st) !! r = Some stack0 /\
    routers st' !! r = Some (stack0 ++ new) /\
    binv methods (build_start st) r stack0 False new evs st' el' /\
    P (build_start st) new st' el' /\
    forall i x, elements st' !! i = Some x -> visited x = true.
Proof.
  intros W Hc HP Hrun.
  destruct (wf_build_start methods st W) as [W0 [stack0 Hr0]].
  destruct (build_start_fields st) as (Hthis & Hels & _).
  destruct (wf_cursor _ _ W) as (c' & Hc' & Hlt). assert (c' = c) as -> by congruence.
  destruct (ops_bound_exists (elements (build_start st))) as [B HB].
  destruct (HP stack0 Hr0) as (P0 & Pm & Pd).
  set (N := length (elements (build_start st))).
  set (mu := measure (S N) (elements (build_start st)) + c).
  assert (I0 : binv methods (build_start st) (build_router st) stack0 False [] []
                 (build_start st) c).
  { apply (binv_start methods _ _ _ W0 Hr0); [by rewrite Hels|by intros []]. }
  destruct (build_loop_keeps (build_start st) (build_router st) stack0 W0 Hr0
              (P (build_start st)) Pm Pd
              B HB mu [] [] (build_start st) c (mu + B + N + 2) I0 P0)
    as (new & evs & s & el' & Hloop & I & J & Hv); [done|done|].
  assert (Hbuild : build methods (mu + B + N + 2) st = Returns (build_router st) s).
  { rewrite build_unfold, Hc. unfold bind. by rewrite Hloop. }
  destruct (build_fuel methods _ _ _ _ _ _ _ Hrun Hbuild) as [-> ->].
  split; [done|]. exists stack0, new, evs, el'. split_and!; try done.
  by apply (binv_stack methods _ _ _ Hr0 _ _ _ _ _ I).
Qed.

End Loop.

Section Stacks.

Variable methods : list string.

(** ** The stacks [build] hands over, wherever it starts *)

Lemma shared_le lc : forall l, shared lc l <= length l.
Proof.
  induction lc as [|x lc IH]; intros [|y l]; simpl; try lia.
  case_decide; [|lia]. specialize (IH l). lia.
Qed.

Lemma shared_prefix l : forall lc, l `prefix_of` lc -> shared lc l = length l.
Proof.
  induction l as [|y l IH]; intros [|x lc] Hp; simpl; try done.
  - by apply prefix_nil_not in Hp.
  - apply prefix_cons_inv_1 in Hp as Hxy. apply prefix_cons_inv_2 in Hp.
    rewrite decide_True by done. by rewrite IH.
Qed.

Lemma shared_snoc lc : forall l c,
  ~ (l ++ [c]) `prefix_of` lc -> shared lc (l ++ [c]) = shared lc l.
Proof.
  induction lc as [|x lc IH]; intros [|y l] c Hn; simpl; try done.
  - case_decide as Hx; [|done]. subst. exfalso. apply Hn. apply prefix_cons, prefix_nil.
  - case_decide as Hx; [|done]. subst. f_equal. apply IH.
    intros Hp. apply Hn. by apply prefix_cons.
Qed.

Lemma inherited_snoc h0 lc l c :
  ~ (l ++ [c]) `prefix_of` lc ->
  inherited h0 lc (l ++ [c]) = inherited h0 lc l ++ middlewares_at h0 c.
Proof.
  intros Hn. unfold inherited. rewrite (shared_snoc lc l c Hn).
  pose proof (shared_le lc l) as Hle.
  rewrite drop_app_le by lia. rewrite fmap_app, concat_app. simpl. by rewrite app_nil_r.
Qed.

Lemma inherited_own h0 lc l i :
  (l ++ [i]) `prefix_of` lc -> inherited h0 lc (l ++ [i]) = middlewares_at h0 i.
Proof.
  intros Hp. unfold inherited. rewrite (shared_prefix _ _ Hp), length_app. simpl.
  replace (pred (length l + 1)) with (length l) by lia.
  rewrite drop_app_length. simpl. by rewrite app_nil_r.
Qed.

Lemma prefix_snoc_inv {A} (l k : list A) x :
  l `prefix_of` k ++ [x] -> l = k ++ [x] \/ l `prefix_of` k.
Proof.
  intros [t Ht]. destruct (snoc_cases t) as [->|(t' & y & ->)].
  - left. by rewrite app_nil_r in Ht.
  - right. rewrite app_assoc in Ht. apply app_inj_tail in Ht as [-> _]. by exists t'.
Qed.

(** The lineages of the elements above an element are the prefixes of its
    lineage. *)
Lemma on_path_prefix h c0 lc i l :
  lineage h c0 lc -> on_path h c0 i -> lineage h i l -> l `prefix_of` lc.
Proof.
  intros Hlc Hon. revert lc Hlc. induction Hon as [a|a e p i Ha Hp Hon IH]; intros lc Hlc Hl.
  - by rewrite (lineage_fun _ _ _ _ Hl Hlc).
  - destruct (lineage_inv _ _ _ Hlc) as (e' & He' & [(Hp' & _)|(p' & lp & Hp' & Hlp & ->)]);
      [congruence|].
    assert (p' = p) as -> by congruence.
    by apply prefix_app_r, IH.
Qed.

Lemma prefix_on_path h c0 lc :
  lineage h c0 lc -> forall i l, lineage h i l -> l `prefix_of` lc -> on_path h c0 i.
Proof.
  induction 1 as [c0 e He Hp|c0 e p lp He Hp Hlp IH]; intros i l Hl Hpre.
  - pose proof (lineage_length _ _ _ Hl) as Hlen.
    apply prefix_length in Hpre as Hlen'. simpl in Hlen'.
    destruct l as [|x [|y l]]; simpl in *; try lia.
    destruct Hpre as [t Ht]. injection Ht as <- _.
    apply lineage_last in Hl. injection Hl as <-. apply on_path_here.
  - apply prefix_snoc_inv in Hpre as [->|Hpre].
    + apply lineage_last in Hl. rewrite last_snoc in Hl. injection Hl as <-.
      apply on_path_here.
    + eapply on_path_up; [done|done|]. by apply (IH i l).
Qed.

Section Exact.

Variable st0 : state.
Variable r : nat.
Variable stack0 : list layer.
Hypothesis W0 : wf methods st0.
Hypothesis Hr0 : routers st0 !! r = Some stack0.
Variable c0 : nat.
Variable lc : list nat.
Hypothesis Hlc : lineage (elements st0) c0 lc.

Local Abbreviation inv := (binv methods st0 r stack0 False).
Local Abbreviation jnv := (jinv methods st0 c0 lc).

Lemma jinv_start : c0 < length (elements st0) -> jnv [] st0 c0.
Proof.
  intros Hc0. split.
  - intros i e l Hon Hi _ Hl.
    pose proof (on_path_prefix _ _ _ _ _ Hlc Hon Hl) as Hpre.
    destruct (lineage_inv _ _ _ Hl) as (e' & He' & [(_ & ->)|(p & l' & _ & _ & ->)]);
      assert (e' = e) as -> by congruence.
    + rewrite (inherited_own _ lc [] i Hpre). unfold middlewares_at. by rewrite Hi.
    + rewrite (inherited_own _ lc l' i Hpre). unfold middlewares_at. by rewrite Hi.
  - intros i e Hon Hi. by right.
  - by intros x ?%elem_of_nil.
  - intros i e0 e l m arr o Hi0 Hi _ _ Harr _. left. congruence.
Qed.

(** What the verbs of the element [j] that the loop drains give. *)
Lemma jinv_node new evs st el e j ej l :
  inv new evs st el -> jnv new st el ->
  elements st !! el = Some e ->
  (if visited e then parentElement e else Some el) = Some j ->
  elements st !! j = Some ej -> lineage (elements st0) j l ->
  (forall x, x ∈ node_layers (group_path (elements st0) l) ej methods ->
     exact_layer methods (elements st0) lc x) /\
  (forall m arr o, m ∈ methods -> verbs ej !! m = Some arr -> o ∈ arr ->
     render m (group_path (elements st0) l) (inherited (elements st0) lc l) o
       ∈ node_layers (group_path (elements st0) l) ej methods).
Proof.
  intros I J He Hj Hej Hl.
  destruct (binv_back methods _ _ _ _ _ _ _ _ I j ej Hej) as (e0j & Hj0 & Hevj).
  assert (Hon : on_path (elements st0) el j)
    by (by apply (binv_on_path methods _ _ _ _ _ _ _ _ I e j)).
  assert (Hmw : forall m arr o, m ∈ methods -> verbs ej !! m = Some arr -> o ∈ arr ->
            middlewares ej = inherited (elements st0) lc l).
  { intros m arr o Hm Harr Ho. apply (ji_chain _ _ _ _ _ _ _ J j ej l); [done|done| |done].
    destruct (visited ej) eqn:Hv; [|done].
    destruct (bi_visited _ _ _ _ _ _ _ _ _ I j ej Hej Hv) as [_ Hops].
    rewrite (Hops m Hm) in Harr. injection Harr as <-. by apply elem_of_nil in Ho. }
  split.
  - intros x Hx. destruct (node_layers_elem _ _ _ _ Hx) as (m & o & Hm & Ho & ->).
    unfold ops_of in Ho. destruct (verbs ej !! m) as [arr|] eqn:Harr;
      [|by apply elem_of_nil in Ho]. simpl in Ho.
    rewrite (Hmw m arr o Hm Harr Ho).
    destruct (ev_verbs _ _ _ _ Hevj m) as [Hv|Hv]; rewrite Hv in Harr.
    + by exists j, e0j, l, m, arr, o.
    + injection Harr as <-. by apply elem_of_nil in Ho.
  - intros m arr o Hm Harr Ho.
    destruct (node_layers_block (group_path (elements st0) l) methods ej m Hm)
      as (pre & post & ->).
    rewrite <- (Hmw m arr o Hm Harr Ho).
    apply elem_of_app. right. apply elem_of_app. left.
    apply list_elem_of_fmap_2. unfold ops_of. rewrite Harr. simpl.
    by apply elem_of_reverse.
Qed.

(** The loop finds no child left at [j] and marks it visited. *)
Lemma jinv_mark new evs st el e j ej l st' :
  inv new evs st el -> jnv new st el ->
  elements st !! el = Some e ->
  (if visited e then parentElement e else Some el) = Some j ->
  elements st !! j = Some ej -> lineage (elements st0) j l ->
  elements st' = <[j := set_visited true (drained methods ej)]> (elements st) ->
  jnv (new ++ node_layers (group_path (elements st0) l) ej methods) st' j.
Proof.
  intros I J He Hj Hej Hl Hels.
  destruct (jinv_node new evs st el e j ej l I J He Hj Hej Hl) as [Hsound Hfull].
  assert (Hon : on_path (elements st0) el j)
    by (by apply (binv_on_path methods _ _ _ _ _ _ _ _ I e j)).
  assert (L : forall i x', elements st' !! i = Some x' ->
            (i = j /\ x' = set_visited true (drained methods ej)) \/
            (i <> j /\ elements st !! i = Some x')).
  { rewrite Hels. intros i x' [(<- & <- & _)|(Hn1 & Hi)]%list_lookup_insert_Some;
      [by left|by right]. }
  split.
  - intros i x' l' Hi Hx' Hv Hl'. destruct (L i x' Hx') as [(-> & ->)|(Hne & Hx)]; [done|].
    apply (ji_chain _ _ _ _ _ _ _ J i x' l'); [|done|done|done].
    by apply (on_path_trans _ el j i).
  - intros i x' Hi Hx'. destruct (L i x' Hx') as [(-> & ->)|(Hne & Hx)]; [by left|].
    destruct (ji_start _ _ _ _ _ _ _ J i x' Hi Hx) as [Hv|Hel]; [by left|].
    destruct (on_path_move methods _ _ _ _ _ _ _ _ _ _ _ I He Hj Hel) as [[-> Hve]|Hon'];
      [left; congruence|by right].
  - intros x [Hx|Hx]%elem_of_app; [by apply (ji_sound _ _ _ _ _ _ _ J)|by apply Hsound].
  - intros i e0 x' l' m arr o Hi0 Hx' Hl' Hm Harr Ho.
    destruct (L i x' Hx') as [(-> & ->)|(Hne & Hx)].
    + right. rewrite (lineage_fun _ _ _ _ Hl' Hl).
      destruct (ji_full _ _ _ _ _ _ _ J j e0 ej l m arr o Hi0 Hej Hl Hm Harr Ho) as [Hp|Hin].
      * apply elem_of_app. right. by apply (Hfull m arr o).
      * apply elem_of_app. by left.
    + destruct (ji_full _ _ _ _ _ _ _ J i e0 x' l' m arr o Hi0 Hx Hl' Hm Harr Ho) as [Hp|Hin];
        [by left|right]. apply elem_of_app. by left.
Qed.

(** The loop goes down into the last child of [j]. *)
Lemma jinv_descend new evs st el e j ej l c rest ec st' :
  inv new evs st el -> jnv new st el ->
  elements st !! el = Some e ->
  (if visited e then parentElement e else Some el) = Some j ->
  elements st !! j = Some ej -> lineage (elements st0) j l ->
  children ej = rest ++ [c] -> elements st !! c = Some ec ->
  elements st' = <[c := set_middlewares (middlewares ej ++ middlewares ec) ec]>
                   (<[j := set_children rest (drained methods ej)]> (elements st)) ->
  jnv (new ++ node_layers (group_path (elements st0) l) ej methods) st' c.
Proof.
  intros I J He Hj Hej Hl Hch Hec Hels.
  destruct (jinv_node new evs st el e j ej l I J He Hj Hej Hl) as [Hsound Hfull].
  assert (Hon : on_path (elements st0) el j)
    by (by apply (binv_on_path methods _ _ _ _ _ _ _ _ I e j)).
  assert (Hcin : c ∈ children ej).
  { rewrite Hch. apply elem_of_app. right. by apply list_elem_of_singleton. }
  destruct (binv_child methods _ _ _ W0 _ _ _ _ _ I j ej c Hej Hcin)
    as (ec1 & Hec1 & Hpar & Hlt & e0c & He0c & Hpar0).
  assert (ec1 = ec) as -> by congruence.
  destruct (drained_fields methods ej) as (Hdv & Hdp & Hdc & Hdm & Hdu).
  pose (ej' := set_children rest (drained methods ej)).
  pose (ec' := set_middlewares (middlewares ej ++ middlewares ec) ec).
  assert (L : forall i x', elements st' !! i = Some x' ->
            (i = c /\ x' = ec') \/ (i = j /\ i <> c /\ x' = ej') \/
            (i <> j /\ i <> c /\ elements st !! i = Some x')).
  { rewrite Hels. intros i x' [(<- & <- & _)|(Hn1 & Hi)]%list_lookup_insert_Some; [by left|].
    apply list_lookup_insert_Some in Hi as [(<- & <- & _)|(Hn2 & Hi)]; right; [left|right]; done. }
  assert (Hvj : visited ej = false).
  { destruct (visited ej) eqn:Hv; [|done].
    destruct (bi_visited _ _ _ _ _ _ _ _ _ I j ej Hej Hv) as [Hnil _].
    rewrite Hch in Hnil. by destruct rest. }
  assert (Hup : on_path (elements st0) c j)
    by (eapply on_path_up; [done|done|apply on_path_here]).
  pose proof (fun i e p => wf_parent_lt methods st0 i e p W0) as Hord.
  split.
  - intros i x' l' Hi Hx' Hv Hl'.
    destruct (on_path_inv _ _ _ Hi) as [->|(e0c' & p & Hc0 & Hp0 & Hon')].
    + destruct (L c x' Hx') as [(_ & ->)|[(? & ? & _)|(? & ? & _)]]; [|done|done].
      simpl in Hv |- *.
      destruct (lineage_inv _ _ _ Hl') as (e0c' & Hc0 & [[Hp0 _]|(p & lj & Hp0 & Hlj & ->)]);
        [congruence|].
      assert (p = j) as -> by congruence.
      rewrite (lineage_fun _ _ _ _ Hlj Hl).
      rewrite inherited_snoc.
      * rewrite (ji_chain _ _ _ _ _ _ _ J j ej l Hon Hej Hvj Hl).
        rewrite (bi_untouched _ _ _ _ _ _ _ _ _ I j ej c ec e0c Hej Hcin Hec He0c).
        unfold middlewares_at. by rewrite He0c.
      * intros Hpre. rewrite <- (lineage_fun _ _ _ _ Hlj Hl) in Hpre.
        pose proof (prefix_on_path _ _ _ Hlc c _ Hl' Hpre) as Hc0c.
        destruct (ji_start _ _ _ _ _ _ _ J c ec Hc0c Hec) as [Hvc|Hel]; [congruence|].
        pose proof (on_path_le _ _ _ Hord Hel) as Hle.
        destruct (visited e) eqn:Hve.
        -- destruct (on_path_inv _ _ _ Hel) as [->|(e0' & p' & He0' & Hp' & Hon'')].
           ++ congruence.
           ++ destruct (binv_back methods _ _ _ _ _ _ _ _ I el e He) as (e0e & He0e & Heve).
              rewrite (ev_parent _ _ _ _ Heve) in Hj.
              assert (p' = j) as -> by congruence.
              pose proof (on_path_le _ _ _ Hord Hon''). lia.
        -- injection Hj as <-. lia.
    + assert (p = j) as -> by congruence.
      pose proof (on_path_le _ _ _ Hord Hon') as Hle.
      assert (Heli : on_path (elements st0) el i) by (by eapply on_path_trans).
      destruct (L i x' Hx') as [(? & _)|[(-> & _ & ->)|(_ & _ & Hx)]]; [lia| |].
      * simpl in Hv |- *. rewrite Hdm. rewrite Hdv in Hv.
        by apply (ji_chain _ _ _ _ _ _ _ J j ej l').
      * by apply (ji_chain _ _ _ _ _ _ _ J i x' l').
  - intros i x' Hi Hx'.
    assert (Hold : exists x, elements st !! i = Some x /\ visited x' = visited x).
    { destruct (L i x' Hx') as [(-> & ->)|[(-> & _ & ->)|(_ & _ & Hx)]].
      - by exists ec.
      - exists ej. split; [done|]. simpl. by rewrite Hdv.
      - by exists x'. }
    destruct Hold as (x & Hx & Hvx). rewrite Hvx.
    destruct (ji_start _ _ _ _ _ _ _ J i x Hi Hx) as [Hv|Hel]; [by left|].
    destruct (on_path_move methods _ _ _ _ _ _ _ _ _ _ _ I He Hj Hel) as [[-> Hve]|Hon'].
    + left. congruence.
    + right. by apply (on_path_trans _ c j i).
  - intros x [Hx|Hx]%elem_of_app; [by apply (ji_sound _ _ _ _ _ _ _ J)|by apply Hsound].
  - intros i e0 x' l' m arr o Hi0 Hx' Hl' Hm Harr Ho.
    destruct (L i x' Hx') as [(-> & ->)|[(-> & _ & ->)|(_ & _ & Hx)]].
    + destruct (ji_full _ _ _ _ _ _ _ J c e0 ec l' m arr o Hi0 Hec Hl' Hm Harr Ho) as [Hp|Hin];
        [by left|right]. apply elem_of_app. by left.
    + right. rewrite (lineage_fun _ _ _ _ Hl' Hl).
      destruct (ji_full _ _ _ _ _ _ _ J j e0 ej l m arr o Hi0 Hej Hl Hm Harr Ho) as [Hp|Hin].
      * apply elem_of_app. right. by apply (Hfull m arr o).
      * apply elem_of_app. by left.
    + destruct (ji_full _ _ _ _ _ _ _ J i e0 x' l' m arr o Hi0 Hx Hl' Hm Harr Ho) as [Hp|Hin];
        [by left|right]. apply elem_of_app. by left.
Qed.

End Exact.

(** X12. The middlewares [build] hands to the router, wherever the cursor
    is. With each operation go the lists declared along the lineage of its
    element, from the last element that is also on the lineage of the
    cursor's element down to the operation's element, followed by the
    operation's own: an element on the way from the cursor's element to the
    root passes on its own list only, and nothing declared above it. The
    router gets such a layer, at the composed path, for every operation
    declared, and no other layer. *)
Theorem registered_stacks st fuel r st' c lc :
  reachable methods st -> currentElement (this st) = Some c ->
  lineage (elements st) c lc ->
  build methods fuel st = Returns r st' ->
  exists stack0 new,
    routers (build_start st) !! r = Some stack0 /\
    routers st' !! r = Some (stack0 ++ new) /\
    (forall x, x ∈ new ->
       exists i e l m arr o,
         elements st !! i = Some e /\ lineage (elements st) i l /\ m ∈ methods /\
         verbs e !! m = Some arr /\ o ∈ arr /\
         x = Layer m (join ((Some <$> (uri_at (elements st) <$> l)) ++ [op_uri o]))
               (inherited (elements st) lc l ++ op_middlewares o)) /\
    (forall i e l m arr o,
       elements st !! i = Some e -> lineage (elements st) i l -> m ∈ methods ->
       verbs e !! m = Some arr -> o ∈ arr ->
       Layer m (join ((Some <$> (uri_at (elements st) <$> l)) ++ [op_uri o]))
         (inherited (elements st) lc l ++ op_middlewares o) ∈ new).
Proof.
  intros W%reachable_wf Hc Hlc Hrun.
  destruct (wf_build_start methods st W) as [W0 _].
  destruct (build_start_fields st) as (Hthis & Hels & _).
  destruct (wf_cursor _ _ W) as (c' & Hc' & Hlt). assert (c' = c) as -> by congruence.
  assert (Hlc0 : lineage (elements (build_start st)) c lc) by (by rewrite Hels).
  destruct (build_keeps methods (fun s0 => jinv methods s0 c lc) st fuel r st' c W Hc)
    as (-> & stack0 & new & evs & el' & Hr0 & Hstack & I & J & Hv); [|done|].
  { intros stack0 Hr0. split_and!.
    - apply jinv_start; [done|by rewrite Hels].
    - intros new evs s el e j ej l s' I J He Hj Hej Hl _ Hs'.
      by eapply (jinv_mark (build_start st) (build_router st) stack0).
    - intros new evs s el e j ej l k rest ek s' I J He Hj Hej Hl Hch Hek Hs'.
      by eapply (jinv_descend (build_start st) (build_router st) stack0). }
  exists stack0, new. split_and!; [done|done| |].
  - intros x Hx.
    destruct (ji_sound _ _ _ _ _ _ _ J x Hx)
      as (i & e0 & l & m & arr & o & Hi & Hl & Hm & Harr & Ho & ->).
    rewrite Hels in Hi, Hl. exists i, e0, l, m, arr, o.
    split_and!; try done. unfold render, group_path. by rewrite Hels.
  - intros i e l m arr o Hi Hl Hm Harr Ho.
    assert (Hi0 : elements (build_start st) !! i = Some e) by (by rewrite Hels).
    assert (Hl0 : lineage (elements (build_start st)) i l) by (by rewrite Hels).
    destruct (bi_node _ _ _ _ _ _ _ _ _ I i e Hi0) as (e' & He' & Hev).
    destruct (bi_visited _ _ _ _ _ _ _ _ _ I i e' He' (Hv i e' He')) as [_ Hops].
    destruct (ji_full _ _ _ _ _ _ _ J i e e' l m arr o Hi0 He' Hl0 Hm Harr Ho) as [Hp|Hin].
    + rewrite (Hops m Hm) in Hp. injection Hp as <-. by apply elem_of_nil in Ho.
    + unfold render, group_path in Hin. by rewrite Hels in Hin.
Qed.

End Stacks.

Section Held.

Variable methods : list string.

(** ** The lists the elements hold after [build] *)

Section Lists.

Variable st0 : state.
Variable r : nat.
Variable stack0 : list layer.
Hypothesis W0 : wf methods st0.
Hypothesis Hr0 : routers st0 !! r = Some stack0.
Variable c0 : nat.
Variable lc : list nat.

Local Abbreviation inv := (binv methods st0 r stack0 False).
Local Abbreviation jnv := (jinv methods st0 c0 lc).

Lemma hinv_start : hinv st0 lc st0.
Proof.
  split.
  - intros i e0 e Hi0 Hi _. congruence.
  - intros i e0 e p ep lp Hi0 Hi Hp Hep Hnin _.
    destruct (wf_linked _ _ W0 i e0 p Hi0 Hp) as (ep' & Hep' & Hin).
    assert (ep' = ep) as -> by congruence. done.
Qed.

(** The loop finds no child left at [j] and marks it visited. *)
Lemma hinv_mark st j ej st' :
  hinv st0 lc st -> elements st !! j = Some ej ->
  elements st' = <[j := set_visited true (drained methods ej)]> (elements st) ->
  hinv st0 lc st'.
Proof.
  intros H Hej Hels.
  destruct (drained_fields methods ej) as (Hdv & Hdp & Hdc & Hdm & Hdu).
  assert (L : forall i x', elements st' !! i = Some x' ->
            exists x, elements st !! i = Some x /\ middlewares x' = middlewares x /\
              children x' = children x).
  { rewrite Hels. intros i x' [(<- & <- & _)|(Hne & Hi)]%list_lookup_insert_Some.
    - exists ej. simpl. by rewrite Hdm, Hdc.
    - by exists x'. }
  split.
  - intros i e0 x' Hi0 Hx' Hp. destruct (L i x' Hx') as (x & Hx & -> & _).
    by apply (hi_root _ _ _ H i e0 x).
  - intros i e0 x' p ep' lp Hi0 Hx' Hp Hep' Hnin Hlp.
    destruct (L i x' Hx') as (x & Hx & -> & _).
    destruct (L p ep' Hep') as (ep & Hep & _ & Hch). rewrite Hch in Hnin.
    by apply (hi_taken _ _ _ H i e0 x p ep lp).
Qed.

(** The loop goes down into the last child of [j], and stores in it what
    [j] holds followed by what the child holds. *)
Lemma hinv_descend new evs st el e j ej l c rest ec st' :
  inv new evs st el -> jnv new st el -> hinv st0 lc st ->
  elements st !! el = Some e ->
  (if visited e then parentElement e else Some el) = Some j ->
  elements st !! j = Some ej -> lineage (elements st0) j l ->
  children ej = rest ++ [c] -> elements st !! c = Some ec ->
  elements st' = <[c := set_middlewares (middlewares ej ++ middlewares ec) ec]>
                   (<[j := set_children rest (drained methods ej)]> (elements st)) ->
  hinv st0 lc st'.
Proof.
  intros I J H He Hj Hej Hl Hch Hec Hels.
  assert (Hon : on_path (elements st0) el j)
    by (by apply (binv_on_path methods _ _ _ _ _ _ _ _ I e j)).
  assert (Hcin : c ∈ children ej).
  { rewrite Hch. apply elem_of_app. right. by apply list_elem_of_singleton. }
  destruct (binv_child methods _ _ _ W0 _ _ _ _ _ I j ej c Hej Hcin)
    as (ec1 & Hec1 & Hpar & Hlt & e0c & He0c & Hpar0).
  assert (ec1 = ec) as -> by congruence.
  destruct (drained_fields methods ej) as (Hdv & Hdp & Hdc & Hdm & Hdu).
  assert (Hvj : visited ej = false).
  { destruct (visited ej) eqn:Hv; [|done].
    destruct (bi_visited _ _ _ _ _ _ _ _ _ I j ej Hej Hv) as [Hnil _].
    rewrite Hch in Hnil. by destruct rest. }
  pose proof (ji_chain _ _ _ _ _ _ _ J j ej l Hon Hej Hvj Hl) as Hmj.
  pose proof (bi_untouched _ _ _ _ _ _ _ _ _ I j ej c ec e0c Hej Hcin Hec He0c) as Hmc.
  assert (L : forall i x', elements st' !! i = Some x' ->
            (i = c /\ x' = set_middlewares (middlewares ej ++ middlewares ec) ec) \/
            (i <> c /\ exists x, elements st !! i = Some x /\
               middlewares x' = middlewares x /\
               (i = j -> children x' = rest) /\ (i <> j -> children x' = children x))).
  { rewrite Hels. intros i x' [(<- & <- & _)|(Hn1 & Hi)]%list_lookup_insert_Some; [by left|].
    right. split; [done|].
    apply list_lookup_insert_Some in Hi as [(<- & <- & _)|(Hn2 & Hi)].
    - exists ej. simpl. by rewrite Hdm.
    - exists x'. done. }
  split.
  - intros i e0 x' Hi0 Hx' Hp.
    destruct (L i x' Hx') as [(-> & ->)|(Hne & x & Hx & -> & _)]; [congruence|].
    by apply (hi_root _ _ _ H i e0 x).
  - intros i e0 x' p ep' lp Hi0 Hx' Hp Hep' Hnin Hlp.
    destruct (L i x' Hx') as [(-> & ->)|(Hne & x & Hx & -> & _)].
    + assert (e0 = e0c) as -> by congruence.
      assert (p = j) as -> by congruence.
      rewrite (lineage_fun _ _ _ _ Hlp Hl). simpl. by rewrite Hmj, Hmc.
    + destruct (L p ep' Hep') as [(-> & ->)|(Hnp & ep & Hep & _ & Hcj & Hcn)].
      * simpl in Hnin. by apply (hi_taken _ _ _ H i e0 x c ec lp).
      * destruct (decide (p = j)) as [->|Hpj].
        -- rewrite (Hcj eq_refl) in Hnin. assert (ep = ej) as -> by congruence.
           apply (hi_taken _ _ _ H i e0 x j ej lp); try done.
           rewrite Hch. intros [Hin|Hin%list_elem_of_singleton]%elem_of_app; done.
        -- rewrite (Hcn Hpj) in Hnin. by apply (hi_taken _ _ _ H i e0 x p ep lp).
Qed.

End Lists.

(** C9, as the code has it. No call of [path], [end] or a verb method, in
    any state of the builder, changes the middleware list an element was
    created with. [build] does: when it goes down into a child it stores in
    the child what the parent holds followed by what the child holds. So
    after [build] the root holds the list it was created with, and every
    other element holds what its parent had inherited when [build] took
    the element, which is the lists declared along the lineage of the
    parent from the last element that is on the lineage of the cursor's
    element too, followed by the list the element was created with. *)
Theorem middlewares_declared st :
  live methods st ->
  (forall fuel body st',
     run methods fuel body st = Returns tt st' ->
     forall i e, elements st !! i = Some e ->
       exists e', elements st' !! i = Some e' /\ middlewares e' = middlewares e) /\
  (reachable methods st ->
   forall fuel r st' c lc,
     currentElement (this st) = Some c -> lineage (elements st) c lc ->
     build methods fuel st = Returns r st' ->
     forall i e, elements st !! i = Some e ->
       exists e', elements st' !! i = Some e' /\
         match parentElement e with
         | None => middlewares e' = middlewares e
         | Some p =>
             exists lp, lineage (elements st) p lp /\
               middlewares e' = inherited (elements st) lc lp ++ middlewares e
         end).
Proof.
  intros B%live_bound. split.
  - intros fuel body st' Hrun i e Hi.
    destruct (run_keeps methods fuel body st st' B Hrun) as [_ E].
    destruct (ext_node _ _ E i e Hi) as (e' & He' & _ & _ & Hm & _). by exists e'.
  - intros W%reachable_wf fuel r st' c lc Hc Hlc Hrun i e Hi.
    destruct (wf_build_start methods st W) as [W0 _].
    destruct (build_start_fields st) as (Hthis & Hels & _).
    destruct (wf_cursor _ _ W) as (c' & Hc' & Hlt). assert (c' = c) as -> by congruence.
    assert (Hlc0 : lineage (elements (build_start st)) c lc) by (by rewrite Hels).
    destruct (build_keeps methods
                (fun s0 new s el => jinv methods s0 c lc new s el /\ hinv s0 lc s)
                st fuel r st' c W Hc)
      as (-> & stack0 & new & evs & el' & Hr0 & Hstack & I & [J H] & Hv); [|done|].
    { intros stack0 Hr0. split; [|split].
      - split; [apply jinv_start; [done|by rewrite Hels]|by apply hinv_start].
      - intros new evs s el e1 j ej l s' I [J H] He Hj Hej Hl _ Hs'. split.
        + by eapply (jinv_mark methods (build_start st) (build_router st) stack0).
        + by eapply (hinv_mark (build_start st) lc s j ej).
      - intros new evs s el e1 j ej l k rest ek s' I [J H] He Hj Hej Hl Hch Hek Hs'. split.
        + by eapply (jinv_descend methods (build_start st) (build_router st) stack0).
        + by eapply (hinv_descend (build_start st) (build_router st) stack0 W0 c lc). }
    assert (Hi0 : elements (build_start st) !! i = Some e) by (by rewrite Hels).
    destruct (bi_node _ _ _ _ _ _ _ _ _ I i e Hi0) as (e' & He' & Hev).
    exists e'. split; [done|].
    destruct (parentElement e) as [p|] eqn:Hp.
    + pose proof (wf_parent_lt methods st i e p W Hi Hp) as Hpi.
      assert (Hplt : p < length (elements st)) by (apply lookup_lt_Some in Hi; lia).
      destruct (lineage_exists _ (fun i e p => wf_parent_lt methods st i e p W) p Hplt)
        as (lp & Hlp & _).
      assert (Hplt' : p < length (elements st'))
        by (by rewrite (bi_len _ _ _ _ _ _ _ _ _ I), Hels).
      destruct (lookup_lt_is_Some_2 _ _ Hplt') as [ep' Hep'].
      destruct (bi_visited _ _ _ _ _ _ _ _ _ I p ep' Hep' (Hv p ep' Hep')) as [Hnil _].
      exists lp. split; [done|]. rewrite <- Hels.
      apply (hi_taken _ _ _ H i e e' p ep' lp); try done.
      * rewrite Hnil. apply not_elem_of_nil.
      * by rewrite Hels.
    + by apply (hi_root _ _ _ H i e e').
Qed.

End Held.

Section Subtrees.

Variable methods : list string.

(** ** The layers [build] hands over, in order *)

Lemma concat_skip {A B} (f : A -> list B) (P : A -> Prop) `{!forall x, Decision (P x)}
    (l : list A) :
  (forall x, x ∈ l -> ~ P x -> f x = []) ->
  concat (f <$> reverse (filter P l)) = concat (f <$> reverse l).
Proof.
  induction l as [|x l IH]; intros Hf; [done|].
  rewrite filter_cons, reverse_cons, fmap_app, concat_app. simpl.
  assert (IH' : concat (f <$> reverse (filter P l)) = concat (f <$> reverse l)).
  { apply IH. intros y Hy. apply Hf. by apply list_elem_of_further. }
  case_decide as HP.
  - rewrite reverse_cons, fmap_app, concat_app. simpl. by rewrite IH'.
  - rewrite IH', (Hf x) by (done || apply list_elem_of_here). by rewrite !app_nil_r.
Qed.

Lemma on_path_chain h y a b :
  on_path h y a -> on_path h y b -> on_path h a b \/ on_path h b a.
Proof.
  induction 1 as [y|y e q a Hy Hq Hqa IH]; intros Hb; [by left|].
  destruct (on_path_inv _ _ _ Hb) as [->|(e' & q' & Hy' & Hq' & Hqb)].
  - right. by eapply on_path_up.
  - assert (q' = q) as -> by congruence. by apply IH.
Qed.

Section Store.

(** A store whose children point back at their parents, which come first. *)
Variable h : list pathElement.
Hypothesis CW : forall p ep c, h !! p = Some ep -> c ∈ children ep ->
  exists ec, h !! c = Some ec /\ parentElement ec = Some p /\ p < c.

Lemma child_on_path p ep c : h !! p = Some ep -> c ∈ children ep -> on_path h c p.
Proof.
  intros Hp Hc. destruct (CW p ep c Hp Hc) as (ec & Hec & Hpar & _).
  eapply on_path_up; [done|done|apply on_path_here].
Qed.

(** The subtree of [x] reads the elements below [x] only. *)
Lemma subtree_frame n : forall h' frags inh x,
  (forall y, on_path h y x -> h' !! y = h !! y) ->
  subtree methods n h' frags inh x = subtree methods n h frags inh x.
Proof.
  induction n as [|n IH]; intros h' frags inh x Hsame; simpl; [done|].
  rewrite (Hsame x (on_path_here _ _)). destruct (h !! x) as [e|] eqn:Hx; [|done].
  f_equal. f_equal. apply list_fmap_ext. intros k y Hk.
  apply IH. intros z Hz. apply Hsame.
  apply (on_path_trans _ z y x Hz).
  apply (child_on_path x e y Hx). apply elem_of_reverse. by eapply list_elem_of_lookup_2.
Qed.

(** Fuel for the elements below [x] is enough. *)
Lemma subtree_fuel : forall n n' frags inh x,
  length h - x <= n -> length h - x <= n' ->
  subtree methods n h frags inh x = subtree methods n' h frags inh x.
Proof.
  induction n as [|n IH]; intros n' frags inh x Hn Hn'.
  - assert (Hx : h !! x = None) by (apply lookup_ge_None; lia).
    destruct n'; simpl; [done|by rewrite Hx].
  - destruct n' as [|n'].
    + assert (Hx : h !! x = None) by (apply lookup_ge_None; lia). simpl. by rewrite Hx.
    + simpl. destruct (h !! x) as [e|] eqn:Hx; [|done].
      f_equal. f_equal. apply list_fmap_ext. intros k y Hk.
      assert (Hy : y ∈ children e)
        by (apply elem_of_reverse; by eapply list_elem_of_lookup_2).
      destruct (CW x e y Hx Hy) as (_ & _ & _ & Hlt).
      apply IH; lia.
Qed.

(** An element without children nor operations has no layer. *)
Lemma subtree_spent n frags inh x e :
  h !! x = Some e -> children e = [] ->
  (forall m, m ∈ methods -> verbs e !! m = Some []) ->
  subtree methods n h frags inh x = [].
Proof.
  intros Hx Hch Hops. destruct n as [|n]; simpl; [done|]. rewrite Hx, Hch. simpl.
  rewrite app_nil_r. by apply node_layers_nil.
Qed.

(** Leaving out a child without layers leaves out nothing. *)
Lemma own_layers_all l i skip e :
  h !! i = Some e ->
  (forall s, skip = Some s -> s ∈ children e ->
     forall n frags inh, subtree methods n h frags inh s = []) ->
  own_layers methods h l i skip =
    node_layers (group_path h l) e methods ++
    concat (subtree methods (length h) h (group_path h l) (middlewares e)
              <$> reverse (children e)).
Proof.
  intros Hi Hskip. unfold own_layers. rewrite Hi. f_equal.
  apply concat_skip. intros x Hx Hn. destruct skip as [s|].
  - destruct (decide (x = s)) as [->|Hne]; [by apply (Hskip s)|].
    exfalso. apply Hn. congruence.
  - exfalso. by apply Hn.
Qed.

Hypothesis PO : forall i e p, h !! i = Some e -> parentElement e = Some p -> p < i.

(** Two children of one element have disjoint subtrees. *)
Lemma siblings_apart p ep x s es y :
  h !! p = Some ep -> x ∈ children ep -> h !! s = Some es -> parentElement es = Some p ->
  x <> s -> on_path h y x -> ~ on_path h y s.
Proof.
  intros Hp Hx Hs Hps Hne Hyx Hys.
  destruct (CW p ep x Hp Hx) as (ex & Hex & Hpx & Hlt).
  pose proof (PO s es p Hs Hps) as Hlt'.
  destruct (on_path_chain _ _ _ _ Hyx Hys) as [H|H];
    destruct (on_path_inv _ _ _ H) as [?|(e' & q & He' & Hq & Hon)]; try congruence.
  - assert (q = p) as -> by congruence. pose proof (on_path_le _ _ _ PO Hon). lia.
  - assert (q = p) as -> by congruence. pose proof (on_path_le _ _ _ PO Hon). lia.
Qed.

(** The elements above [s] and the subtrees of their other children read
    nothing below [s]. *)
Lemma upward_frame h' :
  length h' = length h -> same_links h h' ->
  forall l s, lineage h s (l ++ [s]) ->
  (forall y, ~ on_path h y s -> h' !! y = h !! y) ->
  upward methods h' (reverse l) (Some s) = upward methods h (reverse l) (Some s).
Proof.
  intros Hlen Hlinks l. induction l as [|p l IH] using rev_ind; intros s Hl Hsame; [done|].
  destruct (lineage_inv _ _ _ Hl) as (es & Hs & [(_ & Hone)|(p' & lp & Hps & Hlp & Heq)]).
  { apply (f_equal length) in Hone. rewrite !length_app in Hone. simpl in Hone. lia. }
  apply app_inj_tail in Heq as [<- _].
  pose proof (lineage_last _ _ _ Hlp) as Hlast. rewrite last_snoc in Hlast.
  injection Hlast as ->.
  pose proof (PO s es p' Hs Hps) as Hlt.
  assert (Hsp : on_path h s p') by (eapply on_path_up; [done|done|apply on_path_here]).
  rewrite reverse_snoc. simpl. rewrite reverse_cons, reverse_involutive.
  f_equal.
  - unfold own_layers. rewrite Hsame.
    2:{ intros Hon. pose proof (on_path_le _ _ _ PO Hon). lia. }
    destruct (h !! p') as [ep|] eqn:Hp; [|done].
    rewrite <- (group_path_links _ _ (l ++ [p']) Hlinks), Hlen. f_equal. f_equal.
    apply list_fmap_ext. intros k x Hk.
    assert (Hx : x ∈ filter (fun c => Some c <> Some s) (children ep))
      by (apply elem_of_reverse; by eapply list_elem_of_lookup_2).
    apply list_elem_of_filter in Hx as [Hxs Hx].
    apply subtree_frame. intros y Hy. apply Hsame.
    apply (siblings_apart p' ep x s es y); try done. congruence.
  - apply IH; [done|]. intros y Hy. apply Hsame. intros Hys. apply Hy.
    by apply (on_path_trans _ y s p').
Qed.

End Store.

End Subtrees.

Section Flattened.

Variable methods : list string.

Section Flat.

Variable st0 : state.
Variable r : nat.
Variable stack0 : list layer.
Hypothesis W0 : wf methods st0.
Hypothesis Hr0 : routers st0 !! r = Some stack0.
Variable lc : list nat.

Local Abbreviation inv := (binv methods st0 r stack0 False).
Local Abbreviation knv := (kinv methods st0 lc).

Section Facts.

Variables (new : list layer) (evs : list event) (st : state) (el : nat).
Hypothesis I : inv new evs st el.

Lemma binv_cw p ep c :
  elements st !! p = Some ep -> c ∈ children ep ->
  exists ec, elements st !! c = Some ec /\ parentElement ec = Some p /\ p < c.
Proof.
  intros Hp Hc.
  destruct (binv_child methods _ _ _ W0 _ _ _ _ _ I p ep c Hp Hc) as (ec & ? & ? & ? & _).
  by exists ec.
Qed.

Lemma binv_po i e p :
  elements st !! i = Some e -> parentElement e = Some p -> p < i.
Proof.
  intros Hi Hp. destruct (binv_back methods _ _ _ _ _ _ _ _ I i e Hi) as (e0 & He0 & Hev).
  rewrite (ev_parent _ _ _ _ Hev) in Hp. by apply (wf_parent_lt methods st0 i e0 p W0).
Qed.

(** A visited element has no layer left. *)
Lemma binv_spent i e :
  elements st !! i = Some e -> visited e = true ->
  (forall n frags inh, subtree methods n (elements st) frags inh i = []) /\
  (forall l skip, own_layers methods (elements st) l i skip = []).
Proof.
  intros Hi Hv. destruct (bi_visited _ _ _ _ _ _ _ _ _ I i e Hi Hv) as [Hch Hops].
  split.
  - intros n frags inh. by apply (subtree_spent methods _ n frags inh i e).
  - intros l skip. unfold own_layers. rewrite Hi, Hch. simpl.
    rewrite app_nil_r. by apply node_layers_nil.
Qed.

(** What is left to do, told from the element [j] that the loop drains. *)
Lemma kinv_at e j ej l :
  knv new st el -> elements st !! el = Some e ->
  (if visited e then parentElement e else Some el) = Some j ->
  elements st !! j = Some ej -> lineage (elements st0) j l ->
  new ++
    (node_layers (group_path (elements st0) l) ej methods ++
     concat (subtree methods (length (elements st)) (elements st)
               (group_path (elements st0) l) (middlewares ej)
               <$> reverse (children ej))) ++
    upward methods (elements st) (reverse (removelast l)) (Some j)
  = flattened methods (elements st0) lc.
Proof.
  intros K He Hj Hej Hl.
  pose proof (binv_links methods _ _ _ _ _ _ _ _ I) as Hlinks.
  assert (Hj' : new ++ upward methods (elements st) (reverse l) None
                = flattened methods (elements st0) lc).
  { destruct (visited e) eqn:Hv; [|injection Hj as <-; by apply K].
    destruct (binv_back methods _ _ _ _ _ _ _ _ I el e He) as (e0 & He0 & Hev).
    rewrite (ev_parent _ _ _ _ Hev) in Hj.
    rewrite <- (K (l ++ [el])) by (by eapply lineage_child).
    f_equal. rewrite reverse_snoc. simpl.
    destruct (binv_spent el e He Hv) as [Hsub Hown]. rewrite Hown. simpl.
    pose proof (lineage_last _ _ _ Hl) as Hlast.
    destruct (snoc_cases l) as [->|(la & x & ->)]; [done|].
    rewrite last_snoc in Hlast. injection Hlast as ->.
    rewrite reverse_snoc. simpl. f_equal.
    rewrite (own_layers_all methods _ _ j None ej Hej) by done.
    rewrite (own_layers_all methods _ _ j (Some el) ej Hej); [done|].
    by intros s [= <-] _. }
  rewrite <- Hj'. f_equal.
  pose proof (lineage_last _ _ _ Hl) as Hlast.
  destruct (snoc_cases l) as [->|(la & x & ->)]; [done|].
  rewrite last_snoc in Hlast. injection Hlast as ->.
  rewrite removelast_last, reverse_snoc. simpl. rewrite reverse_cons, reverse_involutive.
  f_equal. rewrite (own_layers_all methods _ _ j None ej Hej) by done.
  by rewrite <- (group_path_links _ _ _ Hlinks).
Qed.

End Facts.

Lemma kinv_start c0 : lineage (elements st0) c0 lc -> knv [] st0 c0.
Proof. intros Hlc l Hl. by rewrite (lineage_fun _ _ _ _ Hl Hlc). Qed.

(** The layers of a drained element. *)
Lemma drained_layers frags e e' :
  verbs e' = verbs (drained methods e) -> node_layers frags e' methods = [].
Proof.
  intros Hv. apply node_layers_nil. intros m Hm. rewrite Hv, drained_verbs.
  by rewrite decide_True.
Qed.

(** The loop finds no child left at [j] and marks it visited. *)
Lemma kinv_mark new evs st el e j ej l st' :
  inv new evs st el -> knv new st el ->
  elements st !! el = Some e ->
  (if visited e then parentElement e else Some el) = Some j ->
  elements st !! j = Some ej -> lineage (elements st0) j l ->
  children ej = [] ->
  elements st' = <[j := set_visited true (drained methods ej)]> (elements st) ->
  knv (new ++ node_layers (group_path (elements st0) l) ej methods) st' j.
Proof.
  intros I K He Hj Hej Hl Hch Hels l' Hl'. rewrite (lineage_fun _ _ _ _ Hl' Hl).
  rewrite <- (kinv_at new evs st el I e j ej l K He Hj Hej Hl).
  rewrite Hch. simpl. rewrite app_nil_r, <- !app_assoc. f_equal. f_equal.
  pose proof (binv_links methods _ _ _ _ _ _ _ _ I) as Hlinks.
  assert (Hlt : j < length (elements st)) by (by eapply lookup_lt_Some).
  destruct (drained_fields methods ej) as (Hdv & Hdp & Hdc & Hdm & Hdu).
  pose proof (lineage_last _ _ _ Hl) as Hlast.
  destruct (snoc_cases l) as [->|(la & x & ->)]; [done|].
  rewrite last_snoc in Hlast. injection Hlast as ->.
  rewrite removelast_last, reverse_snoc. simpl.
  unfold own_layers at 1. rewrite Hels, list_lookup_insert_eq by done. simpl.
  rewrite Hdc, Hch, (drained_layers _ ej) by done. simpl.
  apply (upward_frame methods (elements st) (binv_cw new evs st el I)
           (binv_po new evs st el I)).
  - by rewrite length_insert.
  - by apply (same_links_insert _ _ ej).
  - by apply (lineage_links _ _ _ _ Hlinks).
  - intros y Hy. apply list_lookup_insert_ne. intros <-. apply Hy, on_path_here.
Qed.

(** The loop goes down into the last child of [j]. *)
Lemma kinv_descend new evs st el e j ej l c rest ec st' :
  inv new evs st el -> knv new st el ->
  elements st !! el = Some e ->
  (if visited e then parentElement e else Some el) = Some j ->
  elements st !! j = Some ej -> lineage (elements st0) j l ->
  children ej = rest ++ [c] -> elements st !! c = Some ec ->
  elements st' = <[c := set_middlewares (middlewares ej ++ middlewares ec) ec]>
                   (<[j := set_children rest (drained methods ej)]> (elements st)) ->
  knv (new ++ node_layers (group_path (elements st0) l) ej methods) st' c.
Proof.
  intros I K He Hj Hej Hl Hch Hec Hels l' Hl'.
  pose proof (binv_links methods _ _ _ _ _ _ _ _ I) as Hlinks.
  pose proof (binv_cw new evs st el I) as CW.
  pose proof (binv_po new evs st el I) as PO.
  assert (Hcin : c ∈ children ej).
  { rewrite Hch. apply elem_of_app. right. by apply list_elem_of_singleton. }
  destruct (binv_child methods _ _ _ W0 _ _ _ _ _ I j ej c Hej Hcin)
    as (ec1 & Hec1 & Hpar & Hlt & e0c & He0c & Hpar0).
  assert (ec1 = ec) as -> by congruence.
  assert (Hnr : c ∉ rest).
  { pose proof (binv_nodup methods _ _ _ W0 _ _ _ _ _ I j ej Hej) as Hnd. rewrite Hch in Hnd.
    apply NoDup_app in Hnd as (_ & Hnd & _). intros Hin. apply (Hnd c Hin).
    by apply list_elem_of_singleton. }
  assert (Hjl : j < length (elements st)) by (by eapply lookup_lt_Some).
  assert (Hcl : c < length (elements st)) by (by eapply lookup_lt_Some).
  destruct (drained_fields methods ej) as (Hdv & Hdp & Hdc & Hdm & Hdu).
  set (ej' := set_children rest (drained methods ej)) in *.
  set (ec' := set_middlewares (middlewares ej ++ middlewares ec) ec) in *.
  assert (Hc' : elements st' !! c = Some ec').
  { rewrite Hels. apply list_lookup_insert_eq. by rewrite length_insert. }
  assert (Hj' : elements st' !! j = Some ej').
  { rewrite Hels, list_lookup_insert_ne by lia. by apply list_lookup_insert_eq. }
  assert (Hother : forall y, y <> j -> y <> c -> elements st' !! y = elements st !! y).
  { intros y ??. by rewrite Hels, !list_lookup_insert_ne. }
  assert (Hlen : length (elements st') = length (elements st))
    by (by rewrite Hels, !length_insert).
  assert (Hlinks' : same_links (elements st) (elements st')).
  { intros y. destruct (decide (y = c)) as [->|Hyc]; [by rewrite Hc', Hec|].
    destruct (decide (y = j)) as [->|Hyj]; [|by rewrite Hother].
    rewrite Hj', Hej. simpl. by rewrite Hdu, Hdp. }
  assert (Hgp : forall k, group_path (elements st') k = group_path (elements st0) k).
  { intros k. rewrite <- (group_path_links _ _ k Hlinks').
    symmetry. by apply group_path_links. }
  assert (Hbelow : forall y, ~ on_path (elements st) y j -> elements st' !! y = elements st !! y).
  { intros y Hy. apply Hother.
    - intros ->. apply Hy, on_path_here.
    - intros ->. apply Hy. eapply on_path_up; [done|done|apply on_path_here]. }
  assert (Hrest : forall x frags inh, x ∈ rest ->
            subtree methods (length (elements st')) (elements st') frags inh x
            = subtree methods (length (elements st)) (elements st) frags inh x).
  { intros x frags inh Hx. rewrite Hlen. apply (subtree_frame methods _ CW).
    assert (Hxin : x ∈ children ej) by (rewrite Hch; apply elem_of_app; by left).
    destruct (CW j ej x Hej Hxin) as (ex & Hex & Hpx & Hjx).
    intros y Hy. apply Hother.
    - intros ->. pose proof (on_path_le _ _ _ PO Hy). lia.
    - intros ->. apply (siblings_apart _ CW PO j ej x c ec c Hej Hxin Hec Hpar); [|done|].
      + intros ->. done.
      + apply on_path_here. }
  assert (Hkids : forall x frags inh n, x ∈ children ec -> length (elements st) = S n ->
            subtree methods (length (elements st')) (elements st') frags inh x
            = subtree methods n (elements st) frags inh x).
  { intros x frags inh n Hx Hn. rewrite Hlen.
    destruct (CW c ec x Hec Hx) as (ex & Hex & Hpx & Hcx).
    rewrite (subtree_frame methods _ CW).
    - apply (subtree_fuel methods _ CW); lia.
    - intros y Hy. pose proof (on_path_le _ _ _ PO Hy). apply Hother; lia. }
  assert (Hlc : lineage (elements st0) c (l ++ [c])) by (by eapply lineage_child).
  rewrite (lineage_fun _ _ _ _ Hl' Hlc).
  rewrite <- (kinv_at new evs st el I e j ej l K He Hj Hej Hl).
  rewrite Hch, reverse_snoc, <- !app_assoc. f_equal. f_equal.
  rewrite reverse_snoc. simpl. rewrite reverse_cons, reverse_involutive, <- app_assoc.
  f_equal.
  - rewrite (own_layers_all methods _ _ c None ec' Hc') by done.
    rewrite Hgp. unfold group_path at 1 2. rewrite !fmap_app. simpl.
    unfold uri_at at 2 4. rewrite He0c. simpl.
    destruct (length (elements st)) as [|n] eqn:Hn; [lia|]. simpl. rewrite Hec.
    assert (Hu : uri e0c = uri ec).
    { destruct (bi_node _ _ _ _ _ _ _ _ _ I c e0c He0c) as (x & Hx & Hev).
      assert (x = ec) as -> by congruence. symmetry. apply Hev. }
    rewrite Hu. f_equal. f_equal. apply list_fmap_ext. intros k x Hk.
    apply Hkids; [|done]. apply elem_of_reverse. by eapply list_elem_of_lookup_2.
  - pose proof (lineage_last _ _ _ Hl) as Hlast.
    destruct (snoc_cases l) as [->|(la & x & ->)]; [done|].
    rewrite last_snoc in Hlast. injection Hlast as ->.
    rewrite removelast_last, reverse_snoc. simpl. rewrite reverse_cons, reverse_involutive.
    f_equal.
    + rewrite (own_layers_all methods _ _ j (Some c) ej' Hj').
      2:{ intros s [= <-] Hin. done. }
      rewrite (drained_layers _ ej) by done. simpl. rewrite Hdm, Hgp.
      f_equal. apply list_fmap_ext. intros k x Hk.
      apply Hrest. apply elem_of_reverse. by eapply list_elem_of_lookup_2.
    + apply (upward_frame methods (elements st) CW PO); try done.
      by apply (lineage_links _ _ _ _ Hlinks).
Qed.

End Flat.

End Flattened.

Section Order.

Variable methods : list string.

(** X13. [build] as a function: the layers it appends to the router, in
    order. First come the layers of the element the cursor is on, then the
    subtrees of its children from the last one declared to the first;
    then, for each element above it up to the root, nearest first, the
    layers of that element and the subtrees of its other children, again
    from the last one declared to the first. The layers of an element are
    those of its operations verb by verb, in the order of [methods], the
    operations of one verb from the last one declared to the first; a
    subtree is its root's layers followed by the subtrees of its children. *)
Theorem build_flattens st fuel r st' c lc :
  reachable methods st -> currentElement (this st) = Some c ->
  lineage (elements st) c lc ->
  build methods fuel st = Returns r st' ->
  exists stack0,
    routers (build_start st) !! r = Some stack0 /\
    routers st' !! r = Some (stack0 ++ flattened methods (elements st) lc).
Proof.
  intros W%reachable_wf Hc Hlc Hrun.
  destruct (wf_build_start methods st W) as [W0 _].
  destruct (build_start_fields st) as (Hthis & Hels & _).
  destruct (build_keeps methods (fun s0 => kinv methods s0 lc) st fuel r st' c W Hc)
    as (-> & stack0 & new & evs & el' & Hr0 & Hstack & I & K & Hv); [|done|].
  { intros stack0 Hr0. split_and!.
    - apply kinv_start. by rewrite Hels.
    - intros new evs s el e j ej l s'. by apply (kinv_mark methods _ _ stack0 W0).
    - intros new evs s el e j ej l k rest ek s'.
      by apply (kinv_descend methods _ _ stack0 W0). }
  exists stack0. split; [done|]. rewrite Hstack. f_equal. f_equal.
  destruct (binv_lineage methods _ _ _ W0 _ _ _ _ _ I el') as (l & Hl0 & _);
    [apply (bi_el _ _ _ _ _ _ _ _ _ I)|].
  rewrite <- Hels. rewrite <- (K l Hl0).
  assert (Hnil : forall rl skip, upward methods (elements st') rl skip = []).
  { induction rl as [|i rl IH]; intros skip; [done|]. simpl. rewrite IH, app_nil_r.
    unfold own_layers. destruct (elements st' !! i) as [x|] eqn:Hx; [|done].
    destruct (bi_visited _ _ _ _ _ _ _ _ _ I i x Hx (Hv i x Hx)) as [Hch Hops].
    rewrite Hch. simpl. rewrite app_nil_r. by apply node_layers_nil. }
  by rewrite Hnil, app_nil_r.
Qed.

End Order.

(** * The test suite, and the claims at concrete programs *)

Ltac reach script fuel :=
  exists None, [], fuel, script; split; [by intros ? [=]|vm_compute; reflexivity].

(** ['Should build a router with a single get verb'] *)
Example test_single_get :
  stack_of [CallVerb "get" (Str "/hello") [foo]] = Some [Layer "get" "/hello" [foo]].
Proof. vm_compute. reflexivity. Qed.

(** ['Should build a router with a single path and a get verb'], in both
    styles. *)
Example test_single_path :
  stack_of [CallPath (Str "/hello") []; CallVerb "get" (Fun foo) []; CallEnd]
    = Some [Layer "get" "/hello" [foo]] /\
  stack_of [CallPath (Str "/hello") [Function 20 Callback [CallVerb "get" (Fun foo) []]]]
    = Some [Layer "get" "/hello" [foo]].
Proof. split; vm_compute; reflexivity. Qed.

(** ['should nest paths correctly'] *)
Example test_nest_paths :
  stack_of users_script = Some
    [Layer "get" "/users" [list_]; Layer "post" "/users" [create];
     Layer "delete" "/users/:id" [del]; Layer "get" "/users/:id" [find];
     Layer "put" "/users/:id" [update]].
Proof. vm_compute. reflexivity. Qed.

(** ['Should chain properly middlewares along deep paths'] *)
Example test_deep_middlewares :
  stack_of deep_script = Some
    [Layer "get" "/hello" [foo];
     Layer "get" "/:userId/one" [ifAuthenticated; list_];
     Layer "get" "/:userId/two/three" [ifAuthenticated; ifAllowed; find];
     Layer "get" "/:userId/two/four/five/six"
       [ifAuthenticated; ifAllowed; create; update; del]].
Proof. vm_compute. reflexivity. Qed.

(** ['Should render paths correctly for chaining style without end() calls'] *)
Example test_chain_without_end :
  stack_of chain_script = Some
    [Layer "delete" "/users/:id" [del]; Layer "get" "/users/:id" [find];
     Layer "put" "/users/:id" [update]; Layer "get" "/users" [list_];
     Layer "post" "/users" [create]].
Proof. vm_compute. reflexivity. Qed.

(** The same verb twice at one level: both layers, the second first. *)
Example test_same_verb_twice :
  stack_of twice_script = Some [Layer "get" "/x" [list_]; Layer "get" "/x" [foo]].
Proof. vm_compute. reflexivity. Qed.

(** ['Should build a router from a group']: no declaration, no layer. *)
Example test_empty : stack_of [] = Some [].
Proof. vm_compute. reflexivity. Qed.

(** [path] taken off the builder and given a callback: the callback is
    called, and [this.end()] then fails, the receiver having no [end]. *)
Example test_unbound_callback :
  path http_methods (invoke http_methods 1) (Str "/login") [Function 20 Callback []]
      (State (Object false None None) [] [] [])
    = Throws (TypeError "is not a function").
Proof. vm_compute. reflexivity. Qed.

(** C1 fails on the code. After [drift_script] the cursor is on ['/a/b'],
    below ['/a'] which declares [ifAuthenticated]; [build] starts there and
    registers [GET /a/b] with [list] alone, though the lists declared on
    the lineage of its element add up to [ifAuthenticated]. *)
Lemma drift_loses_inherited :
  exists st r st',
    built_by drift_script = Some (st, r, st') /\
    currentElement (this st) = Some 2 /\
    lineage (elements st) 2 [0; 1; 2] /\
    concat (middlewares_at (elements st) <$> [0; 1; 2]) = [ifAuthenticated] /\
    routers st' !! r = Some [Layer "get" "/a/b" [list_]].
Proof.
  eexists _, _, _. split; [vm_compute; reflexivity|].
  split; [reflexivity|]. split; [|split; vm_compute; reflexivity].
  eapply (lineage_child _ 2 _ 1 [0; 1]); [vm_compute; reflexivity|reflexivity|].
  eapply (lineage_child _ 1 _ 0 [0]); [vm_compute; reflexivity|reflexivity|].
  eapply lineage_root; [vm_compute; reflexivity|reflexivity].
Qed.

(** C7 fails on the code. A verb method taken off the builder throws, but
    [path] taken off the builder, whose receiver is then the global object,
    returns: it has made an element without a parent and stored it in the
    receiver. *)
Lemma path_ignores_receiver :
  verb "post" (Str "/login") [foo] (State (Object false None None) [] [] [])
    = Throws (Error "don't destructure the builder") /\
  path http_methods (invoke http_methods 1) (Str "/login") []
      (State (Object false None None) [] [] [])
    = Returns tt (State (Object false (Some 0) None)
                    [createPathElement http_methods None "/login" []] [] []).
Proof. split; vm_compute; reflexivity. Qed.

Lemma build_terminates_witness :
  exists fuel r st', build http_methods fuel users_state = Returns r st'.
Proof.
  apply (build_terminates http_methods users_state). reach users_script 3.
Defined.

Lemma registered_paths_witness :
  exists stack0 new,
    routers users_built !! 0 = Some (stack0 ++ new) /\
    forall x, x ∈ new ->
      exists i e l m arr o,
        elements users_state !! i = Some e /\ lineage (elements users_state) i l /\
        m ∈ http_methods /\ verbs e !! m = Some arr /\ o ∈ arr /\ l_verb x = m /\
        l_path x = join ((Some <$> (uri_at (elements users_state) <$> l)) ++ [op_uri o]).
Proof.
  destruct (registered_paths http_methods users_state 200 0 users_built)
    as (stack0 & new & _ & H1 & H2 & _).
  - reach users_script 3.
  - vm_compute. reflexivity.
  - by exists stack0, new.
Defined.

Lemma second_build_witness :
  exists fuel2 r2 st2,
    (forall fuel', fuel2 <= fuel' -> build http_methods fuel' users_built = Returns r2 st2) /\
    elements st2 = elements users_built /\
    r2 = length (routers users_built) /\ routers st2 = routers users_built ++ [[]].
Proof.
  destruct (second_build http_methods users_state 200 0 users_built)
    as (fuel2 & r2 & st2 & H1 & _ & _ & H2 & _ & H3 & H4).
  - reach users_script 3.
  - vm_compute. reflexivity.
  - by exists fuel2, r2, st2.
Defined.

Lemma last_declared_first_witness :
  (children <$> elements siblings_state !! 0) = Some [1; 2] /\
  routers siblings_built !! 0
    = Some [Layer "post" "/b" [create]; Layer "get" "/a/x" [list_]; Layer "get" "/a" [foo]] /\
  exists new evs,
    routers siblings_built !! 0 = Some new /\
    events siblings_built = events siblings_state ++ evs /\
    taken 0 evs = [2; 1] /\
    exists inh pre post,
      new = pre ++ [Layer "get" "/a/x" (inh ++ [list_]); Layer "get" "/a" (inh ++ [foo])]
                ++ post.
Proof.
  split; [reflexivity|]. split; [reflexivity|].
  destruct (last_declared_first http_methods siblings_state 200 0 siblings_built)
    as (stack0 & new & evs & H0 & H1 & H2 & H3 & _ & _ & H4).
  - reach siblings_script 2.
  - vm_compute. reflexivity.
  - injection H0 as <-. exists new, evs. split; [exact H1|]. split; [exact H2|].
    split; [etrans; [eapply (H3 0); vm_compute; reflexivity|reflexivity]|].
    set (e1 := default (PathElement false None [] [] "" ∅) (elements siblings_state !! 1)).
    destruct (H4 pair_inside 1 "get" "get" (Fun foo) [] (Str "/x") [list_] pair_declared 1
                e1 [0; 1]) as (inh & pre & post & ->).
    + apply (live_enter http_methods (ApiBuilder http_methods None []) (Str "/a")
               [pair_callback] pair_callback []); [apply live_new|reflexivity].
    + vm_compute. reflexivity.
    + reflexivity.
    + vm_compute. reflexivity.
    + apply (resumes_end http_methods pair_declared pair_closed); [vm_compute; reflexivity|].
      apply (resumes_run http_methods pair_closed 2 [CallPath (Str "/b") [post_callback]]
               siblings_state); [vm_compute; reflexivity|].
      apply resumes_here.
    + reflexivity.
    + eapply (lineage_child _ 1 _ 0 [0]); [vm_compute; reflexivity|reflexivity|].
      eapply lineage_root; [vm_compute; reflexivity|reflexivity].
    + exists inh, pre, post.
      assert (Hm : middlewares e1 = []) by reflexivity. rewrite Hm, app_nil_r.
      reflexivity.
Defined.

(** C9 fails as stated: after [nested_script], [build] leaves in the
    element of ['/a/b'], created with [ifAllowed] alone, the list
    [ifAuthenticated; ifAllowed]. *)
Lemma build_reassigns_middlewares :
  exists st r st',
    built_by nested_script = Some (st, r, st') /\
    (middlewares <$> elements st !! 2) = Some [ifAllowed] /\
    (middlewares <$> elements st' !! 2) = Some [ifAuthenticated; ifAllowed].
Proof. eexists _, _, _. split_and!; vm_compute; reflexivity. Qed.

Lemma middlewares_declared_witness :
  exists e e',
    elements nested_state !! 2 = Some e /\ middlewares e = [ifAllowed] /\
    elements nested_built !! 2 = Some e' /\
    middlewares e' = [ifAuthenticated; ifAllowed].
Proof.
  assert (Hl : lineage (elements nested_state) 1 [0; 1]).
  { eapply (lineage_child _ 1 _ 0 [0]); [vm_compute; reflexivity|reflexivity|].
    eapply lineage_root; [vm_compute; reflexivity|reflexivity]. }
  destruct (middlewares_declared http_methods nested_state) as [_ H].
  - apply reachable_live. reach nested_script 3.
  - edestruct (H ltac:(reach nested_script 3) 200 0 nested_built 0 [0] eq_refl
                 ltac:(eapply lineage_root; [vm_compute; reflexivity|reflexivity])
                 eq_refl 2) as (e' & H1 & H2).
    + vm_compute. reflexivity.
    + destruct H2 as (lp & H2 & H3).
      rewrite (lineage_fun _ _ _ _ H2 Hl) in H3.
      eexists _, e'. split; [reflexivity|]. split; [reflexivity|]. split; [exact H1|].
      rewrite H3. vm_compute. reflexivity.
Defined.

Lemma verb_without_fragment_witness :
  (middlewares <$> elements guarded_inside !! 1) = Some [ifAuthenticated] /\
  exists e arr st',
    currentElement (this guarded_inside) = Some 1 /\ elements guarded_inside !! 1 = Some e /\
    verbs e !! "get" = Some arr /\
    call http_methods (invoke http_methods 1) (CallVerb "get" (Fun list_) [])
      guarded_inside = Returns tt st' /\
    st' = set_elements
            (<[1 := set_verb "get" (arr ++ [Op (Some "") [list_]]) e]>
               (elements guarded_inside)) guarded_inside /\
    mountUri 2 1 (Op (Some "") [list_]) st' = Returns "/users" st'.
Proof.
  split; [reflexivity|].
  destruct (verb_without_fragment http_methods guarded_inside (invoke http_methods 1)
              "get" "get" list_ [])
    as (c & e & arr & st' & H1 & H2 & H3 & H4 & H5 & H6 & _).
  - apply (live_enter http_methods (ApiBuilder http_methods None []) (Str "/users")
             [ifAuthenticated; guarded_callback] guarded_callback [ifAuthenticated]);
      [apply live_new|reflexivity].
  - vm_compute. reflexivity.
  - injection H1 as <-. exists e, arr, st'.
    split; [reflexivity|]. split; [exact H2|]. split; [exact H3|]. split; [exact H4|].
    split; [exact H5|].
    apply (H6 [0; 1] 2); [|simpl; lia].
    eapply (lineage_child _ 1 _ 0 [0]); [vm_compute; reflexivity|reflexivity|].
    eapply lineage_root; [vm_compute; reflexivity|reflexivity].
Defined.

Lemma path_callback_witness :
  (middlewares <$> elements guarded_inside !! 1) = Some [ifAuthenticated] /\
  currentElement (this guarded_inside) = Some 1 /\
  exists st3,
    path http_methods (invoke http_methods 1) (Str "/:id") [id_callback] guarded_inside
      = Returns tt st3 /\
    Invoked 21 (Some 2) ∈ events st3 /\ currentElement (this st3) = Some 1.
Proof.
  split; [reflexivity|]. split; [reflexivity|].
  destruct (path_callback http_methods guarded_inside 1
              (Str "/:id") [id_callback] id_callback [] 1 id_returned)
    as (_ & _ & st3 & H1 & _ & H2 & H3).
  - apply (live_enter http_methods (ApiBuilder http_methods None []) (Str "/users")
             [ifAuthenticated; guarded_callback] guarded_callback [ifAuthenticated]);
      [apply live_new|reflexivity].
  - reflexivity.
  - reflexivity.
  - vm_compute. reflexivity.
  - exists st3. split_and!; [exact H1|exact H2|]. apply H3. reflexivity.
Defined.

(** C3 fails as stated: [path('/a', g => g.path('/b'))] on a new builder,
    whose cursor is the root at address 0. The callback returns with the
    cursor on ['/a/b'], and [path] with the cursor on ['/a'], at address 1. *)
Lemma callback_drift :
  currentElement (this (ApiBuilder http_methods None [])) = Some 0 /\
  exists st3,
    path http_methods (invoke http_methods 1) (Str "/a") [drift_callback]
      (ApiBuilder http_methods None []) = Returns tt st3 /\
    currentElement (this st3) = Some 1.
Proof. split; [reflexivity|]. eexists. split; vm_compute; reflexivity. Qed.

Lemma path_trailing_function_witness :
  exists c,
    currentElement (this guarded_inside) = Some c /\
    (forall h rest, [ifAllowed; foo] = rest ++ [h] ->
       elements (entered http_methods "/hello" rest guarded_inside) !! 2
         = Some (createPathElement http_methods (Some c) "/hello" rest) /\
       path http_methods (invoke http_methods 1) (Str "/hello") [ifAllowed; foo]
           guarded_inside =
         (invoke http_methods 1 h;; end_)
           (emit (Invoked (fn_ident h) (Some 2))
              (entered http_methods "/hello" rest guarded_inside))).
Proof.
  destruct (path_trailing_function http_methods guarded_inside 1
              (Str "/hello") [ifAllowed; foo]) as (c & H1 & H2 & _).
  - apply (live_enter http_methods (ApiBuilder http_methods None []) (Str "/users")
             [ifAuthenticated; guarded_callback] guarded_callback [ifAuthenticated]);
      [apply live_new|reflexivity].
  - exists c. split; [exact H1|exact H2].
Defined.

(** C4 fails as stated: [path('/hello', foo)] with the middleware [foo] of
    the test suite. [foo] is called, and the new element holds no
    middleware. *)
Lemma trailing_middleware_called :
  fn_role foo = Middleware /\
  exists st',
    path http_methods (invoke http_methods 1) (Str "/hello") [foo]
      (ApiBuilder http_methods None []) = Returns tt st' /\
    events st' = [Invoked (fn_ident foo) (Some 1)] /\
    (middlewares <$> elements st' !! 1) = Some [].
Proof. split; [reflexivity|]. eexists. split_and!; vm_compute; reflexivity. Qed.

Lemma inherited_chain_witness :
  exists stack0 new,
    routers deep_built !! 0 = Some (stack0 ++ new) /\
    forall x, x ∈ new ->
      exists i e l m arr o,
        elements deep_state !! i = Some e /\ lineage (elements deep_state) i l /\
        m ∈ http_methods /\ verbs e !! m = Some arr /\ o ∈ arr /\ l_verb x = m /\
        l_stack x = concat (middlewares_at (elements deep_state) <$> l) ++ op_middlewares o.
Proof.
  assert (R : reachable http_methods deep_state) by reach deep_script 6.
  destruct (inherited_chain http_methods deep_state 200 0 deep_built 0 R)
    as (stack0 & new & _ & H1 & H2).
  - reflexivity.
  - intros i e Hon Hne. exfalso.
    pose proof (on_path_le _ _ _
      (fun i e p => wf_parent_lt http_methods _ i e p (reachable_wf _ _ R)) Hon). lia.
  - vm_compute. reflexivity.
  - by exists stack0, new.
Defined.

Lemma tree_shape_witness :
  (exists e0, elements users_state !! 0 = Some e0 /\ parentElement e0 = None /\
     uri e0 = "" /\ middlewares e0 = []) /\
  (forall p ep c, elements users_state !! p = Some ep -> c ∈ children ep ->
     p < c /\ exists ec, elements users_state !! c = Some ec /\ parentElement ec = Some p).
Proof.
  destruct (tree_shape http_methods users_state) as (H1 & _ & _ & _ & H2 & _).
  - reach users_script 3.
  - split; [exact H1|exact H2].
Defined.

Lemma declarations_append_only_witness :
  exists e e',
    elements users_state !! 0 = Some e /\ elements users_scoped !! 0 = Some e' /\
    children e `prefix_of` children e'.
Proof.
  assert (He : exists e, elements users_state !! 0 = Some e)
    by (eexists; vm_compute; reflexivity).
  destruct He as [e He].
  destruct (declarations_append_only http_methods users_state 2 scoped_script users_scoped)
    with (i := 0) (e := e) as (e' & H1 & _ & _ & H2 & _).
  - reach users_script 3.
  - vm_compute. reflexivity.
  - exact He.
  - exists e, e'. split; [exact He|]. split; [exact H1|exact H2].
Defined.

Lemma cursor_depth_witness :
  depth_after 3 0 drift_script = 2 /\
  exists c' l', currentElement (this drift_state) = Some c' /\
    lineage (elements drift_state) c' l' /\ length l' = 3.
Proof.
  split; [reflexivity|].
  destruct (cursor_depth http_methods (ApiBuilder http_methods None []) 3 drift_script
              drift_state 0 [0]) as (c' & l' & H1 & H2 & H3).
  - reach (@nil stmt) 1.
  - reflexivity.
  - by eapply lineage_root.
  - vm_compute. reflexivity.
  - by exists c', l'.
Defined.

Lemma closed_script_chain_witness :
  currentElement (this deep_state) = Some 0 /\
  exists stack0 new,
    routers deep_built !! 0 = Some (stack0 ++ new) /\
    forall x, x ∈ new ->
      exists i e l m arr o,
        elements deep_state !! i = Some e /\ lineage (elements deep_state) i l /\
        m ∈ http_methods /\ verbs e !! m = Some arr /\ o ∈ arr /\ l_verb x = m /\
        l_stack x = concat (middlewares_at (elements deep_state) <$> l) ++ op_middlewares o.
Proof.
  destruct (closed_script_chain http_methods None [] 6 deep_script deep_state 200 0 deep_built)
    as (H0 & stack0 & new & _ & H1 & H2).
  - by intros ? [=].
  - vm_compute. reflexivity.
  - vm_compute. reflexivity.
  - vm_compute. reflexivity.
  - split; [exact H0|]. by exists stack0, new.
Defined.


Lemma quiet_run_returns_witness :
  exists st', run http_methods 6 deep_script users_state = Returns tt st'.
Proof.
  apply (quiet_run_returns http_methods users_state 6 deep_script).
  - reach users_script 3.
  - vm_compute. reflexivity.
Defined.

Lemma build_consumes_witness :
  this users_built = this users_state /\
  forall i e', elements users_built !! i = Some e' ->
    visited e' = true /\ children e' = [] /\
    forall m, m ∈ http_methods -> verbs e' !! m = Some [].
Proof.
  destruct (build_consumes http_methods users_state 200 0 users_built) as (H1 & _ & H2 & _).
  - reach users_script 3.
  - vm_compute. reflexivity.
  - split; [exact H1|]. intros i e' Hi. destruct (H2 i e' Hi) as (? & ? & ? & _). done.
Defined.

Lemma registered_count_witness :
  declared http_methods (elements users_state) = 5 /\
  exists stack0 new, routers users_built !! 0 = Some (stack0 ++ new) /\ length new = 5.
Proof.
  split; [vm_compute; reflexivity|].
  destruct (registered_count http_methods users_state 200 0 users_built)
    as (stack0 & new & _ & H1 & H2).
  - apply (bool_decide_unpack _). vm_compute. reflexivity.
  - reach users_script 3.
  - vm_compute. reflexivity.
  - exists stack0, new. split; [exact H1|]. rewrite H2. vm_compute. reflexivity.
Defined.

Lemma one_time_shot_witness :
  currentElement (this chain_late) = Some 1 /\
  (exists e, elements chain_late !! 1 = Some e /\
     verbs e !! "get" = Some [Op (Some "/late") [foo]]) /\
  exists fuel2 r2 st3,
    (forall fuel', fuel2 <= fuel' -> build http_methods fuel' chain_late = Returns r2 st3) /\
    elements st3 = elements chain_late /\ routers st3 = routers chain_late ++ [[]].
Proof.
  split; [reflexivity|]. split; [eexists; split; vm_compute; reflexivity|].
  destruct (one_time_shot http_methods chain_state 200 0 chain_built 1 late_script chain_late)
    as (fuel2 & r2 & st3 & H1 & _ & H2 & H3).
  - reach chain_script 1.
  - vm_compute. reflexivity.
  - reflexivity.
  - vm_compute. reflexivity.
  - exists fuel2, r2, st3. split; [exact H1|]. split; [exact H2|exact (proj2 H3)].
Defined.

Lemma scoped_run_restores_witness :
  scope_after 2 0 scoped_script = Some 0 /\
  currentElement (this chain_state) = Some 2 /\
  length (elements chain_scoped) = length (elements chain_state) + 2 /\
  currentElement (this chain_scoped) = Some 2.
Proof.
  split; [reflexivity|]. split; [reflexivity|]. split; [reflexivity|].
  apply (scoped_run_restores http_methods chain_state 2 scoped_script chain_scoped 2).
  - reach chain_script 1.
  - reflexivity.
  - reflexivity.
  - vm_compute. reflexivity.
Defined.

Lemma registered_stacks_witness :
  inherited (elements drift_state) [0; 1; 2] [0; 1; 2] = [] /\
  concat (middlewares_at (elements drift_state) <$> [0; 1; 2]) = [ifAuthenticated] /\
  exists stack0 new,
    routers drift_built !! 0 = Some (stack0 ++ new) /\
    Layer "get" "/a/b" [list_] ∈ new.
Proof.
  split; [vm_compute; reflexivity|]. split; [vm_compute; reflexivity|].
  destruct (registered_stacks http_methods drift_state 200 0 drift_built 2 [0; 1; 2])
    as (stack0 & new & _ & H1 & _ & H2).
  - reach drift_script 2.
  - reflexivity.
  - eapply (lineage_child _ 2 _ 1 [0; 1]); [vm_compute; reflexivity|reflexivity|].
    eapply (lineage_child _ 1 _ 0 [0]); [vm_compute; reflexivity|reflexivity|].
    eapply lineage_root; [vm_compute; reflexivity|reflexivity].
  - vm_compute. reflexivity.
  - exists stack0, new. split; [exact H1|].
    eapply (H2 2 _ [0; 1; 2] "get" [Op (Some "") [list_]] (Op (Some "") [list_])).
    + vm_compute. reflexivity.
    + eapply (lineage_child _ 2 _ 1 [0; 1]); [vm_compute; reflexivity|reflexivity|].
      eapply (lineage_child _ 1 _ 0 [0]); [vm_compute; reflexivity|reflexivity|].
      eapply lineage_root; [vm_compute; reflexivity|reflexivity].
    + apply (bool_decide_unpack _). vm_compute. reflexivity.
    + vm_compute. reflexivity.
    + apply list_elem_of_here.
Defined.

Lemma build_flattens_witness :
  flattened http_methods (elements chain_state) [0; 1; 2] =
    [Layer "delete" "/users/:id" [del]; Layer "get" "/users/:id" [find];
     Layer "put" "/users/:id" [update]; Layer "get" "/users" [list_];
     Layer "post" "/users" [create]] /\
  exists stack0,
    routers chain_built !! 0
      = Some (stack0 ++ flattened http_methods (elements chain_state) [0; 1; 2]).
Proof.
  split; [vm_compute; reflexivity|].
  destruct (build_flattens http_methods chain_state 200 0 chain_built 2 [0; 1; 2])
    as (stack0 & _ & H).
  - reach chain_script 1.
  - reflexivity.
  - eapply (lineage_child _ 2 _ 1 [0; 1]); [vm_compute; reflexivity|reflexivity|].
    eapply (lineage_child _ 1 _ 0 [0]); [vm_compute; reflexivity|reflexivity|].
    eapply lineage_root; [vm_compute; reflexivity|reflexivity].
  - vm_compute. reflexivity.
  - by exists stack0.
Defined.
